(** * Worker pool executor (testplan/runners/pools/base.py)

    A shallow embedding of the pool, its workers, their transports and the
    round-robin connection manager, followed by the properties of the
    dispatcher that the specification states.

    Conventions of the embedding:
    - Python objects that are mutated in place are threaded explicitly:
      every operation returns the new object next to its result.
    - An operation that may raise returns an [Outcome]; a handler that
      raises half way returns the state as it stood when the exception
      left it, since the main loop logs the exception and goes on.
    - [time.time()] is an argument of the operation that reads the clock.
    - Logging has no effect on the modelled state and is omitted; where the
      arguments of a log call can raise (a dictionary lookup inside a
      [format]), the lookup is kept. *)

From stdpp Require Import base option list gmap strings pretty.
From Stdlib Require Import ZArith Lia.

Local Open Scope Z_scope.

(** ** Python runtime: exceptions and list primitives *)

Module Py.

(** The exception classes the modelled code raises or traps.  The last
    three derive from [BaseException] only. *)
Inductive ExcClass :=
| IndexError | KeyError | ValueError | TypeError | AttributeError
| RuntimeError | AssertionError
| UserException (name : string)
| KeyboardInterrupt | SystemExit | GeneratorExit.

(** [isinstance(exc, Exception)] *)
Definition is_Exception (c : ExcClass) : bool :=
  match c with
  | KeyboardInterrupt | SystemExit | GeneratorExit => false
  | _ => true
  end.

(** A raised exception together with the frames [inspect.trace()] reports
    while it is being handled. *)
Record Exc := mkExc {
  exc_class : ExcClass;
  exc_msg : string;
  exc_trace : list string
}.

Inductive Outcome (A : Type) :=
| Ok (a : A)
| Raise (e : Exc).
Arguments Ok {A} a.
Arguments Raise {A} e.

Definition raise {A} (c : ExcClass) (msg : string) : Outcome A :=
  Raise (mkExc c msg []).

(** [l.pop()]: removes and returns the last item; [None] stands for the
    [IndexError] of an empty list. *)
Fixpoint pop {A} (l : list A) : option (A * list A) :=
  match l with
  | [] => None
  | x :: l' =>
      match pop l' with
      | None => Some (x, [])
      | Some (y, r) => Some (y, x :: r)
      end
  end.

(** [l.pop(0)]: removes and returns the first item. *)
Definition pop0 {A} (l : list A) : option (A * list A) :=
  match l with
  | [] => None
  | x :: l' => Some (x, l')
  end.

(** [l.remove(x)]: removes the first occurrence of [x]; [None] stands for
    the [ValueError] raised when [x] does not occur. *)
Fixpoint remove `{EqDecision A} (x : A) (l : list A) : option (list A) :=
  match l with
  | [] => None
  | y :: l' =>
      if decide (x = y) then Some l'
      else match remove x l' with
           | None => None
           | Some r => Some (y :: r)
           end
  end.

(** [l[i]] with Python's negative indices; [None] stands for
    [IndexError]. *)
Definition index {A} (l : list A) (i : Z) : option A :=
  let n := Z.of_nat (length l) in
  if decide (0 <= i) then l !! Z.to_nat i
  else if decide (- n <= i) then l !! Z.to_nat (n + i)
  else None.

End Py.

Import Py.

(** Wall-clock readings are only stored and compared for equality here. *)
Definition Time := Z.

(** ** Tasks and task results (testplan/runners/pools/tasks) *)

(** A [Runnable] target: its parent, its configuration's parent, and what
    [run()] does once these are set. *)
Record Runnable := mkRunnable {
  r_parent : option string;
  r_cfg_parent : option string;
  r_run : option string → option string → Outcome (option Z)
}.

(** What [task.materialize()] may hand back: a [Runnable], a plain
    callable, or any other object, on which [run()] is attempted. *)
Inductive Target :=
| TRunnable (r : Runnable)
| TCallable (call : Outcome (option Z))
| TObject (run : Outcome (option Z)).

(** Modelled from the spec: the [Task] class is declared in the tasks
    module; the core uses [uid()], [materialize()] and [_target]. *)
Record Task := mkTask {
  task_uid : string;
  task_target : string;
  materialize : Outcome Target
}.

(** Modelled from the spec: [TaskResult] is
    [{task, result | None, status: bool, reason: string?}]. *)
Record TaskResult := mkTaskResult {
  task : Task;
  result : option Z;
  status : bool;
  reason : option string
}.

(** ** Messages (testplan/runners/pools/communication) *)

(** The metadata a sender attaches: a worker sends its index, the pool its
    runpath. *)
Inductive Metadata :=
| WorkerMeta (index : string)
| PoolMeta (runpath : string).

(** Modelled from the spec: the command kinds of the message protocol, each
    with the data the protocol table gives it. *)
Inductive Body :=
| ConfigRequest
| ConfigSending (options : list string)
| TaskPullRequest (n : Z)
| TaskSending (tasks : list Task)
| TaskResults (results : list TaskResult)
| Heartbeat (sent : Time)
| SetupFailed (diag : string)
| Ack (data : option Time)
| Stop.

Record Message := mkMessage {
  sender_metadata : Metadata;
  body : Body
}.

(** [Message.make(cmd, data)] on a message object built from [meta] *)
Definition make (meta : Metadata) (b : Body) : Message := mkMessage meta b.

(** The command of a message, as [msg.cmd] gives it. *)
Inductive Cmd :=
| CmdConfigRequest | CmdConfigSending | CmdTaskPullRequest | CmdTaskSending
| CmdTaskResults | CmdHeartbeat | CmdSetupFailed | CmdAck | CmdStop.

Global Instance Cmd_eq_dec : EqDecision Cmd.
Proof. solve_decision. Defined.

Definition cmd (m : Message) : Cmd :=
  match body m with
  | ConfigRequest => CmdConfigRequest
  | ConfigSending _ => CmdConfigSending
  | TaskPullRequest _ => CmdTaskPullRequest
  | TaskSending _ => CmdTaskSending
  | TaskResults _ => CmdTaskResults
  | Heartbeat _ => CmdHeartbeat
  | SetupFailed _ => CmdSetupFailed
  | Ack _ => CmdAck
  | Stop => CmdStop
  end.

(** ** Transport *)

Module Transport.

Record t := mk {
  requests : list Message;
  responses : list Message;
  active : bool
}.

(** [Transport.__init__] *)
Definition init : t := mk [] [] true.

Definition set_requests (l : list Message) (tr : t) : t :=
  mk l (responses tr) (active tr).
Definition set_responses (l : list Message) (tr : t) : t :=
  mk (requests tr) l (active tr).
Definition set_active (b : bool) (tr : t) : t :=
  mk (requests tr) (responses tr) b.

(** [send]: [self.requests.append(message)] *)
Definition send (tr : t) (m : Message) : t :=
  set_requests (requests tr ++ [m]) tr.

(** [respond]: [self.responses.append(message)] *)
Definition respond (tr : t) (m : Message) : t :=
  set_responses (responses tr ++ [m]) tr.

(** [accept]: [return self.requests.pop()] *)
Definition accept (tr : t) : Outcome (Message * t) :=
  match pop (requests tr) with
  | Some (m, rest) => Ok (m, set_requests rest tr)
  | None => raise IndexError "pop from empty list"
  end.

(** What a call of [receive] can come to: a message, [None] because the
    transport is inactive, or still polling when the fuel is spent. *)
Inductive Received :=
| Got (m : Message)
| NoMessage
| Polling.

(** [receive]: each unit of fuel is one turn of the [while self.active]
    loop; an empty buffer means [time.sleep] and another turn. *)
Fixpoint receive (fuel : nat) (tr : t) : Received * t :=
  match fuel with
  | O => (Polling, tr)
  | S fuel' =>
      if active tr then
        match pop (responses tr) with
        | Some (m, rest) => (Got m, set_responses rest tr)
        | None => receive fuel' tr
        end
      else (NoMessage, tr)
  end.

(** [send_and_receive]; [fuel] bounds the polling of [receive], and
    [Polling] stands for a call that is still inside [receive].  The
    in-process [send] and [receive] raise nothing, so the two [except]
    clauses have nothing to wrap. *)
Definition send_and_receive (fuel : nat) (tr : t) (message : Message)
    (expect : option Cmd) : Outcome Received * t :=
  if negb (active tr) then (Ok NoMessage, tr)
  else
    let tr := send tr message in
    let '(received, tr) := receive fuel tr in
    match received with
    | Polling => (Ok Polling, tr)
    | NoMessage =>
        match expect with
        | Some _ =>
            if active tr then
              (raise RuntimeError "Received None when a command was expected.",
               tr)
            else (Ok NoMessage, tr)
        | None => (Ok NoMessage, tr)
        end
    | Got m =>
        match expect with
        | Some e =>
            if active tr then
              if decide (cmd m = e) then (Ok (Got m), tr)
              else (raise AssertionError "", tr)
            else (Ok (Got m), tr)
        | None => (Ok (Got m), tr)
        end
    end.

End Transport.

(** ** Exception handling *)

(** [try: body / except <classes> as exc: handler(exc) / else: orelse(v)].
    An exception whose class is not among the trapped ones propagates. *)
Definition try_except_else {A B} (body : Outcome A) (traps : ExcClass → bool)
    (handler : Exc → Outcome B) (orelse : A → Outcome B) : Outcome B :=
  match body with
  | Ok v => orelse v
  | Raise exc => if traps (exc_class exc) then handler exc else Raise exc
  end.

(** [except BaseException] traps every class; [except Exception] those of
    [is_Exception]. *)
Definition BaseException (c : ExcClass) : bool := true.

(** The lifecycle tags of an entity. *)
Inductive Status :=
| INITIAL | STARTING | STARTED | STOPPING | STOPPED | ABORTED.

Global Instance Status_eq_dec : EqDecision Status.
Proof. solve_decision. Defined.

(** ** Worker *)

Module Worker.

Record t := mk {
  index : string;
  transport : Transport.t;
  assigned : gset string;
  requesting : Z;
  last_heartbeat : option Time;
  active : bool
}.

(** [Worker.__init__] with [cfg.index = idx] *)
Definition init (idx : string) : t := mk idx Transport.init ∅ 0 None true.

Definition set_transport (tr : Transport.t) (w : t) : t :=
  mk (index w) tr (assigned w) (requesting w) (last_heartbeat w) (active w).
Definition set_assigned (s : gset string) (w : t) : t :=
  mk (index w) (transport w) s (requesting w) (last_heartbeat w) (active w).
Definition set_requesting (n : Z) (w : t) : t :=
  mk (index w) (transport w) (assigned w) n (last_heartbeat w) (active w).
Definition set_last_heartbeat (h : option Time) (w : t) : t :=
  mk (index w) (transport w) (assigned w) (requesting w) h (active w).
Definition set_active (b : bool) (w : t) : t :=
  mk (index w) (transport w) (assigned w) (requesting w) (last_heartbeat w) b.

(** [respond]: [self._transport.respond(msg)] *)
Definition respond (w : t) (msg : Message) : t :=
  set_transport (Transport.respond (transport w) msg) w.

(** [aborting]: [self._transport.active = False]. *)
Definition aborting (w : t) : t :=
  set_transport (Transport.set_active false (transport w)) w.

(** Modelled from the spec: [abort()] of the entity framework runs
    [aborting] and leaves the worker not active. *)
Definition abort (w : t) : t := set_active false (aborting w).

Section Execute.

(** [testplan.common.utils.exceptions.format_trace] *)
Variable format_trace : list string → Exc → string.

(** The body of the [try] once the task is materialized: a [Runnable]
    without parent adopts the worker, one whose configuration has no
    parent adopts the worker's configuration, then the target is
    invoked. *)
Definition invoke (self : t) (target : Target) : Outcome (option Z) :=
  match target with
  | TRunnable r =>
      let parent :=
        match r_parent r with
        | Some p => Some p
        | None => Some (index self)
        end in
      let cfg_parent :=
        match r_cfg_parent r with
        | Some p => Some p
        | None => Some (index self)
        end in
      r_run r parent cfg_parent
  | TCallable call => call
  | TObject run => run
  end.

(** [Worker.execute] *)
Definition execute (self : t) (tk : Task) : Outcome TaskResult :=
  try_except_else
    (match materialize tk with
     | Ok target => invoke self target
     | Raise exc => Raise exc
     end)
    BaseException
    (λ exc, Ok (mkTaskResult tk None false
                  (Some (format_trace (exc_trace exc) exc))))
    (λ res, Ok (mkTaskResult tk res true None)).

(** The [for item in received.data] loop of [_loop]:
    [results.append(self.execute(item))] for each task sent. *)
Fixpoint execute_all (self : t) (tasks : list Task)
    : Outcome (list TaskResult) :=
  match tasks with
  | [] => Ok []
  | tk :: rest =>
      match execute self tk with
      | Raise exc => Raise exc
      | Ok res =>
          match execute_all self rest with
          | Raise exc => Raise exc
          | Ok results => Ok (res :: results)
          end
      end
  end.

End Execute.

End Worker.

(** ** Connection manager *)

(** The pool keeps its workers in an environment keyed by worker index; the
    connection manager's roster refers to the same objects, so it is kept
    as the list of their keys and read through the environment. *)
Definition Environment := gmap string Worker.t.

Module RoundRobinConnManager.

Record t := mk {
  status : Status;
  _workers : list string;
  _current : Z
}.

(** [__init__]: empty roster, cursor at 1. *)
Definition init : t := mk INITIAL [] 1.

Definition set_status (s : Status) (c : t) : t :=
  mk s (_workers c) (_current c).
Definition set_workers (l : list string) (c : t) : t :=
  mk (status c) l (_current c).
Definition set_current (n : Z) (c : t) : t :=
  mk (status c) (_workers c) n.

(** [starting] *)
Definition starting (c : t) : t := set_status STARTED c.

(** [_unregister_workers] and [stopping] *)
Definition _unregister_workers (c : t) : t := set_workers [] c.
Definition stopping (c : t) : t := set_status STOPPED (_unregister_workers c).

(** [register] *)
Definition register (c : t) (w : string) : Outcome t :=
  if decide (status c ≠ STARTED) then
    raise RuntimeError "Can only register workers when started."
  else if decide (w ∈ _workers c) then
    raise RuntimeError "Worker already in ConnectionManager"
  else Ok (set_workers (_workers c ++ [w]) c).

(** [idx = (self._current % len(self._workers)) - 1] *)
Definition poll_index (c : t) : Z :=
  (_current c `mod` Z.of_nat (length (_workers c))) - 1.

(** The worker that [self._workers[idx]] denotes. *)
Definition polled (c : t) : option string :=
  Py.index (_workers c) (poll_index c).

(** The [try] block of [accept]: index the roster, then accept on that
    worker's transport. *)
Definition try_accept (env : Environment) (c : t)
    : Outcome (Message * Environment) :=
  match polled c with
  | None => raise IndexError "list index out of range"
  | Some w =>
      match env !! w with
      | None => raise RuntimeError "worker is not in the environment"
      | Some wk =>
          match Transport.accept (Worker.transport wk) with
          | Ok (m, tr) => Ok (m, <[w := Worker.set_transport tr wk]> env)
          | Raise exc => Raise exc
          end
      end
  end.

(** [accept]: the [return] inside [finally] discards whatever the [try]
    block raised, and the cursor moves on either way. *)
Definition accept (env : Environment) (c : t)
    : option Message * Environment * t :=
  match _workers c with
  | [] => (None, env, c)
  | _ :: _ =>
      match try_accept env c with
      | Ok (m, env') => (Some m, env', set_current (_current c + 1) c)
      | Raise _ => (None, env, set_current (_current c + 1) c)
      end
  end.

(** [n] calls of [accept] in a row, noting before each call the worker it
    is about to poll. *)
Fixpoint accept_trace (n : nat) (env : Environment) (c : t)
    : list (option string) :=
  match n with
  | O => []
  | S n' =>
      let '(_, env', c') := accept env c in
      polled c :: accept_trace n' env' c'
  end.

End RoundRobinConnManager.

(** ** Pool *)

(** What a submitter may pass to [add]: a [Task], or an object of some
    other type. *)
Inductive Submitted :=
| IsTask (tk : Task)
| NotTask (type_name : string).

Module Pool.

(** The fields of the pool object (those of [Executor] and of the
    configuration included). *)
Record State := mkState {
  name : string;
  size : nat;
  task_retries_limit : Z;
  cfg_chain : list (option string);
  runpath : string;
  status : Status;
  active : bool;
  _input : gmap string Task;
  ongoing : list string;
  _results : gmap string TaskResult;
  unassigned : list string;
  task_assign_cnt : gmap string Z;
  _workers : Environment;
  _workers_last_result : gmap string Time;
  _conn : RoundRobinConnManager.t
}.

(** The pool: its fields and the reschedule predicate, a callable that is
    given the pool and a task result. *)
Record t := mk {
  state : State;
  should_reschedule : State → TaskResult → bool
}.

Definition set_status (x : Status) (s : State) : State :=
  mkState (name s) (size s) (task_retries_limit s) (cfg_chain s) (runpath s) x
    (active s) (_input s) (ongoing s) (_results s) (unassigned s)
    (task_assign_cnt s) (_workers s) (_workers_last_result s) (_conn s).
Definition set_active (x : bool) (s : State) : State :=
  mkState (name s) (size s) (task_retries_limit s) (cfg_chain s) (runpath s)
    (status s) x (_input s) (ongoing s) (_results s) (unassigned s)
    (task_assign_cnt s) (_workers s) (_workers_last_result s) (_conn s).
Definition set_input (x : gmap string Task) (s : State) : State :=
  mkState (name s) (size s) (task_retries_limit s) (cfg_chain s) (runpath s)
    (status s) (active s) x (ongoing s) (_results s) (unassigned s)
    (task_assign_cnt s) (_workers s) (_workers_last_result s) (_conn s).
Definition set_ongoing (x : list string) (s : State) : State :=
  mkState (name s) (size s) (task_retries_limit s) (cfg_chain s) (runpath s)
    (status s) (active s) (_input s) x (_results s) (unassigned s)
    (task_assign_cnt s) (_workers s) (_workers_last_result s) (_conn s).
Definition set_results (x : gmap string TaskResult) (s : State) : State :=
  mkState (name s) (size s) (task_retries_limit s) (cfg_chain s) (runpath s)
    (status s) (active s) (_input s) (ongoing s) x (unassigned s)
    (task_assign_cnt s) (_workers s) (_workers_last_result s) (_conn s).
Definition set_unassigned (x : list string) (s : State) : State :=
  mkState (name s) (size s) (task_retries_limit s) (cfg_chain s) (runpath s)
    (status s) (active s) (_input s) (ongoing s) (_results s) x
    (task_assign_cnt s) (_workers s) (_workers_last_result s) (_conn s).
Definition set_task_assign_cnt (x : gmap string Z) (s : State) : State :=
  mkState (name s) (size s) (task_retries_limit s) (cfg_chain s) (runpath s)
    (status s) (active s) (_input s) (ongoing s) (_results s) (unassigned s)
    x (_workers s) (_workers_last_result s) (_conn s).
Definition set_workers (x : Environment) (s : State) : State :=
  mkState (name s) (size s) (task_retries_limit s) (cfg_chain s) (runpath s)
    (status s) (active s) (_input s) (ongoing s) (_results s) (unassigned s)
    (task_assign_cnt s) x (_workers_last_result s) (_conn s).
Definition set_workers_last_result (x : gmap string Time) (s : State)
    : State :=
  mkState (name s) (size s) (task_retries_limit s) (cfg_chain s) (runpath s)
    (status s) (active s) (_input s) (ongoing s) (_results s) (unassigned s)
    (task_assign_cnt s) (_workers s) x (_conn s).
Definition set_conn (x : RoundRobinConnManager.t) (s : State) : State :=
  mkState (name s) (size s) (task_retries_limit s) (cfg_chain s) (runpath s)
    (status s) (active s) (_input s) (ongoing s) (_results s) (unassigned s)
    (task_assign_cnt s) (_workers s) (_workers_last_result s) x.

(** A field update on the pool object. *)
Definition upd (f : State → State) (p : t) : t :=
  mk (f (state p)) (should_reschedule p).

(** [default_check_reschedule] *)
Definition default_check_reschedule (pool : State) (task_result : TaskResult)
    : bool := false.

(** [_add_workers]: workers with the indices ["0"] to [str(size - 1)]. *)
Definition _add_workers (size : nat) : Environment :=
  list_to_map ((λ i : nat, let idx := pretty i in (idx, Worker.init idx))
                 <$> seq 0 size).

(** [Pool.__init__] *)
Definition init (nm : string) (sz : nat) (limit : Z)
    (chain : list (option string)) (rp : string) : t :=
  mk (mkState nm sz limit chain rp INITIAL true ∅ [] ∅ [] ∅
        (_add_workers sz) ∅ RoundRobinConnManager.init)
     default_check_reschedule.

(** [self._metadata], the sender metadata of the pool's responses. *)
Definition _metadata (p : t) : Metadata := PoolMeta (runpath (state p)).

(** Modelled from the spec: [Executor.add] of the runner base class stores
    the task in [input[uid]] and appends uid to [ongoing]. *)
Definition Executor_add (tk : Task) (uid : string) (p : t) : t :=
  upd (λ s, set_ongoing (ongoing s ++ [uid])
              (set_input (<[uid := tk]> (_input s)) s)) p.

(** [Pool.add] *)
Definition add (p : t) (obj : Submitted) (uid : string) : t * Outcome unit :=
  match obj with
  | NotTask ty =>
      (p, raise ValueError ("Task was expected, got " +:+ ty +:+ " instead."))
  | IsTask tk =>
      let p := Executor_add tk uid p in
      (upd (λ s, set_unassigned (unassigned s ++ [uid]) s) p, Ok ())
  end.

(** [set_reschedule_check]; [validate_func('pool', 'task_result')] accepts a
    callable whose parameters carry exactly these names. *)
Definition set_reschedule_check (p : t) (argnames : list string)
    (check_reschedule : State → TaskResult → bool) : t * Outcome unit :=
  if decide (argnames = ["pool"; "task_result"]) then
    (mk (state p) check_reschedule, Ok ())
  else (p, raise ValueError "Incorrect arguments")%string.

(** The handlers work on the pool and on the worker object that
    [handle_request] looked up; the worker is stored back into the
    environment when the handler is left. *)
Definition Ctx : Type := t * Worker.t.

Definition store (c : Ctx) : t :=
  upd (λ s, set_workers (<[Worker.index c.2 := c.2]> (_workers s)) s) c.1.

Section Handlers.

(** [str(task)] and [str(pool)], which the formatted reasons embed. *)
Variable str_task : Task → string.
Variable str_pool : State → string.

(** [_discard_task] *)
Definition _discard_task (uid reason : string) (p : t) : t * Outcome unit :=
  match _input (state p) !! uid with
  | None => (p, raise KeyError uid)
  | Some tk =>
      let res := mkTaskResult tk None false
        (Some ("Task discarded by " +:+ str_pool (state p) +:+ " - "
                 +:+ reason +:+ ".")) in
      let p := upd (λ s, set_results (<[uid := res]> (_results s)) s) p in
      match Py.remove uid (ongoing (state p)) with
      | None => (p, raise ValueError "list.remove(x): x not in list")
      | Some rest => (upd (set_ongoing rest) p, Ok ())
      end
  end.

(** The [for _ in range(request.data)] loop of [_handle_taskpull_request],
    with [k] turns left and [tasks] batched so far. *)
Fixpoint pull_loop (k : nat) (tasks : list Task) (c : Ctx)
    : Ctx * Outcome (list Task) :=
  match k with
  | O => (c, Ok tasks)
  | S k' =>
      let '(p, worker) := c in
      match pop0 (unassigned (state p)) with
      | None => (c, Ok tasks)
      | Some (uid, rest) =>
          let p := upd (set_unassigned rest) p in
          let p :=
            match task_assign_cnt (state p) !! uid with
            | None =>
                upd (λ s, set_task_assign_cnt
                            (<[uid := 0]> (task_assign_cnt s)) s) p
            | Some _ => p
            end in
          match task_assign_cnt (state p) !! uid with
          | None => ((p, worker), raise KeyError uid)
          | Some cnt =>
              if decide (cnt >= task_retries_limit (state p)) then
                match _input (state p) !! uid with
                | None => ((p, worker), raise KeyError uid)
                | Some tk =>
                    let reason :=
                      str_task tk +:+ " already reached max retries: "
                        +:+ pretty (task_retries_limit (state p)) in
                    match _discard_task uid reason p with
                    | (p, Ok _) => pull_loop k' tasks (p, worker)
                    | (p, Raise exc) => ((p, worker), Raise exc)
                    end
                end
              else
                let p :=
                  upd (λ s, set_task_assign_cnt
                              (<[uid := cnt + 1]> (task_assign_cnt s)) s) p in
                match _input (state p) !! uid with
                | None => ((p, worker), raise KeyError uid)
                | Some tk =>
                    let worker :=
                      Worker.set_assigned ({[uid]} ∪ Worker.assigned worker)
                        worker in
                    pull_loop k' (tasks ++ [tk]) (p, worker)
                end
          end
      end
  end.

(** [_handle_taskpull_request] *)
Definition _handle_taskpull_request (n : Z) (c : Ctx) : Ctx * Outcome unit :=
  let ack (c : Ctx) : Ctx * Outcome unit :=
    let worker := Worker.set_requesting n c.2 in
    ((c.1, Worker.respond worker (make (_metadata c.1) (Ack None))), Ok ()) in
  if decide (status (state c.1) = STARTED) then
    match pull_loop (Z.to_nat n) [] c with
    | (c, Raise exc) => (c, Raise exc)
    | (c, Ok []) => ack c
    | ((p, worker), Ok tasks) =>
        let worker :=
          Worker.respond worker (make (_metadata p) (TaskSending tasks)) in
        ((p, Worker.set_requesting (n - Z.of_nat (length tasks)) worker),
         Ok ())
    end
  else ack c.

(** Writing a terminal result: [self._results[uid] = task_result] and
    [self.ongoing.remove(uid)] ([_print_test_result] only logs). *)
Definition record_result (uid : string) (task_result : TaskResult) (p : t)
    : t * Outcome unit :=
  let p := upd (λ s, set_results (<[uid := task_result]> (_results s)) s) p in
  match Py.remove uid (ongoing (state p)) with
  | None => (p, raise ValueError "list.remove(x): x not in list")
  | Some rest => (upd (set_ongoing rest) p, Ok ())
  end.

(** The pool as the reschedule predicate sees it while a handler runs:
    with the handler's worker in the environment. *)
Definition view (c : Ctx) : State := state (store c).

(** The first statements of a turn of the loop of [_handle_taskresults],
    once [uid] is known to be assigned: [worker.assigned.remove(uid)], and
    [self._workers_last_result[worker] = time.time()] if the worker has no
    entry there. *)
Definition deassign (now : Time) (uid : string) (c : Ctx) : Ctx :=
  let '(p, worker) := c in
  let worker :=
    Worker.set_assigned (Worker.assigned worker ∖ {[uid]}) worker in
  let p :=
    match _workers_last_result (state p) !! Worker.index worker with
    | None =>
        upd (λ s, set_workers_last_result
                    (<[Worker.index worker := now]>
                       (_workers_last_result s)) s) p
    | Some _ => p
    end in
  (p, worker).

(** One turn of the [for task_result in request.data] loop of
    [_handle_taskresults]. *)
Definition taskresult_step (now : Time) (task_result : TaskResult) (c : Ctx)
    : Ctx * Outcome unit :=
  let uid := task_uid (task task_result) in
  if decide (uid ∈ Worker.assigned c.2) then
    let '(p, worker) := deassign now uid c in
    let record :=
      match record_result uid task_result p with
      | (p, out) => ((p, worker), out)
      end in
    if should_reschedule p (view (p, worker)) task_result then
      match task_assign_cnt (state p) !! uid with
      | None => ((p, worker), raise KeyError uid)
      | Some cnt =>
          if decide (cnt >= task_retries_limit (state p)) then
            match _input (state p) !! uid with
            | None => ((p, worker), raise KeyError uid)
            | Some _ => record
            end
          else
            ((upd (λ s, set_unassigned (unassigned s ++ [uid]) s) p, worker),
             Ok ())
      end
    else record
  else (c, raise KeyError uid).

(** The loop of [_handle_taskresults]; an exception leaves it at once. *)
Fixpoint taskresults_loop (now : Time) (results : list TaskResult) (c : Ctx)
    : Ctx * Outcome unit :=
  match results with
  | [] => (c, Ok ())
  | task_result :: rest =>
      match taskresult_step now task_result c with
      | (c, Ok _) => taskresults_loop now rest c
      | (c, Raise exc) => (c, Raise exc)
      end
  end.

(** [_handle_taskresults] *)
Definition _handle_taskresults (now : Time) (results : list TaskResult)
    (c : Ctx) : Ctx * Outcome unit :=
  match taskresults_loop now results c with
  | ((p, worker), Ok _) =>
      ((p, Worker.respond worker (make (_metadata p) (Ack None))), Ok ())
  | (c, Raise exc) => (c, Raise exc)
  end.

(** [_handle_cfg_request]: the configuration chain is walked from the
    pool's own configuration to the root; a level that cannot be
    denormalized ([None]) is logged and left out. *)
Definition _handle_cfg_request (c : Ctx) : Ctx * Outcome unit :=
  let options := omap id (cfg_chain (state c.1)) in
  ((c.1, Worker.respond c.2 (make (_metadata c.1) (ConfigSending options))),
   Ok ()).

(** [_handle_heartbeat] *)
Definition _handle_heartbeat (now : Time) (c : Ctx) : Ctx * Outcome unit :=
  let worker := Worker.set_last_heartbeat (Some now) c.2 in
  ((c.1, Worker.respond worker (make (_metadata c.1) (Ack (Some now)))),
   Ok ()).

(** The [while worker.assigned] loop of [_deco_worker], over the uids in
    the order [worker.assigned.pop()] yields them. *)
Fixpoint drain_assigned (uids : list string) (c : Ctx) : Ctx * Outcome unit :=
  match uids with
  | [] => (c, Ok ())
  | uid :: rest =>
      let '(p, worker) := c in
      let worker :=
        Worker.set_assigned (Worker.assigned worker ∖ {[uid]}) worker in
      match _input (state p) !! uid with
      | None => ((p, worker), raise KeyError uid)
      | Some _ =>
          drain_assigned rest
            (upd (λ s, set_unassigned (unassigned s ++ [uid]) s) p, worker)
      end
  end.

(** [_deco_worker] *)
Definition _deco_worker (c : Ctx) : Ctx * Outcome unit :=
  match drain_assigned (elements (Worker.assigned c.2)) c with
  | ((p, worker), Ok _) => ((p, Worker.abort worker), Ok ())
  | (c, Raise exc) => (c, Raise exc)
  end.

(** [_handle_setupfailed] *)
Definition _handle_setupfailed (c : Ctx) : Ctx * Outcome unit :=
  _deco_worker (c.1, Worker.respond c.2 (make (_metadata c.1) (Ack None))).

(** [handle_request]; [now] is the clock when the request is taken up and
    [now'] the clock inside the handler. *)
Definition handle_request (now now' : Time) (request : Message) (p : t)
    : t * Outcome unit :=
  match sender_metadata request with
  | PoolMeta _ => (p, raise KeyError "index")
  | WorkerMeta sender_index =>
      match _workers (state p) !! sender_index with
      | None => (p, raise KeyError sender_index)
      | Some worker =>
          if negb (Worker.active worker) then
            (store (p, Worker.respond worker (make (_metadata p) (Ack None))),
             Ok ())
          else
            let worker := Worker.set_last_heartbeat (Some now) worker in
            let '(c, out) :=
              if negb (active (state p))
                 || bool_decide (status (state p) = STOPPING) then
                ((p, Worker.respond worker (make (_metadata p) Stop)), Ok ())
              else
                match body request with
                | ConfigRequest => _handle_cfg_request (p, worker)
                | TaskPullRequest n => _handle_taskpull_request n (p, worker)
                | TaskResults results =>
                    _handle_taskresults now' results (p, worker)
                | Heartbeat _ => _handle_heartbeat now' (p, worker)
                | SetupFailed _ => _handle_setupfailed (p, worker)
                | _ =>
                    ((p, Worker.respond worker (make (_metadata p) (Ack None))),
                     Ok ())
                end in
            (store c, out)
      end
  end.

(** [_loop_process_work]: the result says whether the main loop goes on.
    An [Exception] out of [handle_request] is logged and dropped.
    [self.status.change] belongs to the entity framework; it is modelled
    as the transition it makes when [curr_status] is the pool's own status,
    which is how [_loop] calls this function
    ([self._loop_process_work(self.status.tag)]). *)
Definition _loop_process_work (now now' : Time) (curr_status : Status)
    (p : t) : t * Outcome bool :=
  match curr_status with
  | STARTING => (upd (set_status STARTED) p, Ok true)
  | STOPPING => (upd (set_status STOPPED) p, Ok false)
  | STARTED =>
      let '(msg, env, conn) :=
        RoundRobinConnManager.accept (_workers (state p)) (_conn (state p)) in
      let p := upd (λ s, set_conn conn (set_workers env s)) p in
      match msg with
      | None => (p, Ok true)
      | Some msg =>
          let '(p, out) := handle_request now now' msg p in
          (p, try_except_else out is_Exception (λ _, Ok true) (λ _, Ok true))
      end
  | _ => (p, raise RuntimeError "Pool in unexpected state")
  end.

(** The handler [handle_request] picks for a request's command, from
    [self._request_handlers], with the [Ack] it sends for any other. *)
Definition route (now : Time) (b : Body) (c : Ctx) : Ctx * Outcome unit :=
  match b with
  | ConfigRequest => _handle_cfg_request c
  | TaskPullRequest n => _handle_taskpull_request n c
  | TaskResults results => _handle_taskresults now results c
  | Heartbeat _ => _handle_heartbeat now c
  | SetupFailed _ => _handle_setupfailed c
  | _ => ((c.1, Worker.respond c.2 (make (_metadata c.1) (Ack None))), Ok ())
  end.


(** The [while self.ongoing] loop of [_discard_pending_tasks], on the uids
    still in [ongoing]. *)
Fixpoint discard_pending (uids : list string) (p : t) : t * Outcome unit :=
  match uids with
  | [] => (p, Ok ())
  | uid :: rest =>
      match _input (state p) !! uid with
      | None => (p, raise KeyError uid)
      | Some tk =>
          let res := mkTaskResult tk None false
            (Some ("Task [" +:+ task_target tk +:+ "] discarding due to "
                     +:+ str_pool (state p) +:+ " abort.")) in
          let p := upd (λ s, set_results (<[uid := res]> (_results s)) s) p in
          discard_pending rest (upd (set_ongoing rest) p)
      end
  end.

(** [_discard_pending_tasks] *)
Definition _discard_pending_tasks (p : t) : t * Outcome unit :=
  discard_pending (ongoing (state p)) p.

(** [aborting]: every worker is aborted, then the pending tasks are
    discarded (the connection manager has no abort action).  Modelled from
    the spec: [abort()] of the entity framework leaves the pool not
    active. *)
Definition abort (p : t) : t * Outcome unit :=
  let p := upd (set_active false) p in
  let p := upd (λ s, set_workers (Worker.abort <$> _workers s) s) p in
  _discard_pending_tasks p.

(** The roster in the order the environment lists its workers. *)
Definition worker_keys (p : t) : list string :=
  (λ i : nat, pretty i) <$> seq 0 (size (state p)).

(** [conn.register(worker)] for each worker of the environment.  The
    manager is updated in place: when a [register] raises, the workers
    registered before it stay on the roster. *)
Fixpoint register_all (ws : list string) (conn : RoundRobinConnManager.t)
    : RoundRobinConnManager.t * Outcome unit :=
  match ws with
  | [] => (conn, Ok ())
  | w :: rest =>
      match RoundRobinConnManager.register conn w with
      | Ok conn => register_all rest conn
      | Raise exc => (conn, Raise exc)
      end
  end.

(** [starting].  Modelled from the spec: the entity framework then moves
    the status to STARTING. *)
Definition start (p : t) : t * Outcome unit :=
  let conn := RoundRobinConnManager.starting (_conn (state p)) in
  match register_all (worker_keys p) conn with
  | (conn, Raise exc) => (upd (set_conn conn) p, Raise exc)
  | (conn, Ok _) =>
      (upd (λ s, set_status STARTING (set_conn conn s)) p, Ok ())
  end.

(** [Worker.stopping] clears [transport.active]. *)
Definition stop_worker (w : Worker.t) : Worker.t :=
  Worker.set_transport (Transport.set_active false (Worker.transport w)) w.

(** [stopping]: the workers are stopped, then the connection manager.
    Modelled from the spec: the status moves to STOPPING. *)
Definition stop (p : t) : t :=
  upd (λ s, set_status STOPPING
              (set_conn (RoundRobinConnManager.stopping (_conn s))
                 (set_workers (stop_worker <$> _workers s) s))) p.

(** What can happen to the pool between two observations, short of
    installing another reschedule predicate: a call of its public surface,
    one turn of the dispatcher loop, a worker using its end of the
    transport, or the monitor decommissioning a worker. *)
Inductive internal_step (p : t) : t → Prop :=
| step_add obj uid :
    internal_step p (add p obj uid).1
| step_start :
    internal_step p (start p).1
| step_stop :
    internal_step p (stop p)
| step_abort :
    internal_step p (abort p).1
| step_loop now now' :
    internal_step p (_loop_process_work now now' (status (state p)) p).1
| step_worker_send w wk msg :
    _workers (state p) !! w = Some wk →
    internal_step p
      (store (p, Worker.set_transport
                   (Transport.send (Worker.transport wk) msg) wk))
| step_worker_receive w wk fuel :
    _workers (state p) !! w = Some wk →
    internal_step p
      (store (p, Worker.set_transport
                   (Transport.receive fuel (Worker.transport wk)).2 wk))
| step_monitor_deco w wk :
    _workers (state p) !! w = Some wk →
    internal_step p (store (_deco_worker (p, wk)).1).

(** Every step of the pool, [set_reschedule_check] included. *)
Inductive step (p : t) : t → Prop :=
| step_internal p' :
    internal_step p p' → step p p'
| step_set_reschedule_check argnames check :
    step p (set_reschedule_check p argnames check).1.

(** The states the pool can be in, from [p0] onwards. *)
Definition reachable (p0 p : t) : Prop := rtc step p0 p.

End Handlers.

(** A queue the dispatch loop gets through without an exception: no uid
    twice, and every uid submitted and still ongoing. *)
Definition dispatchable (p : t) : Prop :=
  NoDup (unassigned (state p)) ∧
  ∀ uid, uid ∈ unassigned (state p) →
         uid ∈ ongoing (state p) ∧ is_Some (_input (state p) !! uid).

(** The parts of the pool no handler writes: the reschedule predicate, the
    retry limit and the runpath of the metadata. *)
Definition same_config (p p' : t) : Prop :=
  should_reschedule p' = should_reschedule p ∧
  task_retries_limit (state p') = task_retries_limit (state p) ∧
  runpath (state p') = runpath (state p).

(** The parts of a worker the dispatcher's bookkeeping leaves alone: its
    index and its transport. *)
Definition same_channel (w w' : Worker.t) : Prop :=
  Worker.index w' = Worker.index w ∧
  Worker.transport w' = Worker.transport w.

(** The bound of the retry policy: no assign count above the limit. *)
Definition cnt_bounded (p : t) : Prop :=
  ∀ uid cnt, task_assign_cnt (state p) !! uid = Some cnt →
             cnt <= task_retries_limit (state p).

(** [keeps p p']: the configuration is the same and the bound on the
    assign counts, if it held with a limit that is not negative, still
    holds. *)
Definition keeps (p p' : t) : Prop :=
  same_config p p' ∧
  (0 <= task_retries_limit (state p) → cnt_bounded p → cnt_bounded p').

(** What no handler writes while it runs on a worker: the lifecycle flags,
    the submitted tasks, the environment and the connection manager of the
    pool, and the index and the request buffer of the worker. *)
Definition handler_frame (c c' : Ctx) : Prop :=
  status (state c'.1) = status (state c.1) ∧
  active (state c'.1) = active (state c.1) ∧
  _input (state c'.1) = _input (state c.1) ∧
  _workers (state c'.1) = _workers (state c.1) ∧
  _conn (state c'.1) = _conn (state c.1) ∧
  Worker.index c'.2 = Worker.index c.2 ∧
  Transport.requests (Worker.transport c'.2)
    = Transport.requests (Worker.transport c.2).

(** What the dispatch, results and decommission loops leave alone on the
    worker: all but its set of assigned uids. *)
Definition assigned_only (w w' : Worker.t) : Prop :=
  Worker.index w' = Worker.index w ∧
  Worker.transport w' = Worker.transport w ∧
  Worker.requesting w' = Worker.requesting w ∧
  Worker.last_heartbeat w' = Worker.last_heartbeat w ∧
  Worker.active w' = Worker.active w.

(** The exceptions a handler lets out: a missing key or a missing list
    item. *)
Definition lookup_error (exc : Exc) : Prop :=
  exc_class exc = KeyError ∨ exc_class exc = ValueError.

(** The environment is keyed by worker index. *)
Definition env_keyed (env : Environment) : Prop :=
  ∀ w wk, env !! w = Some wk → Worker.index wk = w.

(** Nothing is queued, ongoing, recorded or in flight that was not
    submitted. *)
Definition submitted_only (p : t) : Prop :=
  (∀ uid, uid ∈ unassigned (state p) → is_Some (_input (state p) !! uid)) ∧
  (∀ uid, uid ∈ ongoing (state p) → is_Some (_input (state p) !! uid)) ∧
  (∀ uid, is_Some (_results (state p) !! uid) →
          is_Some (_input (state p) !! uid)) ∧
  (∀ w wk uid, _workers (state p) !! w = Some wk →
               uid ∈ Worker.assigned wk →
               is_Some (_input (state p) !! uid)).

(** The same of a handler's context: the worker in hand included. *)
Definition submitted_ctx (c : Ctx) : Prop :=
  submitted_only c.1 ∧
  ∀ uid, uid ∈ Worker.assigned c.2 → is_Some (_input (state c.1) !! uid).

End Pool.

(** ** Example data *)

Module Scenario.


(** A task whose callable target is interrupted from the keyboard, and one
    whose target returns 42. *)
Definition interrupted_task : Task :=
  mkTask "t1" "target"
    (Ok (TCallable (Raise (mkExc KeyboardInterrupt "" ["frame"])))).
Definition answer_task : Task :=
  mkTask "t2" "target" (Ok (TCallable (Ok (Some 42)))).

(** Renderings used where a reason is formatted. *)
Definition str_task (tk : Task) : string := task_uid tk.
Definition str_pool (s : Pool.State) : string := Pool.name s.
Definition format_trace (trace : list string) (exc : Exc) : string :=
  exc_msg exc.

(** A task "a", the worker "0" of a pool of size one, and that worker's
    request for one task. *)
Definition task_a : Task :=
  mkTask "a" "target" (Ok (TCallable (Ok (Some 42)))).
Definition worker_0 : Worker.t := Worker.init "0".
Definition pull_one : Message := make (WorkerMeta "0") (TaskPullRequest 1).

(** A run of a pool with one worker and retry limit [limit]: task "a" is
    submitted, the pool is started, the loop moves it to STARTED, the
    worker asks for a task, and the loop takes the request up. *)
Definition built (limit : Z) : Pool.t :=
  Pool.init "pool" 1 limit [] "runpath".
Definition submitted (limit : Z) : Pool.t :=
  (Pool.add (built limit) (IsTask task_a) "a").1.
Definition starting (limit : Z) : Pool.t :=
  (Pool.start (submitted limit)).1.
Definition started (limit : Z) : Pool.t :=
  (Pool._loop_process_work str_task str_pool 0 0
     (Pool.status (Pool.state (starting limit))) (starting limit)).1.
Definition requested (limit : Z) : Pool.t :=
  Pool.store (started limit,
              Worker.set_transport
                (Transport.send (Worker.transport worker_0) pull_one)
                worker_0).
Definition dispatched (limit : Z) : Pool.t :=
  (Pool._loop_process_work str_task str_pool 1 1
     (Pool.status (Pool.state (requested limit))) (requested limit)).1.

(** A second task, a result for each, and worker "0" holding both uids in
    a pool to which both were submitted. *)
Definition task_b : Task :=
  mkTask "b" "target" (Ok (TCallable (Ok (Some 7)))).
Definition result_a : TaskResult := mkTaskResult task_a (Some 42) true None.
Definition result_b : TaskResult := mkTaskResult task_b (Some 7) true None.
Definition two_submitted : Pool.t :=
  (Pool.add (submitted 3) (IsTask task_b) "b").1.
Definition worker_busy : Worker.t :=
  Worker.set_assigned ({["a"]} ∪ ({["b"]} ∪ ∅)) worker_0.

(** A roster of three workers with the cursor where [__init__] puts it. *)
Definition roster : RoundRobinConnManager.t :=
  RoundRobinConnManager.mk STARTED ["0"; "1"; "2"] 1.

(** The pool of the two submitted tasks once each has been assigned once,
    with a reschedule check installed that asks for task "a" again. *)
Definition retry_a (pool : Pool.State) (task_result : TaskResult) : bool :=
  bool_decide (task_uid (task task_result) = "a").
Definition rescheduling : Pool.t :=
  (Pool.set_reschedule_check
     (Pool.upd (Pool.set_task_assign_cnt (<["a" := 1]> (<["b" := 1]> ∅)))
        two_submitted)
     ["pool"; "task_result"] retry_a).1.

(** The started pool with task "a" in the hands of worker "0", and that
    worker's report of a failed setup. *)
Definition holding_a : Pool.t :=
  Pool.store (started 3, Worker.set_assigned {["a"]} worker_0).
Definition setup_failed : Message :=
  make (WorkerMeta "0") (SetupFailed "setup error").


End Scenario.

(** * Properties *)

(** ** Python list primitives *)

Lemma pop_snoc {A} (l : list A) (x : A) : pop (l ++ [x]) = Some (x, l).
Proof.
  induction l as [|y l IH]; simpl; [done|].
  by rewrite IH.
Qed.

Lemma pop_nil_inv {A} (l : list A) : pop l = None → l = [].
Proof.
  destruct l as [|x l]; simpl; [done|].
  by destruct (pop l) as [[??]|].
Qed.

Lemma pop_Some_inv {A} (l r : list A) (x : A) :
  pop l = Some (x, r) → l = r ++ [x].
Proof.
  revert r. induction l as [|y l IH]; intros r; simpl; [done|].
  destruct (pop l) as [[z r']|] eqn:Hp.
  - intros [= <- <-]. by rewrite (IH r' eq_refl).
  - intros [= <- <-]. by rewrite (pop_nil_inv _ Hp).
Qed.

Lemma remove_elem_of `{EqDecision A} (x : A) (l : list A) :
  x ∈ l → is_Some (Py.remove x l).
Proof.
  induction l as [|y l IH]; [by intros ?%elem_of_nil|].
  intros Hin. simpl. destruct (decide (x = y)); [by eexists|].
  apply elem_of_cons in Hin as [?|Hin]; [done|].
  destruct (IH Hin) as [r ->]. by eexists.
Qed.

Lemma remove_Some_elem_of `{EqDecision A} (x : A) (l r : list A) :
  Py.remove x l = Some r → x ∈ l.
Proof.
  revert r. induction l as [|y l IH]; intros r; simpl; [done|].
  destruct (decide (x = y)) as [->|]; [intros _; apply list_elem_of_here|].
  destruct (Py.remove x l) eqn:Hr; [|done].
  intros _. apply list_elem_of_further. by eapply IH.
Qed.

Lemma remove_Some_length `{EqDecision A} (x : A) (l r : list A) :
  Py.remove x l = Some r → length l = S (length r).
Proof.
  revert r. induction l as [|y l IH]; intros r; simpl; [done|].
  destruct (decide (x = y)); [by intros [= ->]|].
  destruct (Py.remove x l) eqn:Hr; [|done].
  intros [= <-]. simpl. by rewrite (IH _ eq_refl).
Qed.

Lemma remove_other `{EqDecision A} (x y : A) (l r : list A) :
  Py.remove x l = Some r → y ≠ x → y ∈ l → y ∈ r.
Proof.
  revert r. induction l as [|z l IH]; intros r; simpl; [done|].
  destruct (decide (x = z)) as [->|].
  - intros [= <-] ? [?|?]%elem_of_cons; done.
  - destruct (Py.remove x l) eqn:Hr; [|done].
    intros [= <-] ? [->|?]%elem_of_cons; [apply list_elem_of_here|].
    apply list_elem_of_further. by apply IH.
Qed.

Lemma remove_Permutation `{EqDecision A} (x : A) (l r : list A) :
  Py.remove x l = Some r → l ≡ₚ x :: r.
Proof.
  revert r. induction l as [|y l IH]; intros r; simpl; [done|].
  destruct (decide (x = y)) as [->|]; [by intros [= ->]|].
  destruct (Py.remove x l) eqn:Hr; [|done].
  intros [= <-]. rewrite (IH _ eq_refl). apply Permutation_swap.
Qed.

(** ** Transport *)

(** C2, as the code has it.  The response buffer is a stack: of two
    responses that are both pending on an active transport, [receive] hands
    out the later one first and the earlier one second; a single pending
    response is handed out as it is. *)
Theorem Transport_receive_lifo (reqs resps : list Message) (m1 m2 : Message)
    (fuel fuel' : nat) :
  let tr := Transport.mk reqs resps true in
  let tr1 := Transport.respond tr m1 in
  let tr2 := Transport.respond tr1 m2 in
  Transport.receive (S fuel) tr2 = (Transport.Got m2, tr1) ∧
  Transport.receive (S fuel') tr1 = (Transport.Got m1, tr).
Proof.
  simpl. unfold Transport.respond, Transport.set_responses. simpl.
  by rewrite !pop_snoc.
Qed.

(** C2 fails as stated: after [respond(Ack)] and then [respond(Stop)] on a
    fresh transport the worker's first [receive] returns [Stop], the second
    [Ack]. *)
Lemma Transport_receive_not_fifo :
  let m1 := make (PoolMeta "runpath") (Ack None) in
  let m2 := make (PoolMeta "runpath") Stop in
  let tr2 := Transport.respond (Transport.respond Transport.init m1) m2 in
  (Transport.receive 1 tr2).1 = Transport.Got m2 ∧
  (Transport.receive 1 (Transport.receive 1 tr2).2).1 = Transport.Got m1 ∧
  (Transport.receive 1 tr2).1 ≠ Transport.Got m1.
Proof. by repeat split. Qed.

(** An inactive transport gives [receive] no message, whatever is pending
    and whatever the fuel. *)
Lemma Transport_receive_inactive (reqs resps : list Message) (fuel : nat) :
  let tr := Transport.mk reqs resps false in
  Transport.receive (S fuel) tr = (Transport.NoMessage, tr).
Proof. done. Qed.

(** C8, as the code has it.  [Transport.accept] does not block and never
    returns [None]: with a request pending it returns the one sent last and
    takes it off the buffer; with none pending it raises [IndexError]. *)
Theorem Transport_accept_pops_or_raises (reqs resps : list Message)
    (m : Message) (act : bool) :
  Transport.accept (Transport.mk (reqs ++ [m]) resps act)
    = Ok (m, Transport.mk reqs resps act) ∧
  Transport.accept (Transport.mk [] resps act)
    = Raise (mkExc IndexError "pop from empty list" []).
Proof.
  unfold Transport.accept. simpl. by rewrite pop_snoc.
Qed.

(** C8 fails as stated: on a fresh transport, with no request pending,
    [accept] raises [IndexError]; it does not return. *)
Lemma Transport_accept_empty_raises :
  Transport.accept Transport.init
    = Raise (mkExc IndexError "pop from empty list" []) ∧
  ¬ ∃ r, Transport.accept Transport.init = Ok r.
Proof. split; [done|]. by intros [r ?]. Qed.

(** ** Worker *)

(** C3.  [execute] always returns a task result.  When materializing the
    task or invoking the target raises, whatever the class of the
    exception, the result has [status = False] and the formatted trace as
    reason; otherwise it has [status = True] and carries what the
    invocation returned. *)
Theorem Worker_execute_contains_exceptions
    (format_trace : list string → Exc → string) (self : Worker.t)
    (tk : Task) :
  (∃ r, Worker.execute format_trace self tk = Ok r) ∧
  (∀ exc,
     materialize tk = Raise exc ∨
     (∃ target, materialize tk = Ok target ∧
                Worker.invoke self target = Raise exc) →
     Worker.execute format_trace self tk
       = Ok (mkTaskResult tk None false
               (Some (format_trace (exc_trace exc) exc)))) ∧
  (∀ target res,
     materialize tk = Ok target →
     Worker.invoke self target = Ok res →
     Worker.execute format_trace self tk = Ok (mkTaskResult tk res true None)).
Proof.
  unfold Worker.execute, try_except_else, BaseException.
  split_and!.
  - destruct (materialize tk) as [target|exc]; [|by eexists].
    destruct (Worker.invoke self target); by eexists.
  - intros exc [->|(target & -> & ->)]; done.
  - by intros target res -> ->.
Qed.

Lemma Worker_execute_contains_exceptions_witness :
  let fmt := λ (tr : list string) (exc : Exc), exc_msg exc in
  Worker.execute fmt (Worker.init "0") Scenario.interrupted_task
    = Ok (mkTaskResult Scenario.interrupted_task None false (Some "")) ∧
  Worker.execute fmt (Worker.init "0") Scenario.answer_task
    = Ok (mkTaskResult Scenario.answer_task (Some 42) true None).
Proof.
  intros fmt. split.
  - apply (proj1 (proj2 (Worker_execute_contains_exceptions
                           fmt (Worker.init "0") Scenario.interrupted_task))
             (mkExc KeyboardInterrupt "" ["frame"])).
    right. eexists. split; reflexivity.
  - apply (proj2 (proj2 (Worker_execute_contains_exceptions
                           fmt (Worker.init "0") Scenario.answer_task))
             (TCallable (Ok (Some 42))) (Some 42)); reflexivity.
Defined.

(** ** Round-robin connection manager *)

Section RoundRobin.

Import RoundRobinConnManager.

Implicit Types (env : Environment) (c : RoundRobinConnManager.t).

(** With a roster of [n > 0] workers, [workers[(cursor mod n) - 1]] is the
    entry at position [(cursor - 1) mod n], counted from the front. *)
Lemma index_round_robin {A} (ws : list A) (cur : Z) :
  ws ≠ [] →
  Py.index ws (cur `mod` Z.of_nat (length ws) - 1)
    = ws !! Z.to_nat ((cur - 1) `mod` Z.of_nat (length ws)).
Proof.
  intros Hne.
  assert (0 < Z.of_nat (length ws)) as Hn by (destruct ws; [done|simpl; lia]).
  pose proof (Z.mod_pos_bound cur _ Hn) as Hb.
  unfold Py.index.
  assert (∀ q r, cur - 1 = Z.of_nat (length ws) * q + r →
                 0 <= r < Z.of_nat (length ws) →
                 (cur - 1) `mod` Z.of_nat (length ws) = r) as Huniq.
  { intros q r ??. symmetry. by apply (Z.mod_unique_pos _ _ q). }
  pose proof (Z.div_mod cur (Z.of_nat (length ws))) as Hdm.
  repeat case_decide; try lia.
  - do 2 f_equal. symmetry.
    apply (Huniq (cur `div` Z.of_nat (length ws))); lia.
  - do 2 f_equal. symmetry.
    apply (Huniq (cur `div` Z.of_nat (length ws) - 1)); lia.
Qed.

Lemma polled_lookup c :
  _workers c ≠ [] →
  polled c = _workers c !!
    Z.to_nat ((_current c - 1) `mod` Z.of_nat (length (_workers c))).
Proof. intros ?. by apply index_round_robin. Qed.

Lemma polled_is_Some c : _workers c ≠ [] → is_Some (polled c).
Proof.
  intros Hne. rewrite polled_lookup by done.
  apply lookup_lt_is_Some.
  assert (0 < Z.of_nat (length (_workers c)))
    by (destruct (_workers c); [done|simpl; lia]).
  pose proof (Z.mod_pos_bound (_current c - 1) _ H). lia.
Qed.

(** The manager after [accept]: untouched on an empty roster, otherwise the
    same roster with the cursor one further. *)
Lemma accept_manager env c :
  (accept env c).2 =
    match _workers c with
    | [] => c
    | _ :: _ => set_current (_current c + 1) c
    end.
Proof.
  unfold accept. destruct (_workers c); [done|].
  by destruct (try_accept env c) as [[??]|].
Qed.

Lemma accept_trace_lookup (n : nat) env c :
  _workers c ≠ [] →
  accept_trace n env c =
    (λ i : nat, _workers c !!
       Z.to_nat ((_current c - 1 + Z.of_nat i)
                   `mod` Z.of_nat (length (_workers c)))) <$> seq 0 n.
Proof.
  revert env c. induction n as [|n IH]; intros env c Hne; [done|].
  simpl. pose proof (accept_manager env c) as Hc.
  destruct (accept env c) as [[msg env'] c']. simpl in Hc. subst c'.
  destruct (_workers c) as [|w ws] eqn:Hws; [done|].
  rewrite IH by (simpl; by rewrite Hws).
  simpl. rewrite Hws. f_equal.
  - rewrite polled_lookup by (by rewrite Hws). rewrite Hws.
    do 2 f_equal. f_equal. lia.
  - rewrite <-fmap_S_seq, <-list_fmap_compose.
    apply list_fmap_ext. intros _ i _. simpl. do 2 f_equal. f_equal. lia.
Qed.

Lemma rotate_Permutation {A} (k : nat) (l : list A) : rotate k l ≡ₚ l.
Proof.
  unfold rotate. rewrite Permutation_app_comm. by rewrite take_drop.
Qed.

(** Over as many calls as there are workers, the workers polled are the
    roster, rotated. *)
Lemma accept_trace_rotate env c :
  _workers c ≠ [] →
  accept_trace (length (_workers c)) env c =
    Some <$> rotate
      (Z.to_nat ((_current c - 1) `mod` Z.of_nat (length (_workers c))))
      (_workers c).
Proof.
  intros Hne. rewrite accept_trace_lookup by done.
  set (ws := _workers c) in *. set (cur := _current c).
  assert (0 < Z.of_nat (length ws)) as Hn by (destruct ws; [done|simpl; lia]).
  apply list_eq. intros i.
  rewrite !list_lookup_fmap.
  destruct (decide (i < length ws)%nat) as [Hi|Hi].
  - rewrite lookup_seq_lt by done. simpl.
    rewrite lookup_rotate_r by done.
    unfold rotate_nat_add.
    rewrite Z2Nat.id by (apply Z.mod_pos_bound; lia).
    rewrite Zplus_mod_idemp_l.
    pose proof (Z.mod_pos_bound (cur - 1 + Z.of_nat i) _ Hn).
    destruct (lookup_lt_is_Some_2 ws
                (Z.to_nat ((cur - 1 + Z.of_nat i) `mod` Z.of_nat (length ws))))
      as [x Hx]; [lia|].
    by rewrite Hx.
  - rewrite lookup_seq_ge by lia. simpl.
    rewrite (lookup_ge_None_2 (rotate _ _)); [done|].
    rewrite length_rotate. lia.
Qed.

(** C6.  With no worker registered [accept] returns [None] and changes
    nothing.  With [n > 0] workers it polls [workers[(cursor mod n) - 1]],
    which always exists: it returns the request that worker's transport
    accepts, or [None] when that transport has none; the roster is kept and
    the cursor advances by exactly one either way; and over [n] calls in a
    row every worker of the roster is polled exactly once. *)
Theorem RoundRobin_accept_polls_each_once env c :
  (_workers c = [] → accept env c = (None, env, c)) ∧
  (_workers c ≠ [] →
   ∃ w,
     Py.index (_workers c)
       (_current c `mod` Z.of_nat (length (_workers c)) - 1) = Some w ∧
     (∀ wk, env !! w = Some wk →
        (accept env c).1 =
          match Transport.accept (Worker.transport wk) with
          | Ok (m, tr) => (Some m, <[w := Worker.set_transport tr wk]> env)
          | Raise _ => (None, env)
          end) ∧
     _workers (accept env c).2 = _workers c ∧
     _current (accept env c).2 = _current c + 1 ∧
     accept_trace (length (_workers c)) env c ≡ₚ Some <$> _workers c).
Proof.
  split.
  - intros Hnil. unfold accept. by rewrite Hnil.
  - intros Hne. destruct (polled_is_Some c Hne) as [w Hw].
    exists w. split_and!.
    + exact Hw.
    + intros wk Hwk. unfold accept, try_accept.
      destruct (_workers c) eqn:Hws; [done|].
      rewrite Hw, Hwk.
      by destruct (Transport.accept (Worker.transport wk)) as [[??]|].
    + rewrite accept_manager. by destruct (_workers c) eqn:Hws.
    + rewrite accept_manager. by destruct (_workers c) eqn:Hws.
    + rewrite accept_trace_rotate by done.
      by rewrite rotate_Permutation.
Qed.

End RoundRobin.

(** ** Pool: submission *)

(** C7.  [add] of an object that is not a [Task] is refused with an error
    and leaves the pool as it was, whatever the pool and the uid; the
    exception class the code uses for this kind of error is [ValueError].
    [add] of a [Task] stores it under [uid] in the input and appends [uid]
    to [ongoing] and to [unassigned], touching nothing else that the
    dispatcher reads. *)
Theorem Pool_add_validates_task (p : Pool.t) (uid : string) :
  (∀ type_name, ∃ exc,
     Pool.add p (NotTask type_name) uid = (p, Raise exc) ∧
     exc_class exc = ValueError) ∧
  (∀ tk,
     let r := Pool.add p (IsTask tk) uid in
     r.2 = Ok () ∧
     Pool._input (Pool.state r.1) = <[uid := tk]> (Pool._input (Pool.state p)) ∧
     Pool.ongoing (Pool.state r.1) = Pool.ongoing (Pool.state p) ++ [uid] ∧
     Pool.unassigned (Pool.state r.1)
       = Pool.unassigned (Pool.state p) ++ [uid] ∧
     Pool._results (Pool.state r.1) = Pool._results (Pool.state p) ∧
     Pool.task_assign_cnt (Pool.state r.1)
       = Pool.task_assign_cnt (Pool.state p)).
Proof.
  split.
  - intros type_name. by eexists.
  - by intros tk.
Qed.

(** ** Pool: the TaskResults handler *)

Section ResultsFacts.

Import Pool.

Implicit Types (p : Pool.t) (worker : Worker.t) (c : Pool.Ctx).


Lemma snoc_neq {A} (l : list A) (x : A) : l ++ [x] ≠ l.
Proof.
  intros Heq. apply (f_equal length) in Heq.
  rewrite length_app in Heq. simpl in Heq. lia.
Qed.

(** [deassign] only takes [uid] off the worker and, at most, notes the
    clock for a worker without entry. *)
Lemma deassign_frame (now : Time) (uid : string) c :
  let c1 := deassign now uid c in
  Worker.assigned c1.2 = Worker.assigned c.2 ∖ {[uid]} ∧
  Worker.transport c1.2 = Worker.transport c.2 ∧
  Worker.index c1.2 = Worker.index c.2 ∧
  should_reschedule c1.1 = should_reschedule c.1 ∧
  set_workers_last_result (_workers_last_result (state c.1)) (state c1.1)
    = state c.1.
Proof.
  destruct c as [[s f] worker]. unfold deassign. simpl.
  destruct (_workers_last_result s !! Worker.index worker); simpl;
    by destruct s.
Qed.

Lemma taskresult_step_spec (now : Time) (r : TaskResult) p worker :
  let uid := task_uid (task r) in
  let resched :=
    should_reschedule p (view (deassign now uid (p, worker))) r in
  let limit := task_retries_limit (state p) in
  (uid ∈ Worker.assigned worker → uid ∈ ongoing (state p) →
   is_Some (task_assign_cnt (state p) !! uid) →
   is_Some (_input (state p) !! uid) →
   (taskresult_step now r (p, worker)).2 = Ok ()) ∧
  (∀ p' worker',
     taskresult_step now r (p, worker) = ((p', worker'), Ok ()) →
     Worker.assigned worker' = Worker.assigned worker ∖ {[uid]} ∧
     ((resched = true ∧
       ∃ cnt, task_assign_cnt (state p) !! uid = Some cnt ∧ cnt < limit)
      ↔ unassigned (state p') = unassigned (state p) ++ [uid]) ∧
     (unassigned (state p') = unassigned (state p) ++ [uid] →
      _results (state p') = _results (state p) ∧
      ongoing (state p') = ongoing (state p)) ∧
     (unassigned (state p') ≠ unassigned (state p) ++ [uid] →
      unassigned (state p') = unassigned (state p) ∧
      _results (state p') = <[uid := r]> (_results (state p)) ∧
      Py.remove uid (ongoing (state p)) = Some (ongoing (state p')))).
Proof.
  intros uid resched limit. subst resched limit.
  unfold Pool.taskresult_step. fold uid. cbn [fst snd].
  destruct (deassign_frame now uid (p, worker)) as (Has & _ & _ & Hsr & Hst).
  destruct (deassign now uid (p, worker)) as [p1 w1] eqn:Hde.
  simpl in Has, Hsr, Hst. cbv zeta. rewrite Hsr.
  assert (task_assign_cnt (state p1) = task_assign_cnt (state p) ∧
          task_retries_limit (state p1) = task_retries_limit (state p) ∧
          _input (state p1) = _input (state p) ∧
          ongoing (state p1) = ongoing (state p) ∧
          unassigned (state p1) = unassigned (state p) ∧
          _results (state p1) = _results (state p))
    as (Hc & Hl & Hi & Ho & Hu & Hr) by (by rewrite <-Hst).
  unfold record_result. simpl. rewrite ?Hc, ?Hl, ?Hi, ?Ho, ?Hu, ?Hr.
  split.
  - intros Hin Hon [cnt Hcnt] [tk Htk].
    destruct (remove_elem_of uid _ Hon) as [rest Hrest].
    rewrite decide_True by done. rewrite Hcnt, Htk, Hrest.
    by repeat case_match.
  - intros p' worker'. case_decide; [|done].
    pose proof (snoc_neq (unassigned (state p)) uid) as Hneq.
    repeat case_match; intros; simplify_eq; simpl.
    all: rewrite ?Hu, ?Hr, ?Ho.
    all: split_and!; try done; try naive_solver lia.
Qed.


Lemma same_config_refl p : same_config p p.
Proof. done. Qed.

Lemma same_config_trans p1 p2 p3 :
  same_config p1 p2 → same_config p2 p3 → same_config p1 p3.
Proof. intros (? & ? & ?) (? & ? & ?). split_and!; congruence. Qed.

Lemma same_config_upd (f : State → State) p :
  task_retries_limit (f (state p)) = task_retries_limit (state p) →
  runpath (f (state p)) = runpath (state p) →
  same_config p (upd f p).
Proof. by intros ??. Qed.

(** One turn of the results loop keeps the configuration, the assign
    counts and the worker's channel, whether it raises or not. *)
Lemma taskresult_step_frame (now : Time) (r : TaskResult) c :
  let c' := (taskresult_step now r c).1 in
  same_config c.1 c'.1 ∧ same_channel c.2 c'.2 ∧
  task_assign_cnt (state c'.1) = task_assign_cnt (state c.1).
Proof.
  destruct c as [[s f] worker].
  unfold Pool.taskresult_step, deassign, record_result. simpl.
  repeat case_match; simplify_eq; simpl; done.
Qed.

Lemma taskresults_loop_frame (now : Time) (results : list TaskResult) c :
  let c' := (taskresults_loop now results c).1 in
  same_config c.1 c'.1 ∧ same_channel c.2 c'.2 ∧
  task_assign_cnt (state c'.1) = task_assign_cnt (state c.1).
Proof.
  revert c. induction results as [|r results IH]; intros c; [done|].
  simpl. pose proof (taskresult_step_frame now r c) as (Hc & Hw & Hn).
  destruct (taskresult_step now r c) as [c1 [[]|exc]]; [|done].
  destruct (IH c1) as (Hc' & Hw' & Hn'). simpl in *.
  split_and!; [by eapply same_config_trans| |congruence].
  destruct Hw, Hw'. split; congruence.
Qed.

(** A turn of the results loop gets through only for a uid the worker
    holds, and leaves the submitted tasks alone. *)
Lemma taskresult_step_Ok_assigned (now : Time) (r : TaskResult) c c' :
  taskresult_step now r c = (c', Ok ()) →
  task_uid (task r) ∈ Worker.assigned c.2.
Proof.
  unfold Pool.taskresult_step. by case_decide.
Qed.

Lemma taskresult_step_input (now : Time) (r : TaskResult) c :
  _input (state (taskresult_step now r c).1.1) = _input (state c.1).
Proof.
  destruct c as [[s f] worker].
  unfold Pool.taskresult_step, deassign, record_result. simpl.
  repeat case_match; simplify_eq; simpl; done.
Qed.

Lemma taskresults_loop_app (now : Time) (l1 l2 : list TaskResult) c :
  taskresults_loop now (l1 ++ l2) c =
    match taskresults_loop now l1 c with
    | (c1, Ok _) => taskresults_loop now l2 c1
    | (c1, Raise exc) => (c1, Raise exc)
    end.
Proof.
  revert c. induction l1 as [|r l1 IH]; intros c; [done|].
  simpl. destruct (taskresult_step now r c) as [c1 [[]|exc]]; [|done].
  apply IH.
Qed.

(** A loop that got through a list got through each of its entries in
    turn. *)
Lemma taskresults_loop_Ok_split (now : Time) (pre post : list TaskResult)
    (r : TaskResult) c c' :
  taskresults_loop now (pre ++ r :: post) c = (c', Ok ()) →
  ∃ c1 c2,
    taskresults_loop now pre c = (c1, Ok ()) ∧
    taskresult_step now r c1 = (c2, Ok ()) ∧
    taskresults_loop now (pre ++ [r]) c = (c2, Ok ()) ∧
    taskresults_loop now post c2 = (c', Ok ()).
Proof.
  rewrite taskresults_loop_app. rewrite (taskresults_loop_app now pre [r]).
  destruct (taskresults_loop now pre c) as [c1 [[]|exc]]; [|done].
  cbn [taskresults_loop app].
  destruct (taskresult_step now r c1) as [c2 [[]|exc]] eqn:Hstep; [|done].
  intros Hpost. by exists c1, c2.
Qed.

(** The uids of a list the loop got through are distinct and were all
    held by the worker, which ends without them. *)
Lemma taskresults_loop_Ok_assigned (now : Time) (results : list TaskResult)
    c c' :
  taskresults_loop now results c = (c', Ok ()) →
  let uids := (λ r, task_uid (task r)) <$> results in
  NoDup uids ∧
  (∀ uid, uid ∈ uids → uid ∈ Worker.assigned c.2) ∧
  Worker.assigned c'.2 = Worker.assigned c.2 ∖ list_to_set uids.
Proof.
  revert c. induction results as [|r results IH]; intros c.
  { simpl. intros [= <-]. split_and!; [constructor|by intros ? ?%elem_of_nil|].
    set_solver. }
  simpl. destruct (taskresult_step now r c) as [c1 [[]|exc]] eqn:Hstep;
    [|done].
  intros Hloop. destruct (IH c1 Hloop) as (Hnd & Hin & Has).
  pose proof (taskresult_step_Ok_assigned _ _ _ _ Hstep) as Hr.
  destruct c as [p worker], c1 as [p1 w1].
  destruct (proj2 (taskresult_step_spec now r p worker) p1 w1 Hstep)
    as (Has1 & _).
  simpl in *. rewrite Has1 in Hin, Has.
  split_and!.
  - constructor; [|done]. intros Hdup. apply Hin in Hdup. set_solver.
  - intros uid [->|Huid]%elem_of_cons; [done|].
    apply Hin in Huid. set_solver.
  - rewrite Has. set_solver.
Qed.

(** The loop gets through any list of results for distinct uids that the
    worker holds and that are ongoing, counted and submitted. *)
Lemma taskresults_loop_total (now : Time) (results : list TaskResult) c :
  let uids := (λ r, task_uid (task r)) <$> results in
  NoDup uids →
  (∀ uid, uid ∈ uids →
     uid ∈ Worker.assigned c.2 ∧ uid ∈ ongoing (state c.1) ∧
     is_Some (task_assign_cnt (state c.1) !! uid) ∧
     is_Some (_input (state c.1) !! uid)) →
  (taskresults_loop now results c).2 = Ok ().
Proof.
  simpl. revert c. induction results as [|r results IH]; intros c Hnd Hpre;
    [done|].
  simpl in Hnd. apply NoDup_cons in Hnd as [Hfresh Hnd].
  destruct c as [p worker].
  destruct (Hpre (task_uid (task r))) as (Hin & Hon & Hcnt & Htk);
    [apply list_elem_of_here|].
  pose proof (proj1 (taskresult_step_spec now r p worker) Hin Hon Hcnt Htk)
    as Hok.
  pose proof (taskresult_step_frame now r (p, worker)) as (_ & _ & Hcnts).
  pose proof (taskresult_step_input now r (p, worker)) as Hinput.
  simpl. destruct (taskresult_step now r (p, worker)) as [[p1 w1] out]
    eqn:Hstep.
  simpl in Hok. subst out.
  destruct (proj2 (taskresult_step_spec now r p worker) p1 w1 Hstep)
    as (Has & _ & Hre & Hrec).
  simpl in *. apply IH; [done|].
  intros uid Huid.
  destruct (Hpre uid) as (Hin' & Hon' & Hcnt' & Htk');
    [by apply list_elem_of_further|].
  assert (uid ≠ task_uid (task r)) as Hne by (by intros ->).
  simpl. rewrite Has, Hcnts, Hinput. split_and!; [set_solver| |done..].
  destruct (decide (unassigned (state p1)
                      = unassigned (state p) ++ [task_uid (task r)]))
    as [Heq|Hneq].
  - destruct (Hre Heq) as [_ ->]. done.
  - destruct (Hrec Hneq) as (_ & _ & Hrm). by eapply remove_other.
Qed.

(** Where the results of a list the loop got through end up: each is
    either written under its uid, or its uid is back on the queue with the
    result stored under it, if any, untouched. *)
Lemma taskresults_loop_Ok_outcome (now : Time) (results : list TaskResult)
    c c' :
  taskresults_loop now results c = (c', Ok ()) →
  let uids := (λ r, task_uid (task r)) <$> results in
  (∀ r, r ∈ results →
     let uid := task_uid (task r) in
     _results (state c'.1) !! uid = Some r ∨
     (uid ∈ unassigned (state c'.1) ∧
      _results (state c'.1) !! uid = _results (state c.1) !! uid)) ∧
  (∀ uid, uid ∉ uids →
     _results (state c'.1) !! uid = _results (state c.1) !! uid) ∧
  unassigned (state c.1) `prefix_of` unassigned (state c'.1).
Proof.
  simpl. revert c. induction results as [|r results IH]; intros c.
  { simpl. intros [= <-]. split_and!; [by intros ? ?%elem_of_nil|done..]. }
  intros Hloop.
  destruct (taskresults_loop_Ok_assigned now _ _ _ Hloop) as (Hnd & _).
  simpl in Hnd. apply NoDup_cons in Hnd as [Hfresh Hnd].
  simpl in Hloop.
  destruct (taskresult_step now r c) as [c1 [[]|exc]] eqn:Hstep; [|done].
  destruct c as [p worker], c1 as [p1 w1].
  destruct (proj2 (taskresult_step_spec now r p worker) p1 w1 Hstep)
    as (_ & _ & Hre & Hrec).
  destruct (IH (p1, w1) Hloop) as (Hout & Hother & Hpre).
  cbn [fst snd] in *.
  assert (∀ uid, uid ≠ task_uid (task r) →
            _results (state p1) !! uid = _results (state p) !! uid) as Hne.
  { intros uid Huid.
    destruct (decide (unassigned (state p1)
                        = unassigned (state p) ++ [task_uid (task r)]))
      as [Heq|Hneq].
    - destruct (Hre Heq) as [-> _]. done.
    - destruct (Hrec Hneq) as (_ & -> & _). by rewrite lookup_insert_ne. }
  assert (unassigned (state p) `prefix_of` unassigned (state p1)) as Hpre1.
  { destruct (decide (unassigned (state p1)
                        = unassigned (state p) ++ [task_uid (task r)]))
      as [Heq|Hneq].
    - rewrite Heq. by apply prefix_app_r.
    - destruct (Hrec Hneq) as (-> & _). done. }
  split_and!.
  - intros r' [->|Hr']%elem_of_cons.
    + rewrite (Hother _ Hfresh).
      destruct (decide (unassigned (state p1)
                          = unassigned (state p) ++ [task_uid (task r)]))
        as [Heq|Hneq].
      * right. destruct (Hre Heq) as [-> _]. split; [|done].
        destruct Hpre as [k ->]. rewrite Heq. set_solver.
      * left. destruct (Hrec Hneq) as (_ & -> & _). apply lookup_insert_eq.
    + destruct (Hout r' Hr') as [Hleft|[Hin Hsame]]; [by left|right].
      split; [done|]. rewrite Hsame. apply Hne. intros Heq.
      apply Hfresh. rewrite <-Heq.
      apply (list_elem_of_fmap_2 (λ r, task_uid (task r)) _ _ Hr').
  - intros uid [Huid Hnin]%not_elem_of_cons.
    rewrite (Hother _ Hnin). by apply Hne.
  - by etrans.
Qed.

(** C5.  The TaskResults handler on a list of results.  It returns
    whenever the results are for distinct uids that the worker holds and
    that are ongoing, counted and submitted.  When it returns, the worker
    has lost exactly the uids of the results and has got one more response,
    an [Ack]; every result of the list is either written under its uid or
    its uid is back on the queue, with what [results] held under it
    untouched, and the results of other uids and the head of the queue are
    as before; and every result of the list was processed in its turn: with
    [before] the pool and worker when its turn came and [after] the pool
    and worker when its turn was over, its uid was held by the worker and
    is taken off [worker.assigned]; the uid is appended to [unassigned],
    with [results] and [ongoing] untouched, exactly when the reschedule
    predicate holds of the result and the assign count of the uid is below
    the limit; in every other case [results[uid]] is written, uid is
    removed from [ongoing] and [unassigned] stays.  The turns follow one
    another: the pool and worker after one entry are those before the next,
    the first turn starts from the handler's arguments and the pool the
    handler leaves is the one after the last turn. *)
Theorem Pool_handle_taskresults_spec (now : Time)
    (results : list TaskResult) p worker :
  let uids := (λ r, task_uid (task r)) <$> results in
  let run prefix := (taskresults_loop now prefix (p, worker)).1 in
  let r := _handle_taskresults now results (p, worker) in
  (NoDup uids →
   (∀ uid, uid ∈ uids →
      uid ∈ Worker.assigned worker ∧ uid ∈ ongoing (state p) ∧
      is_Some (task_assign_cnt (state p) !! uid) ∧
      is_Some (_input (state p) !! uid)) →
   r.2 = Ok ()) ∧
  (r.2 = Ok () →
   run [] = (p, worker) ∧
   r.1.1 = (run results).1 ∧
   Worker.assigned r.1.2 = Worker.assigned worker ∖ list_to_set uids ∧
   Transport.responses (Worker.transport r.1.2)
     = Transport.responses (Worker.transport worker)
         ++ [make (_metadata p) (Ack None)] ∧
   (∀ res, res ∈ results →
      let uid := task_uid (task res) in
      _results (state r.1.1) !! uid = Some res ∨
      (uid ∈ unassigned (state r.1.1) ∧
       _results (state r.1.1) !! uid = _results (state p) !! uid)) ∧
   (∀ uid, uid ∉ uids →
      _results (state r.1.1) !! uid = _results (state p) !! uid) ∧
   unassigned (state p) `prefix_of` unassigned (state r.1.1) ∧
   ∀ pre res post,
     results = pre ++ res :: post →
     let uid := task_uid (task res) in
     let before := run pre in
     let after := run (pre ++ [res]) in
     let resched :=
       should_reschedule before.1 (view (deassign now uid before)) res in
     uid ∈ Worker.assigned before.2 ∧
     Worker.assigned after.2 = Worker.assigned before.2 ∖ {[uid]} ∧
     ((resched = true ∧
       ∃ cnt, task_assign_cnt (state before.1) !! uid = Some cnt ∧
              cnt < task_retries_limit (state before.1))
      ↔ unassigned (state after.1) = unassigned (state before.1) ++ [uid]) ∧
     (unassigned (state after.1) = unassigned (state before.1) ++ [uid] →
      _results (state after.1) = _results (state before.1) ∧
      ongoing (state after.1) = ongoing (state before.1)) ∧
     (unassigned (state after.1) ≠ unassigned (state before.1) ++ [uid] →
      unassigned (state after.1) = unassigned (state before.1) ∧
      _results (state after.1) = <[uid := res]> (_results (state before.1)) ∧
      Py.remove uid (ongoing (state before.1))
        = Some (ongoing (state after.1)))).
Proof.
  intros uids run r. subst uids run r. cbv beta. split.
  - intros Hnd Hpre.
    pose proof (taskresults_loop_total now results (p, worker) Hnd Hpre)
      as Hok.
    unfold Pool._handle_taskresults.
    destruct (taskresults_loop now results (p, worker)) as [[p' w'] out].
    simpl in Hok. by subst out.
  - unfold Pool._handle_taskresults.
    destruct (taskresults_loop now results (p, worker)) as [[p' w'] out]
      eqn:Hloop.
    destruct out as [[]|exc]; [|done]. intros _. simpl.
    pose proof (taskresults_loop_frame now results (p, worker))
      as ((_ & _ & Hrp) & (_ & Htr) & _).
    destruct (taskresults_loop_Ok_assigned now results _ _ Hloop)
      as (_ & _ & Has).
    destruct (taskresults_loop_Ok_outcome now results _ _ Hloop)
      as (Hout & Hother & Hprefix).
    rewrite Hloop in Hrp, Htr. simpl in Hrp, Htr, Has, Hout, Hother, Hprefix.
    split_and!;
      [done|done|done|unfold _metadata; by rewrite Hrp, Htr|done..|].
    intros pre res post ->.
    destruct (taskresults_loop_Ok_split now pre post res _ _ Hloop)
      as ([p1 w1] & [p2 w2] & Hpre & Hstep & Hpre' & _).
    rewrite Hpre, Hpre'. cbn [fst snd].
    split; [exact (taskresult_step_Ok_assigned _ _ _ _ Hstep)|].
    exact (proj2 (taskresult_step_spec now res p1 w1) p2 w2 Hstep).
Qed.

(** With the predicate the pool is built with, the results loop never
    touches [unassigned], whatever its outcome. *)
Lemma taskresult_step_default (now : Time) (r : TaskResult) c :
  should_reschedule c.1 = default_check_reschedule →
  unassigned (state (taskresult_step now r c).1.1) = unassigned (state c.1).
Proof.
  destruct c as [[s f] worker]. simpl. intros ->.
  unfold Pool.taskresult_step, deassign, record_result. simpl.
  unfold default_check_reschedule.
  repeat case_match; simplify_eq; simpl; done.
Qed.

Lemma taskresults_loop_default (now : Time) (results : list TaskResult) c :
  should_reschedule c.1 = default_check_reschedule →
  unassigned (state (taskresults_loop now results c).1.1)
    = unassigned (state c.1).
Proof.
  revert c. induction results as [|r results IH]; intros c Hdef; [done|].
  simpl. pose proof (taskresult_step_default now r c Hdef) as Hun.
  pose proof (taskresult_step_frame now r c) as ((Hsr & _) & _).
  destruct (taskresult_step now r c) as [c1 [[]|exc]]; [|done].
  simpl in *. rewrite IH; [done|congruence].
Qed.

(** With the predicate the pool is built with, a turn of the results loop
    goes through for a uid that the worker holds and that is ongoing, and a
    turn that goes through records the result terminally. *)
Lemma taskresult_step_default_spec (now : Time) (r : TaskResult) p worker :
  should_reschedule p = default_check_reschedule →
  let uid := task_uid (task r) in
  (uid ∈ Worker.assigned worker → uid ∈ ongoing (state p) →
   (taskresult_step now r (p, worker)).2 = Ok ()) ∧
  (∀ p' worker',
     taskresult_step now r (p, worker) = ((p', worker'), Ok ()) →
     _results (state p') = <[uid := r]> (_results (state p)) ∧
     Py.remove uid (ongoing (state p)) = Some (ongoing (state p')) ∧
     unassigned (state p') = unassigned (state p)).
Proof.
  intros Hdef uid. subst uid.
  destruct p as [s f]. simpl in Hdef. subst f.
  unfold Pool.taskresult_step, deassign, record_result. simpl.
  unfold default_check_reschedule. split.
  - intros Hin Hon. destruct (remove_elem_of _ _ Hon) as [rest Hrest].
    rewrite decide_True by done.
    repeat case_match; simplify_eq; simpl in *; congruence.
  - intros p' worker'.
    repeat case_match; intros; simplify_eq; simpl in *; done.
Qed.

Lemma taskresults_loop_default_total (now : Time)
    (results : list TaskResult) c :
  should_reschedule c.1 = default_check_reschedule →
  let uids := (λ r, task_uid (task r)) <$> results in
  NoDup uids →
  (∀ uid, uid ∈ uids →
     uid ∈ Worker.assigned c.2 ∧ uid ∈ ongoing (state c.1)) →
  (taskresults_loop now results c).2 = Ok ().
Proof.
  simpl. revert c.
  induction results as [|r results IH]; intros c Hdef Hnd Hpre; [done|].
  simpl in Hnd. apply NoDup_cons in Hnd as [Hfresh Hnd].
  destruct c as [p worker]. simpl in Hdef.
  destruct (Hpre (task_uid (task r))) as [Hin Hon];
    [apply list_elem_of_here|].
  destruct (taskresult_step_default_spec now r p worker Hdef)
    as [Htot Hrec].
  pose proof (Htot Hin Hon) as Hok.
  pose proof (taskresult_step_frame now r (p, worker)) as ((Hsr & _) & _).
  simpl. destruct (taskresult_step now r (p, worker)) as [[p1 w1] out]
    eqn:Hstep.
  simpl in Hok. subst out. rewrite ?Hstep in Hsr.
  destruct (Hrec p1 w1 eq_refl) as (_ & Hrm & _).
  destruct (proj2 (taskresult_step_spec now r p worker) p1 w1 Hstep)
    as (Has & _).
  simpl in Hsr, Has, Hrm. apply IH; [simpl; congruence|exact Hnd|].
  intros uid Huid.
  destruct (Hpre uid) as [Hin' Hon']; [by apply list_elem_of_further|].
  assert (uid ≠ task_uid (task r)) as Hne by (by intros ->).
  simpl. rewrite Has. split; [set_solver|by eapply remove_other].
Qed.

(** With the predicate the pool is built with, a loop that got through a
    list has written every result of the list under its uid, has left the
    other results alone, and has removed each uid of the list from
    [ongoing]. *)
Lemma taskresults_loop_default_recorded (now : Time)
    (results : list TaskResult) c c' :
  should_reschedule c.1 = default_check_reschedule →
  taskresults_loop now results c = (c', Ok ()) →
  let uids := (λ r, task_uid (task r)) <$> results in
  (∀ r, r ∈ results → _results (state c'.1) !! task_uid (task r) = Some r) ∧
  (∀ uid, uid ∉ uids →
     _results (state c'.1) !! uid = _results (state c.1) !! uid) ∧
  ongoing (state c.1) ≡ₚ uids ++ ongoing (state c'.1).
Proof.
  simpl. revert c.
  induction results as [|r results IH]; intros c Hdef.
  { simpl. intros [= <-]. split_and!; [by intros ? ?%elem_of_nil|done..]. }
  intros Hloop.
  destruct (taskresults_loop_Ok_assigned now _ _ _ Hloop) as (Hnd & _).
  simpl in Hnd. apply NoDup_cons in Hnd as [Hfresh _].
  simpl in Hloop.
  pose proof (taskresult_step_frame now r c) as ((Hsr & _) & _).
  destruct (taskresult_step now r c) as [c1 [[]|exc]] eqn:Hstep; [|done].
  rewrite ?Hstep in Hsr.
  destruct c as [p worker], c1 as [p1 w1]. simpl in Hdef, Hsr.
  destruct (proj2 (taskresult_step_default_spec now r p worker Hdef)
              p1 w1 Hstep) as (Hres & Hrm & _).
  destruct (IH (p1, w1)) as (Hrec & Hother & Hperm); [simpl; congruence|done|].
  simpl in *. split_and!.
  - intros r' [->|Hr']%elem_of_cons; [|by apply Hrec].
    rewrite (Hother _ Hfresh), Hres. apply lookup_insert_eq.
  - intros uid [Hne Hnin]%not_elem_of_cons.
    rewrite (Hother _ Hnin), Hres. by apply lookup_insert_ne.
  - rewrite (remove_Permutation _ _ _ Hrm). by rewrite Hperm.
Qed.

End ResultsFacts.

(** ** Pool: the TaskPullRequest handler *)

Section PoolFacts.

Import Pool.

Context (str_task : Task → string) (str_pool : Pool.State → string).

Implicit Types (p : Pool.t) (worker : Worker.t) (c : Pool.Ctx).

Local Abbreviation pull_loop := (Pool.pull_loop str_task str_pool).
Local Abbreviation _discard_task := (Pool._discard_task str_pool).
Local Abbreviation _handle_taskpull_request :=
  (Pool._handle_taskpull_request str_task str_pool).

(** What the dispatch loop leaves alone: the worker's transport and the
    pool's metadata; and it batches at most one task per turn. *)
Lemma discard_task_runpath uid reason p :
  runpath (state (_discard_task uid reason p).1) = runpath (state p).
Proof.
  unfold Pool._discard_task. by repeat case_match.
Qed.

Lemma pull_loop_frame (k : nat) tasks c :
  let r := pull_loop k tasks c in
  Worker.transport r.1.2 = Worker.transport c.2 ∧
  Worker.requesting r.1.2 = Worker.requesting c.2 ∧
  runpath (state r.1.1) = runpath (state c.1).
Proof.
  revert tasks c. induction k as [|k IH]; intros tasks [p worker]; [done|].
  simpl. repeat case_match; simplify_eq; simpl; try done.
  all: try match goal with
       | |- context [Pool.pull_loop _ _ ?k' ?ts ?c'] =>
           destruct (IH ts c') as (-> & -> & ->)
       end; simpl; try done.
  all: match goal with
       | H : Pool._discard_task _ ?u ?r ?q = _ |- _ =>
           pose proof (discard_task_runpath u r q) as Hrp; rewrite H in Hrp
       end; simpl in Hrp; by rewrite Hrp.
Qed.

(** The batch grows by at most one task per turn of the loop. *)
Lemma pull_loop_batch (k : nat) tasks c c' tasks' :
  pull_loop k tasks c = (c', Ok tasks') →
  ∃ batch, tasks' = tasks ++ batch ∧ (length batch ≤ k)%nat.
Proof.
  revert tasks c. induction k as [|k IH]; intros tasks [p worker] Hloop.
  { simpl in Hloop. simplify_eq. exists []. by rewrite app_nil_r. }
  simpl in Hloop. repeat case_match; simplify_eq.
  all: first
    [ apply IH in Hloop as (batch & -> & ?); eexists; split;
      [rewrite <-?app_assoc; reflexivity | simpl; lia]
    | exists []; rewrite app_nil_r; split; [done | simpl; lia] ].
Qed.


Lemma pull_loop_total (k : nat) tasks p worker :
  dispatchable p →
  ∃ c' tasks', pull_loop k tasks (p, worker) = (c', Ok tasks').
Proof.
  revert tasks p worker.
  induction k as [|k IH]; intros tasks p worker [Hnd Hin]; [by eexists _, _|].
  simpl. destruct (unassigned (state p)) as [|uid rest] eqn:Hun; simpl;
    [by eexists _, _|].
  apply NoDup_cons in Hnd as [Hfresh Hnd].
  destruct (Hin uid) as [Hon [tk Htk]]; [apply list_elem_of_here|].
  destruct (remove_elem_of uid _ Hon) as [rest' Hrest'].
  destruct (task_assign_cnt (state p) !! uid) as [cnt|] eqn:Hcnt; simpl;
    rewrite ?Hcnt, ?lookup_insert_eq, ?Htk; simpl.
  all: case_decide; simpl; unfold Pool._discard_task; simpl;
    rewrite ?Htk; simpl; rewrite ?Hrest'; simpl.
  all: apply IH; split; simpl; [done|].
  all: intros u Hu; destruct (Hin u) as [Hon' Hin'];
    [by apply list_elem_of_further|]; split; [|done].
  all: try done.
  all: eapply remove_other; [done| |done]; by intros ->.
Qed.

(** C4.  Outside STARTED nothing is dispatched: the pool is left as it is
    and the worker is answered [Ack] with [requesting = n].  In STARTED,
    when the dispatch loop ends with batch [batch]: an empty batch is
    answered [Ack] with [requesting = n]; a non-empty one is answered
    [TaskSending(batch)], has between 1 and [n] tasks, and leaves
    [requesting = n - len(batch)].  The loop does end so whenever the queue
    holds distinct, submitted, ongoing uids. *)
Theorem Pool_taskpull_request_response (n : Z) p worker :
  let r := _handle_taskpull_request n (p, worker) in
  let sent := Transport.responses (Worker.transport worker) in
  (status (state p) ≠ STARTED →
   r.2 = Ok () ∧ r.1.1 = p ∧
   Worker.assigned r.1.2 = Worker.assigned worker ∧
   Worker.requesting r.1.2 = n ∧
   Transport.responses (Worker.transport r.1.2)
     = sent ++ [make (_metadata p) (Ack None)]) ∧
  (status (state p) = STARTED →
   ∀ c' batch,
     pull_loop (Z.to_nat n) [] (p, worker) = (c', Ok batch) →
     r.2 = Ok () ∧ r.1.1 = c'.1 ∧
     Worker.assigned r.1.2 = Worker.assigned c'.2 ∧
     match batch with
     | [] =>
         Worker.requesting r.1.2 = n ∧
         Transport.responses (Worker.transport r.1.2)
           = sent ++ [make (_metadata p) (Ack None)]
     | _ :: _ =>
         1 <= Z.of_nat (length batch) <= n ∧
         Worker.requesting r.1.2 = n - Z.of_nat (length batch) ∧
         Transport.responses (Worker.transport r.1.2)
           = sent ++ [make (_metadata p) (TaskSending batch)]
     end) ∧
  (status (state p) = STARTED → dispatchable p →
   ∃ c' batch, pull_loop (Z.to_nat n) [] (p, worker) = (c', Ok batch)).
Proof.
  simpl. split_and!.
  - intros Hst. unfold Pool._handle_taskpull_request. simpl.
    by rewrite decide_False.
  - intros Hst [p' worker'] batch Hloop.
    unfold Pool._handle_taskpull_request. simpl.
    rewrite decide_True by done. rewrite Hloop.
    destruct (pull_loop_frame (Z.to_nat n) [] (p, worker)) as (Htr & _ & Hrp).
    rewrite Hloop in Htr, Hrp. simpl in Htr, Hrp.
    apply pull_loop_batch in Hloop as (batch' & Hb & Hlen).
    simpl in Hb. subst batch'.
    unfold _metadata. rewrite Hrp.
    destruct batch as [|tk batch]; simpl; rewrite Htr, ?Hrp; [done|].
    split_and!; try done; simpl in Hlen; lia.
  - intros _ Hq. by apply pull_loop_total.
Qed.

(** ** Pool: what the steps keep *)

Local Abbreviation handle_request := (Pool.handle_request str_task str_pool).
Local Abbreviation _loop_process_work :=
  (Pool._loop_process_work str_task str_pool).
Local Abbreviation internal_step := (Pool.internal_step str_task str_pool).
Local Abbreviation step := (Pool.step str_task str_pool).
Local Abbreviation reachable := (Pool.reachable str_task str_pool).

Lemma keeps_refl p : keeps p p.
Proof. done. Qed.

Lemma keeps_trans p1 p2 p3 : keeps p1 p2 → keeps p2 p3 → keeps p1 p3.
Proof.
  intros [Hc Hb] [Hc' Hb']. split; [by eapply same_config_trans|].
  intros Hl Hcnt. apply Hb'; [|by apply Hb].
  destruct Hc as (_ & -> & _). done.
Qed.

(** A step that keeps the configuration and does not write the assign
    counts. *)
Lemma keeps_counts p p' :
  same_config p p' →
  task_assign_cnt (state p') = task_assign_cnt (state p) →
  keeps p p'.
Proof.
  intros Hc Hn. split; [done|]. intros _ Hb uid cnt.
  destruct Hc as (_ & -> & _). rewrite Hn. apply Hb.
Qed.

Lemma store_keeps c : keeps c.1 (store c).
Proof. by apply keeps_counts. Qed.

Lemma discard_task_keeps uid reason p :
  keeps p (_discard_task uid reason p).1.
Proof.
  apply keeps_counts; unfold Pool._discard_task;
    by repeat case_match.
Qed.

(** The dispatch loop only ever counts up to the limit. *)
Lemma pull_loop_keeps (k : nat) tasks c :
  keeps c.1 (pull_loop k tasks c).1.1.
Proof.
  revert tasks c. induction k as [|k IH]; intros tasks [p worker]; [done|].
  simpl. destruct (pop0 (unassigned (state p))) as [[uid rest]|]; [|done].
  match goal with
  | |- context [task_assign_cnt (state ?q) !! uid] =>
      match q with
      | upd _ _ => fail 1
      | _ => set (p1 := q)
      end
  end.
  assert (keeps p p1) as Hp1.
  { subst p1. simpl. destruct (task_assign_cnt (state p) !! uid) eqn:Hcnt.
    - by apply keeps_counts.
    - split; [done|]. intros Hl Hb u n. simpl.
      destruct (decide (uid = u)) as [->|].
      + rewrite lookup_insert_eq. by intros [= <-].
      + rewrite lookup_insert_ne by done. apply Hb. }
  destruct (task_assign_cnt (state p1) !! uid) as [cnt|] eqn:Hcnt; [|done].
  case_decide.
  - destruct (_input (state p1) !! uid) as [tk|]; [|done].
    match goal with
    | |- context [Pool._discard_task _ ?u ?r ?q] =>
        pose proof (discard_task_keeps u r q) as Hd;
        destruct (Pool._discard_task _ u r q) as [p2 [[]|exc]]
    end; simpl in Hd.
    + eapply keeps_trans; [exact Hp1|]. eapply keeps_trans; [exact Hd|].
      apply (IH tasks (p2, worker)).
    + simpl. by eapply keeps_trans.
  - set (p2 := upd _ p1).
    assert (keeps p1 p2) as Hp2.
    { split; [done|]. subst p2. intros Hl Hb u n. simpl.
      destruct (decide (uid = u)) as [->|].
      + rewrite lookup_insert_eq. intros [= <-]. lia.
      + rewrite lookup_insert_ne by done. apply Hb. }
    destruct (_input (state p1) !! uid) as [tk|].
    + eapply keeps_trans; [exact Hp1|]. eapply keeps_trans; [exact Hp2|].
      match goal with
      | |- context [Pool.pull_loop _ _ k ?ts ?c'] => apply (IH ts c')
      end.
    + simpl. by eapply keeps_trans.
Qed.

Lemma handle_taskpull_request_keeps (n : Z) c :
  keeps c.1 (_handle_taskpull_request n c).1.1.
Proof.
  unfold Pool._handle_taskpull_request. case_decide; [|done].
  pose proof (pull_loop_keeps (Z.to_nat n) [] c) as Hk.
  destruct (pull_loop (Z.to_nat n) [] c) as [[p' worker'] [[|tk batch]|exc]];
    done.
Qed.

Lemma handle_taskresults_keeps (now : Time) (results : list TaskResult) c :
  keeps c.1 (_handle_taskresults now results c).1.1.
Proof.
  unfold Pool._handle_taskresults.
  pose proof (taskresults_loop_frame now results c) as (Hc & _ & Hn).
  destruct (taskresults_loop now results c) as [[p' worker'] [[]|exc]];
    by apply keeps_counts.
Qed.

Lemma drain_assigned_keeps (uids : list string) c :
  keeps c.1 (drain_assigned uids c).1.1.
Proof.
  revert c. induction uids as [|uid uids IH]; intros [p worker]; [done|].
  simpl. destruct (_input (state p) !! uid); [|done].
  eapply keeps_trans; [|apply IH]. by apply keeps_counts.
Qed.

Lemma deco_worker_keeps c : keeps c.1 (Pool._deco_worker c).1.1.
Proof.
  unfold Pool._deco_worker.
  pose proof (drain_assigned_keeps (elements (Worker.assigned c.2)) c) as Hk.
  by destruct (drain_assigned _ c) as [[p' worker'] [[]|exc]].
Qed.

Lemma handle_request_keeps (now now' : Time) (request : Message) p :
  keeps p (handle_request now now' request p).1.
Proof.
  unfold Pool.handle_request.
  destruct (sender_metadata request) as [sender_index|]; [|done].
  destruct (_workers (state p) !! sender_index) as [worker|]; [|done].
  destruct (negb (Worker.active worker)); [by apply keeps_counts|].
  match goal with
  | |- context [let '(c, out) := ?e in _] =>
      assert (keeps p e.1.1) as Hk; [|destruct e as [c out]]
  end.
  - destruct (_ || _); [done|].
    destruct (body request); try done.
    + apply (handle_taskpull_request_keeps n (p, _)).
    + apply (handle_taskresults_keeps now' results (p, _)).
    + apply (deco_worker_keeps (p, _)).
  - simpl in *. eapply keeps_trans; [exact Hk|]. apply store_keeps.
Qed.

Lemma loop_process_work_keeps (now now' : Time) (curr : Status) p :
  keeps p (_loop_process_work now now' curr p).1.
Proof.
  unfold Pool._loop_process_work. destruct curr; try done.
  destruct (RoundRobinConnManager.accept _ _) as [[[msg|] env] conn];
    [|by apply keeps_counts].
  match goal with
  | |- context [Pool.handle_request _ _ ?a ?b ?m ?q] =>
      pose proof (handle_request_keeps a b m q) as Hk;
      destruct (Pool.handle_request _ _ a b m q) as [p' out]
  end.
  simpl in *. eapply keeps_trans; [|exact Hk]. by apply keeps_counts.
Qed.

Lemma discard_pending_keeps (uids : list string) p :
  keeps p (Pool.discard_pending str_pool uids p).1.
Proof.
  revert p. induction uids as [|uid uids IH]; intros p; [done|].
  simpl. destruct (_input (state p) !! uid); [|done].
  eapply keeps_trans; [|apply IH]. by apply keeps_counts.
Qed.

Lemma internal_step_keeps p p' : internal_step p p' → keeps p p'.
Proof.
  destruct 1 as [obj uid| | | |now now'|w wk msg _|w wk fuel _|w wk _].
  - by destruct obj; apply keeps_counts.
  - unfold Pool.start. by repeat case_match; apply keeps_counts.
  - by apply keeps_counts.
  - unfold Pool.abort, Pool._discard_pending_tasks.
    eapply keeps_trans; [|apply discard_pending_keeps].
    by apply keeps_counts.
  - apply loop_process_work_keeps.
  - by apply keeps_counts.
  - by apply keeps_counts.
  - eapply keeps_trans; [apply (deco_worker_keeps (p, wk))|].
    apply store_keeps.
Qed.

(** Every step keeps the limit, and the bound with it. *)
Lemma step_bounded p p' :
  step p p' →
  task_retries_limit (state p') = task_retries_limit (state p) ∧
  (0 <= task_retries_limit (state p) → cnt_bounded p → cnt_bounded p').
Proof.
  destruct 1 as [p' Hstep|argnames check].
  - apply internal_step_keeps in Hstep as [(_ & ? & _) ?]. done.
  - unfold Pool.set_reschedule_check. by case_decide.
Qed.

Lemma reachable_bounded p0 p :
  0 <= task_retries_limit (state p0) → cnt_bounded p0 → reachable p0 p →
  task_retries_limit (state p) = task_retries_limit (state p0) ∧
  cnt_bounded p.
Proof.
  intros Hl Hb Hreach. induction Hreach as [p|p1 p2 p3 Hstep _ IH]; [done|].
  apply step_bounded in Hstep as [Hlimit Hkeep].
  destruct IH as [-> ?]; [by rewrite Hlimit|by apply Hkeep|done].
Qed.

(** C1, as the code has it.  In a pool built with a retry limit that is not
    negative, after any number of steps (submissions, lifecycle calls,
    loop turns with whatever requests the workers sent, decommissions) no
    uid has an assign count above the limit. *)
Theorem Pool_assign_count_bounded (nm : string) (sz : nat) (limit : Z)
    (chain : list (option string)) (rp : string) p :
  0 <= limit →
  reachable (Pool.init nm sz limit chain rp) p →
  task_retries_limit (state p) = limit ∧
  ∀ uid cnt, task_assign_cnt (state p) !! uid = Some cnt → cnt <= limit.
Proof.
  intros Hl Hreach.
  apply reachable_bounded in Hreach as [Hlimit Hb]; [|done|done].
  split; [done|]. intros uid cnt Hcnt. apply Hb in Hcnt.
  by rewrite Hlimit in Hcnt.
Qed.

(** Steps other than [set_reschedule_check] leave the predicate in place. *)
Lemma internal_steps_should_reschedule p0 p :
  rtc internal_step p0 p → should_reschedule p = should_reschedule p0.
Proof.
  induction 1 as [p|p1 p2 p3 Hstep _ IH]; [done|].
  apply internal_step_keeps in Hstep as [(Hsr & _) _]. congruence.
Qed.

(** C10.  [default_check_reschedule] is constantly false and is the
    predicate a pool is built with, and no step other than
    [set_reschedule_check] replaces it.  While it is in place, the
    TaskResults handler never appends to [unassigned], whatever its
    outcome, and leaves the predicate in place; it returns whenever the
    results are for distinct uids that the worker holds and that are
    ongoing; and when it returns, every result of the message is recorded
    terminally: each is written to [results] under its uid, the results of
    other uids are left alone, every uid of the message has been removed
    from [ongoing], and the worker holds none of them any more.  The same
    holds turn by turn. *)
Theorem Pool_default_never_reschedules :
  (∀ pool task_result, default_check_reschedule pool task_result = false) ∧
  (∀ nm sz limit chain rp,
     should_reschedule (Pool.init nm sz limit chain rp)
       = default_check_reschedule) ∧
  (∀ nm sz limit chain rp p,
     rtc internal_step (Pool.init nm sz limit chain rp) p →
     should_reschedule p = default_check_reschedule) ∧
  (∀ now results p worker,
     should_reschedule p = default_check_reschedule →
     let uids := (λ r, task_uid (task r)) <$> results in
     let r := _handle_taskresults now results (p, worker) in
     unassigned (state r.1.1) = unassigned (state p) ∧
     should_reschedule r.1.1 = default_check_reschedule ∧
     (NoDup uids →
      (∀ uid, uid ∈ uids →
         uid ∈ Worker.assigned worker ∧ uid ∈ ongoing (state p)) →
      r.2 = Ok ()) ∧
     (r.2 = Ok () →
      (∀ res, res ∈ results →
         _results (state r.1.1) !! task_uid (task res) = Some res) ∧
      (∀ uid, uid ∉ uids →
         _results (state r.1.1) !! uid = _results (state p) !! uid) ∧
      ongoing (state p) ≡ₚ uids ++ ongoing (state r.1.1) ∧
      (∀ uid, uid ∈ uids → uid ∈ Worker.assigned worker) ∧
      Worker.assigned r.1.2 = Worker.assigned worker ∖ list_to_set uids)) ∧
  (∀ now (r : TaskResult) p worker,
     should_reschedule p = default_check_reschedule →
     let uid := task_uid (task r) in
     (uid ∈ Worker.assigned worker → uid ∈ ongoing (state p) →
      (taskresult_step now r (p, worker)).2 = Ok ()) ∧
     (∀ p' worker',
        taskresult_step now r (p, worker) = ((p', worker'), Ok ()) →
        _results (state p') = <[uid := r]> (_results (state p)) ∧
        Py.remove uid (ongoing (state p)) = Some (ongoing (state p')) ∧
        unassigned (state p') = unassigned (state p))).
Proof.
  split_and!.
  - done.
  - done.
  - intros nm sz limit chain rp p Hsteps.
    by rewrite (internal_steps_should_reschedule _ _ Hsteps).
  - intros now results p worker Hdef. cbv zeta.
    pose proof (taskresults_loop_default now results (p, worker) Hdef) as Hun.
    pose proof (taskresults_loop_frame now results (p, worker))
      as ((Hsr & _) & _).
    pose proof (taskresults_loop_default_total now results (p, worker) Hdef)
      as Htotal.
    pose proof (taskresults_loop_default_recorded now results (p, worker))
      as Hrecorded.
    pose proof (taskresults_loop_Ok_assigned now results (p, worker))
      as Hassigned.
    unfold Pool._handle_taskresults.
    destruct (taskresults_loop now results (p, worker))
      as [[p' worker'] [[]|exc]]; simpl in *.
    + split_and!; [congruence|congruence|done|]. intros _.
      destruct (Hrecorded _ Hdef eq_refl) as (Hrec & Hother & Hperm).
      destruct (Hassigned _ eq_refl) as (_ & Hin & Has).
      by split_and!.
    + split_and!; [congruence|congruence| |done].
      intros Hnd Hpre. by specialize (Htotal Hnd Hpre).
  - intros now r p worker Hdef.
    apply (taskresult_step_default_spec now r p worker Hdef).
Qed.

End PoolFacts.

(** The example run, step by step. *)
Lemma scenario_reachable (limit : Z) :
  Pool.reachable Scenario.str_task Scenario.str_pool
    (Scenario.built limit) (Scenario.dispatched limit).
Proof.
  assert (Pool._workers (Pool.state (Scenario.started limit)) !! "0"
            = Some Scenario.worker_0) as Hw by (vm_compute; reflexivity).
  unfold Pool.reachable.
  apply (rtc_l _ _ (Scenario.submitted limit));
    [apply Pool.step_internal;
     exact (Pool.step_add _ _ (Scenario.built limit)
              (IsTask Scenario.task_a) "a")|].
  apply (rtc_l _ _ (Scenario.starting limit));
    [apply Pool.step_internal;
     exact (Pool.step_start _ _ (Scenario.submitted limit))|].
  apply (rtc_l _ _ (Scenario.started limit));
    [apply Pool.step_internal;
     exact (Pool.step_loop _ _ (Scenario.starting limit) 0 0)|].
  apply (rtc_l _ _ (Scenario.requested limit));
    [apply Pool.step_internal;
     exact (Pool.step_worker_send _ _ (Scenario.started limit) "0"
              Scenario.worker_0 Scenario.pull_one Hw)|].
  apply (rtc_l _ _ (Scenario.dispatched limit));
    [apply Pool.step_internal;
     exact (Pool.step_loop _ _ (Scenario.requested limit) 1 1)|].
  apply rtc_refl.
Qed.

(** C1 fails as stated: with [task_retries_limit = -1] the first pull
    request sets the assign count of "a" to 0 before discarding it, and 0
    exceeds the limit. *)
Lemma Pool_assign_count_exceeds_negative_limit :
  let p := Scenario.dispatched (-1) in
  Pool.reachable Scenario.str_task Scenario.str_pool (Scenario.built (-1)) p ∧
  Pool.task_retries_limit (Pool.state p) = -1 ∧
  Pool.task_assign_cnt (Pool.state p) !! "a" = Some 0 ∧
  ¬ Pool.cnt_bounded p.
Proof.
  split_and!.
  - apply scenario_reachable.
  - vm_compute. reflexivity.
  - vm_compute. reflexivity.
  - intros Hb. specialize (Hb "a" 0).
    assert (0 <= -1) as Hle; [|lia].
    apply Hb. vm_compute. reflexivity.
Qed.

Lemma Pool_assign_count_bounded_witness :
  0 <= 3 ∧
  Pool.reachable Scenario.str_task Scenario.str_pool
    (Pool.init "pool" 1 3 [] "runpath") (Scenario.dispatched 3) ∧
  Pool.task_assign_cnt (Pool.state (Scenario.dispatched 3)) !! "a" = Some 1 ∧
  1 <= 3.
Proof.
  assert (0 <= 3) as Hl by lia.
  pose proof (scenario_reachable 3) as Hreach.
  split_and!; [exact Hl|exact Hreach|vm_compute; reflexivity|].
  apply (proj2 (Pool_assign_count_bounded Scenario.str_task Scenario.str_pool
                  "pool" 1 3 [] "runpath" (Scenario.dispatched 3) Hl Hreach)
           "a" 1).
  vm_compute. reflexivity.
Defined.

(** ** Pool: the time of a worker's first result *)

Section LastResult.

Import Pool.

Implicit Types (p : Pool.t) (worker : Worker.t) (c : Pool.Ctx).





Lemma handle_taskresults_index (now : Time) (results : list TaskResult) c :
  Worker.index (_handle_taskresults now results c).1.2 = Worker.index c.2.
Proof.
  unfold _handle_taskresults.
  pose proof (taskresults_loop_frame now results c) as (_ & (Hi & _) & _).
  by destruct (taskresults_loop now results c) as [[p' worker'] [[]|exc]].
Qed.






End LastResult.


(** ** The theorems at work on the example run *)


Lemma RoundRobin_accept_polls_each_once_witness :
  RoundRobinConnManager.accept (Pool._add_workers 3)
    RoundRobinConnManager.init
    = (None, Pool._add_workers 3, RoundRobinConnManager.init) ∧
  RoundRobinConnManager._current
    (RoundRobinConnManager.accept (Pool._add_workers 3) Scenario.roster).2
    = 2 ∧
  RoundRobinConnManager.accept_trace 3 (Pool._add_workers 3) Scenario.roster
    ≡ₚ [Some "0"; Some "1"; Some "2"].
Proof.
  split.
  - exact (proj1 (RoundRobin_accept_polls_each_once (Pool._add_workers 3)
                    RoundRobinConnManager.init) eq_refl).
  - destruct (proj2 (RoundRobin_accept_polls_each_once (Pool._add_workers 3)
                       Scenario.roster))
      as (w & _ & _ & _ & Hcur & Hperm); [discriminate|].
    split; [exact Hcur|exact Hperm].
Defined.

Lemma Pool_taskpull_request_response_witness :
  let r :=
    Pool._handle_taskpull_request Scenario.str_task Scenario.str_pool 1
      (Scenario.started 3, Scenario.worker_0) in
  Pool.status (Pool.state (Scenario.started 3)) = STARTED ∧
  1 <= 1 <= 1 ∧
  Worker.requesting r.1.2 = 1 - 1 ∧
  Transport.responses (Worker.transport r.1.2)
    = [] ++ [make (Pool._metadata (Scenario.started 3))
               (TaskSending [Scenario.task_a])].
Proof.
  assert (Pool.status (Pool.state (Scenario.started 3)) = STARTED) as Hst
    by reflexivity.
  split; [exact Hst|].
  destruct (proj1 (proj2 (Pool_taskpull_request_response
                            Scenario.str_task Scenario.str_pool 1
                            (Scenario.started 3) Scenario.worker_0))
              Hst
              (Pool.pull_loop Scenario.str_task Scenario.str_pool 1 []
                 (Scenario.started 3, Scenario.worker_0)).1
              [Scenario.task_a])
    as (_ & _ & _ & Hlen & Hreq & Hresp); [vm_compute; reflexivity|].
  split_and!; [apply Hlen..|exact Hreq|exact Hresp].
Defined.

Lemma Pool_handle_taskresults_spec_witness :
  (Pool._handle_taskresults 2 [Scenario.result_a; Scenario.result_b]
     (Scenario.rescheduling, Scenario.worker_busy)).2 = Ok () ∧
  Pool.unassigned
    (Pool.state
       (Pool.taskresults_loop 2 [Scenario.result_a]
          (Scenario.rescheduling, Scenario.worker_busy)).1.1)
    = Pool.unassigned (Pool.state Scenario.rescheduling) ++ ["a"] ∧
  Pool._results
    (Pool.state
       (Pool._handle_taskresults 2 [Scenario.result_a; Scenario.result_b]
          (Scenario.rescheduling, Scenario.worker_busy)).1.1) !! "b"
    = Some Scenario.result_b.
Proof.
  destruct (Pool_handle_taskresults_spec 2
              [Scenario.result_a; Scenario.result_b]
              Scenario.rescheduling Scenario.worker_busy)
    as [Htotal Hspec].
  assert ((Pool._handle_taskresults 2 [Scenario.result_a; Scenario.result_b]
             (Scenario.rescheduling, Scenario.worker_busy)).2 = Ok ())
    as Hok.
  { apply Htotal.
    - apply (bool_decide_unpack _). vm_compute. exact I.
    - intros uid Huid.
      apply elem_of_cons in Huid as [->|Huid];
        [|apply list_elem_of_singleton in Huid as ->].
      + split_and!; [apply elem_of_union_l, elem_of_singleton; reflexivity
                    |apply list_elem_of_here
                    |eexists; vm_compute; reflexivity
                    |eexists; vm_compute; reflexivity].
      + split_and!; [apply elem_of_union_r, elem_of_union_l,
                       elem_of_singleton; reflexivity
                    |apply list_elem_of_further, list_elem_of_here
                    |eexists; vm_compute; reflexivity
                    |eexists; vm_compute; reflexivity]. }
  destruct (Hspec Hok) as (_ & Hfinal & _ & _ & _ & _ & _ & Hentries).
  split_and!; [exact Hok| |].
  - destruct (Hentries [] Scenario.result_a [Scenario.result_b] eq_refl)
      as (_ & _ & Hiff & _).
    apply (proj1 Hiff). split; [vm_compute; reflexivity|].
    exists 1. split; [vm_compute; reflexivity|vm_compute; reflexivity].
  - destruct (Hentries [Scenario.result_a] Scenario.result_b [] eq_refl)
      as (_ & _ & _ & _ & Hrec).
    destruct Hrec as (_ & Hres & _); [vm_compute; intros [=]|].
    rewrite Hfinal.
    change ([Scenario.result_a] ++ [Scenario.result_b])
      with [Scenario.result_a; Scenario.result_b] in Hres.
    rewrite Hres. apply lookup_insert_eq.
Defined.

Lemma Pool_default_never_reschedules_witness :
  Pool.should_reschedule Scenario.two_submitted
    = Pool.default_check_reschedule ∧
  (Pool._handle_taskresults 2 [Scenario.result_a; Scenario.result_b]
     (Scenario.two_submitted, Scenario.worker_busy)).2 = Ok () ∧
  Pool.unassigned
    (Pool.state
       (Pool._handle_taskresults 2 [Scenario.result_a; Scenario.result_b]
          (Scenario.two_submitted, Scenario.worker_busy)).1.1)
    = Pool.unassigned (Pool.state Scenario.two_submitted) ∧
  Pool._results
    (Pool.state
       (Pool._handle_taskresults 2 [Scenario.result_a; Scenario.result_b]
          (Scenario.two_submitted, Scenario.worker_busy)).1.1) !! "a"
    = Some Scenario.result_a ∧
  Pool._results
    (Pool.state
       (Pool._handle_taskresults 2 [Scenario.result_a; Scenario.result_b]
          (Scenario.two_submitted, Scenario.worker_busy)).1.1) !! "b"
    = Some Scenario.result_b.
Proof.
  assert (Pool.should_reschedule Scenario.two_submitted
            = Pool.default_check_reschedule) as Hdef by reflexivity.
  destruct (Pool_default_never_reschedules Scenario.str_task
              Scenario.str_pool) as (_ & _ & _ & Hhandler & _).
  destruct (Hhandler 2 [Scenario.result_a; Scenario.result_b]
              Scenario.two_submitted Scenario.worker_busy Hdef)
    as (Hun & _ & Htotal & Hrecorded).
  assert ((Pool._handle_taskresults 2 [Scenario.result_a; Scenario.result_b]
             (Scenario.two_submitted, Scenario.worker_busy)).2 = Ok ())
    as Hok.
  { apply Htotal.
    - apply (bool_decide_unpack _). vm_compute. exact I.
    - intros uid Huid.
      apply elem_of_cons in Huid as [->|Huid];
        [|apply list_elem_of_singleton in Huid as ->].
      + split; [apply elem_of_union_l, elem_of_singleton; reflexivity
               |apply list_elem_of_here].
      + split; [apply elem_of_union_r, elem_of_union_l, elem_of_singleton;
                  reflexivity
               |apply list_elem_of_further, list_elem_of_here]. }
  destruct (Hrecorded Hok) as (Hrec & _).
  split_and!; [exact Hdef|exact Hok|exact Hun| |].
  - apply (Hrec Scenario.result_a), list_elem_of_here.
  - apply (Hrec Scenario.result_b), list_elem_of_further, list_elem_of_here.
Defined.

(** * Further properties of the code *)

(** ** Transport: both ends *)

Lemma Transport_accept_send (tr : Transport.t) (m : Message) :
  Transport.accept (Transport.send tr m) = Ok (m, tr).
Proof.
  destruct tr as [reqs resps act].
  unfold Transport.accept, Transport.send, Transport.set_requests. simpl.
  by rewrite pop_snoc.
Qed.

(** A message the worker sends is the next one the pool accepts, and
    accepting it puts the transport back as it was before the send; so of
    two requests sent in a row the pool accepts the second first. *)
Theorem Transport_send_accept_roundtrip (tr : Transport.t) (m1 m2 : Message) :
  Transport.accept (Transport.send tr m1) = Ok (m1, tr) ∧
  Transport.accept (Transport.send (Transport.send tr m1) m2)
    = Ok (m2, Transport.send tr m1).
Proof. by rewrite !Transport_accept_send. Qed.

Lemma Transport_receive_empty (fuel : nat) (reqs : list Message) :
  Transport.receive fuel (Transport.mk reqs [] true)
    = (Transport.Polling, Transport.mk reqs [] true).
Proof. induction fuel as [|fuel IH]; [done|]. simpl. exact IH. Qed.

(** What [receive] comes to, for every fuel and transport: it is still
    polling exactly when the fuel is spent at once or the transport is
    active with no response pending; it returns no message exactly when it
    gets a turn on an inactive transport; and a message it returns is the
    response appended last, which it takes off the buffer. *)
Theorem Transport_receive_outcomes (fuel : nat) (tr : Transport.t) :
  ((Transport.receive fuel tr).1 = Transport.Polling ↔
   fuel = O ∨ (Transport.active tr = true ∧ Transport.responses tr = [])) ∧
  ((Transport.receive fuel tr).1 = Transport.NoMessage ↔
   fuel ≠ O ∧ Transport.active tr = false) ∧
  (∀ m, (Transport.receive fuel tr).1 = Transport.Got m ↔
        fuel ≠ O ∧ Transport.active tr = true ∧
        ∃ rest, Transport.responses tr = rest ++ [m] ∧
                (Transport.receive fuel tr).2
                  = Transport.set_responses rest tr).
Proof.
  destruct tr as [reqs resps act].
  destruct fuel as [|fuel]; simpl.
  { split_and!; [naive_solver|naive_solver|]. intros m. naive_solver. }
  destruct act; simpl.
  - destruct (pop resps) as [[m rest]|] eqn:Hpop.
    + apply pop_Some_inv in Hpop as ->. simpl.
      split_and!; [split; [done|]|split; [done|]|].
      * intros [?|[_ Hnil]]; [done|]. by destruct rest.
      * by intros [_ ?].
      * intros m'. split.
        -- intros [= <-]. split_and!; [done..|]. by exists rest.
        -- intros (_ & _ & rest' & Heq & _).
           apply app_inj_tail in Heq as [_ <-]. done.
    + apply pop_nil_inv in Hpop as ->.
      rewrite Transport_receive_empty. simpl.
      split_and!; [naive_solver|naive_solver|].
      intros m. split; [done|]. intros (_ & _ & rest & Heq & _).
      by destruct rest.
  - split_and!; [naive_solver|naive_solver|]. intros m. naive_solver.
Qed.

(** [send_and_receive] on a transport that is inactive at entry returns no
    message and sends nothing.  On an active transport the message is
    always enqueued; with a response [m] pending it returns [m] when no
    command is expected or [m] carries the expected one, and fails the
    assertion otherwise, the response consumed all the same; with none
    pending it stays inside [receive]. *)
Theorem Transport_send_and_receive_spec (fuel : nat)
    (reqs resps : list Message) (message m : Message) (expect : option Cmd) :
  let sent := Transport.mk (reqs ++ [message]) resps true in
  Transport.send_and_receive fuel (Transport.mk reqs resps false) message
    expect = (Ok Transport.NoMessage, Transport.mk reqs resps false) ∧
  Transport.send_and_receive (S fuel) (Transport.mk reqs (resps ++ [m]) true)
    message expect
    = (match expect with
       | Some e =>
           if decide (cmd m = e) then Ok (Transport.Got m)
           else raise AssertionError ""
       | None => Ok (Transport.Got m)
       end, sent) ∧
  Transport.send_and_receive fuel (Transport.mk reqs [] true) message expect
    = (Ok Transport.Polling, Transport.mk (reqs ++ [message]) [] true).
Proof.
  split_and!.
  - done.
  - unfold Transport.send_and_receive, Transport.send. simpl.
    rewrite pop_snoc. simpl. destruct expect as [e|]; [|done].
    by case_decide.
  - unfold Transport.send_and_receive, Transport.send. simpl.
    unfold Transport.set_requests. simpl.
    by rewrite Transport_receive_empty.
Qed.

(** ** Worker: aborting and executing *)

(** [aborting] (and [stopping], which clears the same flag) touches only
    the transport: the worker keeps what it was assigned, and from then on
    its transport gives [receive] no message, and [send_and_receive]
    neither sends nor returns one, whatever is pending. *)
Theorem Worker_aborting_unblocks (w : Worker.t) (fuel : nat)
    (message : Message) (expect : option Cmd) :
  let w' := Worker.aborting w in
  Worker.assigned w' = Worker.assigned w ∧
  Worker.active w' = Worker.active w ∧
  Transport.requests (Worker.transport w')
    = Transport.requests (Worker.transport w) ∧
  Transport.responses (Worker.transport w')
    = Transport.responses (Worker.transport w) ∧
  Transport.receive (S fuel) (Worker.transport w')
    = (Transport.NoMessage, Worker.transport w') ∧
  Transport.send_and_receive fuel (Worker.transport w') message expect
    = (Ok Transport.NoMessage, Worker.transport w').
Proof. by destruct w as [idx [reqs resps act] asg req hb a]. Qed.

(** [execute] returns a result, and the result names the task. *)
Lemma Worker_execute_returns
    (format_trace : list string → Exc → string) (self : Worker.t)
    (tk : Task) :
  ∃ res, Worker.execute format_trace self tk = Ok res ∧ task res = tk.
Proof.
  unfold Worker.execute, try_except_else, BaseException.
  destruct (materialize tk) as [target|exc]; [|by eexists].
  destruct (Worker.invoke self target); by eexists.
Qed.

(** The worker answers a batch with one result per task, in the order of
    the batch, whatever the tasks do: the result at each position is the
    one [execute] returns for the task at that position, so it names that
    task, and a task that raises does not keep the others from running. *)
Theorem Worker_execute_all_one_result_per_task
    (format_trace : list string → Exc → string) (self : Worker.t)
    (tasks : list Task) :
  ∃ results,
    Worker.execute_all format_trace self tasks = Ok results ∧
    length results = length tasks ∧
    task <$> results = tasks ∧
    Forall2 (λ tk res, Worker.execute format_trace self tk = Ok res)
      tasks results.
Proof.
  induction tasks as [|tk tasks (results & Hall & Hlen & Htasks & Heach)].
  { exists []. by split_and!. }
  destruct (Worker_execute_returns format_trace self tk)
    as (res & Hres & Htk).
  exists (res :: results). split_and!.
  - simpl. by rewrite Hres, Hall.
  - simpl. by rewrite Hlen.
  - by rewrite fmap_cons, Htk, Htasks.
  - by constructor.
Qed.

(** ** Pool: what a handler leaves alone, and how it answers *)

Section HandlerFacts.

Import Pool.

Context (str_task : Task → string) (str_pool : Pool.State → string).

Implicit Types (p : Pool.t) (worker : Worker.t) (c : Pool.Ctx).

Local Abbreviation pull_loop := (Pool.pull_loop str_task str_pool).
Local Abbreviation _handle_taskpull_request :=
  (Pool._handle_taskpull_request str_task str_pool).
Local Abbreviation handle_request := (Pool.handle_request str_task str_pool).
Local Abbreviation route := (Pool.route str_task str_pool).
Local Abbreviation _loop_process_work :=
  (Pool._loop_process_work str_task str_pool).

Lemma handler_frame_refl c : handler_frame c c.
Proof. by repeat split. Qed.

Lemma handler_frame_trans c1 c2 c3 :
  handler_frame c1 c2 → handler_frame c2 c3 → handler_frame c1 c3.
Proof.
  intros (? & ? & ? & ? & ? & ? & ?) (? & ? & ? & ? & ? & ? & ?).
  repeat split; congruence.
Qed.

Lemma discard_task_frame uid reason p worker :
  handler_frame (p, worker)
    ((Pool._discard_task str_pool uid reason p).1, worker).
Proof.
  unfold Pool._discard_task. repeat case_match; by repeat split.
Qed.

Lemma pull_loop_handler_frame (k : nat) tasks c :
  handler_frame c (pull_loop k tasks c).1.
Proof.
  revert tasks c. induction k as [|k IH]; intros tasks [p worker];
    [apply handler_frame_refl|].
  simpl. destruct (pop0 (unassigned (state p))) as [[uid rest]|];
    [|apply handler_frame_refl].
  match goal with
  | |- context [task_assign_cnt (state ?q) !! uid] =>
      match q with
      | upd _ _ => fail 1
      | _ => set (p1 := q)
      end
  end.
  assert (handler_frame (p, worker) (p1, worker)) as Hp1.
  { subst p1. simpl. by destruct (task_assign_cnt (state p) !! uid). }
  destruct (task_assign_cnt (state p1) !! uid) as [cnt|]; [|done].
  case_decide.
  - destruct (_input (state p1) !! uid) as [tk|]; [|done].
    match goal with
    | |- context [Pool._discard_task _ ?u ?r ?q] =>
        pose proof (discard_task_frame u r q worker) as Hd;
        destruct (Pool._discard_task _ u r q) as [p2 [[]|exc]]
    end; simpl in Hd.
    + eapply handler_frame_trans; [exact Hp1|].
      eapply handler_frame_trans; [exact Hd|]. apply IH.
    + simpl. by eapply handler_frame_trans.
  - destruct (_input (state p1) !! uid) as [tk|]; [|done].
    eapply handler_frame_trans; [exact Hp1|].
    eapply handler_frame_trans; [|apply IH]. done.
Qed.

Lemma taskresult_step_handler_frame (now : Time) (r : TaskResult) c :
  handler_frame c (taskresult_step now r c).1.
Proof.
  destruct c as [[s f] worker].
  unfold taskresult_step, deassign, record_result. simpl.
  repeat case_match; simplify_eq; by repeat split.
Qed.

Lemma taskresults_loop_handler_frame (now : Time)
    (results : list TaskResult) c :
  handler_frame c (taskresults_loop now results c).1.
Proof.
  revert c. induction results as [|r results IH]; intros c;
    [apply handler_frame_refl|].
  simpl. pose proof (taskresult_step_handler_frame now r c) as Hs.
  destruct (taskresult_step now r c) as [c1 [[]|exc]]; [|done].
  eapply handler_frame_trans; [exact Hs|apply IH].
Qed.

Lemma drain_assigned_handler_frame (uids : list string) c :
  handler_frame c (drain_assigned uids c).1 ∧
  Worker.transport (drain_assigned uids c).1.2 = Worker.transport c.2.
Proof.
  revert c. induction uids as [|uid uids IH]; intros [p worker];
    [by split; [apply handler_frame_refl|]|].
  simpl. destruct (_input (state p) !! uid); [|by repeat split].
  match goal with
  | |- context [drain_assigned uids ?c'] => destruct (IH c') as [Hf Ht]
  end.
  split; [|by rewrite Ht].
  eapply handler_frame_trans; [|exact Hf]. by repeat split.
Qed.

(** Every handler keeps the frame, whatever its outcome. *)
Lemma handlers_frame (now : Time) (b : Body) c :
  let r := route now b c in
  handler_frame c r.1.
Proof.
  destruct c as [p worker]. unfold Pool.route.
  destruct b; simpl; try by repeat split.
  - unfold Pool._handle_taskpull_request. simpl.
    case_decide; [|by repeat split].
    pose proof (pull_loop_handler_frame (Z.to_nat n) [] (p, worker)) as Hf.
    destruct (pull_loop (Z.to_nat n) [] (p, worker))
      as [[p' worker'] [[|tk batch]|exc]]; simpl in *;
      destruct Hf as (? & ? & ? & ? & ? & ? & ?); by repeat split.
  - unfold _handle_taskresults.
    pose proof (taskresults_loop_handler_frame now results (p, worker)) as Hf.
    destruct (taskresults_loop now results (p, worker))
      as [[p' worker'] [[]|exc]]; simpl in *;
      destruct Hf as (? & ? & ? & ? & ? & ? & ?); by repeat split.
  - unfold _handle_setupfailed, _deco_worker. simpl.
    match goal with
    | |- context [drain_assigned ?l ?c'] =>
        destruct (drain_assigned_handler_frame l c') as [Hf _];
        destruct (drain_assigned l c') as [[p' worker'] [[]|exc]]
    end; simpl in *;
      destruct Hf as (? & ? & ? & ? & ? & ? & ?); by repeat split.
Qed.


Lemma assigned_only_refl worker : assigned_only worker worker.
Proof using Type.
  clear str_task str_pool. by repeat split. Qed.

Lemma assigned_only_trans w1 w2 w3 :
  assigned_only w1 w2 → assigned_only w2 w3 → assigned_only w1 w3.
Proof using Type.
  clear str_task str_pool.
  intros (? & ? & ? & ? & ?) (? & ? & ? & ? & ?). repeat split; congruence.
Qed.

(** The dispatch loop writes nothing of the worker but [assigned], and lets
    out lookup errors only. *)
Lemma pull_loop_worker (k : nat) tasks c :
  assigned_only c.2 (pull_loop k tasks c).1.2 ∧
  ∀ exc, (pull_loop k tasks c).2 = Raise exc → lookup_error exc.
Proof.
  revert tasks c. induction k as [|k IH]; intros tasks [p worker];
    [by split; [apply assigned_only_refl|]|].
  simpl. destruct (pop0 (unassigned (state p))) as [[uid rest]|];
    [|by split; [apply assigned_only_refl|]].
  match goal with
  | |- context [task_assign_cnt (state ?q) !! uid] =>
      match q with
      | upd _ _ => fail 1
      | _ => generalize q; intros p1
      end
  end.
  destruct (task_assign_cnt (state p1) !! uid) as [cnt|];
    [|split; [apply assigned_only_refl|intros exc [= <-]; by left]].
  case_decide.
  - destruct (_input (state p1) !! uid) as [tk|];
      [|split; [apply assigned_only_refl|intros exc [= <-]; by left]].
    unfold Pool._discard_task.
    destruct (_input (state p1) !! uid);
      [|split; [apply assigned_only_refl|intros exc [= <-]; by left]].
    simpl. destruct (Py.remove uid (ongoing (state p1)));
      [apply IH|split; [apply assigned_only_refl|intros exc [= <-]; by right]].
  - destruct (_input (state p1) !! uid) as [tk|];
      [|split; [apply assigned_only_refl|intros exc [= <-]; by left]].
    match goal with
    | |- context [Pool.pull_loop _ _ k ?ts ?c'] =>
        destruct (IH ts c') as [Hw Hexc]
    end.
    split; [|done]. eapply assigned_only_trans; [|exact Hw]. by repeat split.
Qed.

Lemma taskresult_step_worker (now : Time) (r : TaskResult) c :
  assigned_only c.2 (taskresult_step now r c).1.2 ∧
  ∀ exc, (taskresult_step now r c).2 = Raise exc → lookup_error exc.
Proof.
  destruct c as [[s f] worker].
  unfold taskresult_step, deassign, record_result, lookup_error. simpl.
  repeat case_match; simplify_eq; simpl;
    (split; [by repeat split|
            intros exc Hexc; unfold raise in Hexc; simplify_eq; simpl; auto]).
Qed.

Lemma taskresults_loop_worker (now : Time) (results : list TaskResult) c :
  assigned_only c.2 (taskresults_loop now results c).1.2 ∧
  ∀ exc, (taskresults_loop now results c).2 = Raise exc → lookup_error exc.
Proof.
  revert c. induction results as [|r results IH]; intros c;
    [by split; [apply assigned_only_refl|]|].
  simpl. destruct (taskresult_step_worker now r c) as [Hw Hexc].
  destruct (taskresult_step now r c) as [c1 [[]|exc]]; [|done].
  destruct (IH c1) as [Hw' Hexc']. split; [|done].
  by eapply assigned_only_trans.
Qed.

Lemma drain_assigned_worker (uids : list string) c :
  assigned_only c.2 (drain_assigned uids c).1.2 ∧
  ∀ exc, (drain_assigned uids c).2 = Raise exc → lookup_error exc.
Proof using Type.
  clear str_task str_pool.
  revert c. induction uids as [|uid uids IH]; intros [p worker];
    [by split; [apply assigned_only_refl|]|].
  simpl. destruct (_input (state p) !! uid);
    [|split; [by repeat split|intros exc [= <-]; by left]].
  match goal with
  | |- context [drain_assigned uids ?c'] => destruct (IH c') as [Hw Hexc]
  end.
  split; [|done]. eapply assigned_only_trans; [|exact Hw]. by repeat split.
Qed.

(** How a handler answers.  When it returns, the worker has exactly one
    more response, sent in the pool's name.  When it raises, the exception
    is a lookup error, and the worker has no new response, except that
    [_handle_setupfailed] has sent its [Ack] before it decommissions. *)
Lemma handlers_answer (now : Time) (b : Body) c :
  let r := route now b c in
  let sent := Transport.responses (Worker.transport c.2) in
  (r.2 = Ok () →
   ∃ m, Transport.responses (Worker.transport r.1.2) = sent ++ [m] ∧
        sender_metadata m = _metadata c.1) ∧
  (∀ exc, r.2 = Raise exc →
     lookup_error exc ∧
     Transport.responses (Worker.transport r.1.2) =
       match b with
       | SetupFailed _ => sent ++ [make (_metadata c.1) (Ack None)]
       | _ => sent
       end).
Proof.
  destruct c as [p worker]. unfold Pool.route. destruct b; simpl;
    try (split; [intros _; by eexists|done]).
  - unfold Pool._handle_taskpull_request. simpl.
    case_decide; [|split; [intros _; by eexists|done]].
    destruct (pull_loop_worker (Z.to_nat n) [] (p, worker))
      as [(_ & Htr & _) Hexc].
    destruct (pull_loop_frame str_task str_pool (Z.to_nat n) [] (p, worker))
      as (_ & _ & Hrp).
    destruct (pull_loop (Z.to_nat n) [] (p, worker))
      as [[p' worker'] [[|tk batch]|exc]]; simpl in *.
    + split; [|done]. intros _. eexists. rewrite Htr. split; [done|].
      unfold _metadata. by rewrite Hrp.
    + split; [|done]. intros _. eexists. rewrite Htr. split; [done|].
      unfold _metadata. by rewrite Hrp.
    + split; [done|]. intros ? [= <-]. rewrite Htr. split; [|done].
      by apply Hexc.
  - unfold _handle_taskresults.
    destruct (taskresults_loop_worker now results (p, worker))
      as [(_ & Htr & _) Hexc].
    pose proof (taskresults_loop_frame now results (p, worker))
      as ((_ & _ & Hrp) & _ & _).
    destruct (taskresults_loop now results (p, worker))
      as [[p' worker'] [[]|exc]]; simpl in *.
    + split; [|done]. intros _. eexists. rewrite Htr. split; [done|].
      unfold _metadata. by rewrite Hrp.
    + split; [done|]. intros ? [= <-]. rewrite Htr. split; [|done].
      by apply Hexc.
  - unfold _handle_setupfailed, _deco_worker. simpl.
    match goal with
    | |- context [drain_assigned ?l ?c'] =>
        destruct (drain_assigned_worker l c') as [(_ & Htr & _) Hexc];
        destruct (drain_assigned l c') as [[p' worker'] [[]|exc]]
    end; simpl in *.
    + split; [|done]. intros _. eexists. by rewrite Htr.
    + split; [done|]. intros ? [= <-]. rewrite Htr. split; [|done].
      by apply Hexc.
Qed.


(** [handle_request] on a request of a worker of the environment. *)
Lemma handle_request_route (now now' : Time) (request : Message) p
    (idx : string) worker :
  sender_metadata request = WorkerMeta idx →
  _workers (state p) !! idx = Some worker →
  handle_request now now' request p =
    if negb (Worker.active worker) then
      (store (p, Worker.respond worker (make (_metadata p) (Ack None))),
       Ok ())
    else
      let worker := Worker.set_last_heartbeat (Some now) worker in
      let r :=
        if negb (active (state p))
           || bool_decide (status (state p) = STOPPING) then
          ((p, Worker.respond worker (make (_metadata p) Stop)), Ok ())
        else route now' (body request) (p, worker) in
      (store r.1, r.2).
Proof.
  intros Hmeta Hw. unfold Pool.handle_request, Pool.route.
  rewrite Hmeta, Hw. destruct (negb (Worker.active worker)); [done|].
  simpl. destruct (_ || _); [done|].
  destruct (body request);
    first [ done
          | match goal with
            | |- (let '(_, _) := ?e in _) = _ => by destruct e
            end ].
Qed.

(** A request of a worker of the environment is answered once.  Only that
    worker's entry of the environment changes and its request buffer is
    left alone.  When [handle_request] returns, the worker has exactly one
    more response, sent in the pool's name.  When it raises, the exception
    derives from [Exception], and the worker has no new response (but for
    the [Ack] a SetupFailed request is given before the worker is
    decommissioned): a worker whose pull or results message makes the
    handler raise is left waiting. *)
Theorem Pool_handle_request_answers_once (now now' : Time)
    (request : Message) p (idx : string) worker :
  sender_metadata request = WorkerMeta idx →
  _workers (state p) !! idx = Some worker →
  Worker.index worker = idx →
  let r := handle_request now now' request p in
  let sent := Transport.responses (Worker.transport worker) in
  ∃ worker',
    _workers (state r.1) = <[idx := worker']> (_workers (state p)) ∧
    Worker.index worker' = idx ∧
    Transport.requests (Worker.transport worker')
      = Transport.requests (Worker.transport worker) ∧
    (r.2 = Ok () →
     ∃ m, Transport.responses (Worker.transport worker') = sent ++ [m] ∧
          sender_metadata m = _metadata p) ∧
    (∀ exc, r.2 = Raise exc →
       is_Exception (exc_class exc) = true ∧
       Transport.responses (Worker.transport worker') =
         match body request with
         | SetupFailed _ => sent ++ [make (_metadata p) (Ack None)]
         | _ => sent
         end).
Proof.
  intros Hmeta Hw Hidx r sent. subst r sent.
  rewrite (handle_request_route _ _ _ _ _ _ Hmeta Hw).
  destruct (Worker.active worker); simpl.
  2:{ eexists. rewrite Hidx. split_and!; [done..| |done].
      intros _. by eexists. }
  destruct (_ || _); simpl.
  { eexists. rewrite Hidx. split_and!; [done..| |done].
    intros _. by eexists. }
  set (w1 := Worker.set_last_heartbeat (Some now) worker).
  pose proof (handlers_frame now' (body request) (p, w1))
    as (_ & _ & _ & Henv & _ & Hi & Hreq).
  pose proof (handlers_answer now' (body request) (p, w1)) as [Hok Hexc].
  destruct (route now' (body request) (p, w1)) as [[p' worker'] out].
  simpl in *. exists worker'. rewrite Henv, Hi, Hidx.
  split_and!; [done..| |].
  - exact Hok.
  - intros exc Hout. destruct (Hexc exc Hout) as [[Hc|Hc] Hresp];
      by rewrite Hc.
Qed.

(** A worker that is not active, and any worker once the pool is not
    active or is stopping, is answered without a handler being run: the
    answer is [Ack] for the worker that is not active and [Stop] otherwise,
    nothing is dispatched or recorded, and only a worker that is active
    has its heartbeat refreshed. *)
Theorem Pool_handle_request_refuses (now now' : Time) (request : Message) p
    (idx : string) worker :
  sender_metadata request = WorkerMeta idx →
  _workers (state p) !! idx = Some worker →
  Worker.index worker = idx →
  Worker.active worker = false ∨ active (state p) = false
    ∨ status (state p) = STOPPING →
  let r := handle_request now now' request p in
  let answer :=
    make (_metadata p) (if Worker.active worker then Stop else Ack None) in
  r.2 = Ok () ∧
  unassigned (state r.1) = unassigned (state p) ∧
  ongoing (state r.1) = ongoing (state p) ∧
  _results (state r.1) = _results (state p) ∧
  task_assign_cnt (state r.1) = task_assign_cnt (state p) ∧
  ∃ worker',
    _workers (state r.1) = <[idx := worker']> (_workers (state p)) ∧
    Worker.assigned worker' = Worker.assigned worker ∧
    Worker.active worker' = Worker.active worker ∧
    Transport.responses (Worker.transport worker')
      = Transport.responses (Worker.transport worker) ++ [answer] ∧
    Worker.last_heartbeat worker'
      = if Worker.active worker then Some now
        else Worker.last_heartbeat worker.
Proof.
  intros Hmeta Hw Hidx Hrefuse r answer. subst r answer.
  rewrite (handle_request_route _ _ _ _ _ _ Hmeta Hw).
  destruct (Worker.active worker) eqn:Hact; simpl.
  2:{ split_and!; [done..|]. eexists. rewrite Hidx. by split_and!. }
  assert (negb (active (state p))
          || bool_decide (status (state p) = STOPPING) = true) as ->.
  { destruct Hrefuse as [?|[Hp|Hp]]; [done|by rewrite Hp|].
    rewrite bool_decide_eq_true_2 by done. apply orb_true_r. }
  simpl. split_and!; [done..|]. eexists. rewrite Hidx. by split_and!.
Qed.

Lemma route_last_heartbeat (now : Time) (b : Body) c :
  Worker.last_heartbeat (route now b c).1.2 =
    match b with
    | Heartbeat _ => Some now
    | _ => Worker.last_heartbeat c.2
    end.
Proof.
  destruct c as [p worker]. unfold Pool.route. destruct b; simpl; try done.
  - unfold Pool._handle_taskpull_request. simpl. case_decide; [|done].
    destruct (pull_loop_worker (Z.to_nat n) [] (p, worker))
      as [(_ & _ & _ & Hhb & _) _].
    by destruct (pull_loop (Z.to_nat n) [] (p, worker))
      as [[p' worker'] [[|tk batch]|exc]].
  - unfold _handle_taskresults.
    destruct (taskresults_loop_worker now results (p, worker))
      as [(_ & _ & _ & Hhb & _) _].
    by destruct (taskresults_loop now results (p, worker))
      as [[p' worker'] [[]|exc]].
  - unfold _handle_setupfailed, _deco_worker. simpl.
    match goal with
    | |- context [drain_assigned ?l ?c'] =>
        destruct (drain_assigned_worker l c') as [(_ & _ & _ & Hhb & _) _];
        by destruct (drain_assigned l c') as [[p' worker'] [[]|exc]]
    end.
Qed.

(** Any request of an active worker counts as a sign of life: whatever the
    command and whether or not its handler raises, the worker's
    [last_heartbeat] afterwards is the clock reading at which the request
    was taken up (for a Heartbeat request that reaches its handler, the
    reading inside the handler). *)
Theorem Pool_handle_request_marks_alive (now now' : Time)
    (request : Message) p (idx : string) worker :
  sender_metadata request = WorkerMeta idx →
  _workers (state p) !! idx = Some worker →
  Worker.index worker = idx →
  Worker.active worker = true →
  ∃ worker',
    _workers (state (handle_request now now' request p).1) !! idx
      = Some worker' ∧
    Worker.last_heartbeat worker' =
      match body request with
      | Heartbeat _ =>
          if negb (active (state p))
             || bool_decide (status (state p) = STOPPING)
          then Some now else Some now'
      | _ => Some now
      end.
Proof.
  intros Hmeta Hw Hidx Hact.
  rewrite (handle_request_route _ _ _ _ _ _ Hmeta Hw). rewrite Hact. simpl.
  destruct (_ || _); simpl.
  { exists (Worker.respond (Worker.set_last_heartbeat (Some now) worker)
              (make (_metadata p) Stop)).
    rewrite Hidx. split; [apply lookup_insert_eq|].
    by destruct (body request). }
  set (w1 := Worker.set_last_heartbeat (Some now) worker).
  pose proof (handlers_frame now' (body request) (p, w1))
    as (_ & _ & _ & _ & _ & Hi & _).
  pose proof (route_last_heartbeat now' (body request) (p, w1)) as Hhb.
  destruct (route now' (body request) (p, w1)) as [[p' worker'] out].
  simpl in *. exists worker'. rewrite Hi, Hidx.
  split; [apply lookup_insert_eq|]. rewrite Hhb. by destruct (body request).
Qed.

Lemma handle_request_raises (now now' : Time) (request : Message) p exc :
  (handle_request now now' request p).2 = Raise exc → lookup_error exc.
Proof.
  destruct (sender_metadata request) as [idx|rp] eqn:Hmeta.
  2:{ unfold Pool.handle_request. rewrite Hmeta. intros [= <-]. by left. }
  destruct (_workers (state p) !! idx) as [worker|] eqn:Hw.
  2:{ unfold Pool.handle_request. rewrite Hmeta, Hw. intros [= <-].
      by left. }
  rewrite (handle_request_route _ _ _ _ _ _ Hmeta Hw).
  destruct (negb (Worker.active worker)); [done|]. simpl.
  destruct (_ || _); [done|]. simpl.
  apply handlers_answer.
Qed.

Lemma handle_request_lifecycle (now now' : Time) (request : Message) p :
  let r := handle_request now now' request p in
  status (state r.1) = status (state p) ∧
  active (state r.1) = active (state p) ∧
  _input (state r.1) = _input (state p) ∧
  _conn (state r.1) = _conn (state p).
Proof.
  simpl. destruct (sender_metadata request) as [idx|rp] eqn:Hmeta.
  2:{ unfold Pool.handle_request. by rewrite Hmeta. }
  destruct (_workers (state p) !! idx) as [worker|] eqn:Hw.
  2:{ unfold Pool.handle_request. by rewrite Hmeta, Hw. }
  rewrite (handle_request_route _ _ _ _ _ _ Hmeta Hw).
  destruct (negb (Worker.active worker)); [done|]. simpl.
  destruct (_ || _); [done|]. simpl.
  match goal with
  | |- context [route ?t ?b ?c] =>
      pose proof (handlers_frame t b c) as (? & ? & ? & _ & ? & _)
  end.
  done.
Qed.

(** One turn of the dispatcher loop, called as [_loop] calls it, with the
    pool's own status.  In STARTING it moves the pool to STARTED and goes
    on; in STOPPING it moves it to STOPPED and ends the loop; in any status
    other than these and STARTED it raises [RuntimeError] and changes
    nothing.  In STARTED it always goes on: an exception out of a handler
    never leaves the turn, and the turn keeps the status, the active flag
    and the submitted tasks, and leaves the roster of the connection
    manager as it is, its cursor moved by at most one. *)
Theorem Pool_loop_process_work_outcomes (now now' : Time) p :
  let r := _loop_process_work now now' (status (state p)) p in
  match status (state p) with
  | STARTING => r = (upd (set_status STARTED) p, Ok true)
  | STOPPING => r = (upd (set_status STOPPED) p, Ok false)
  | STARTED =>
      r.2 = Ok true ∧
      status (state r.1) = STARTED ∧
      active (state r.1) = active (state p) ∧
      _input (state r.1) = _input (state p) ∧
      RoundRobinConnManager._workers (_conn (state r.1))
        = RoundRobinConnManager._workers (_conn (state p)) ∧
      RoundRobinConnManager._current (_conn (state p))
        <= RoundRobinConnManager._current (_conn (state r.1))
        <= RoundRobinConnManager._current (_conn (state p)) + 1
  | _ => r = (p, raise RuntimeError "Pool in unexpected state")
  end.
Proof.
  destruct (status (state p)) eqn:Hst; try done. simpl.
  unfold Pool._loop_process_work.
  pose proof (accept_manager (_workers (state p)) (_conn (state p))) as Hc.
  destruct (RoundRobinConnManager.accept _ _) as [[msg env] conn].
  simpl in Hc.
  assert (RoundRobinConnManager._workers conn
            = RoundRobinConnManager._workers (_conn (state p)) ∧
          RoundRobinConnManager._current (_conn (state p))
            <= RoundRobinConnManager._current conn
            <= RoundRobinConnManager._current (_conn (state p)) + 1)
    as [Hroster Hcur].
  { subst conn. destruct (RoundRobinConnManager._workers (_conn (state p)))
      eqn:Hws; simpl; rewrite ?Hws; split; (done || lia). }
  destruct msg as [msg|]; [|done].
  match goal with
  | |- context [Pool.handle_request _ _ ?a ?b ?m ?q] =>
      pose proof (handle_request_raises a b m q) as Hexc;
      pose proof (handle_request_lifecycle a b m q) as (Hs & Ha & Hi & Hcn);
      destruct (Pool.handle_request _ _ a b m q) as [p' out]
  end.
  simpl in *. rewrite Hs, Ha, Hi, Hcn. split_and!; try done; try lia.
  destruct out as [[]|exc]; [done|]. unfold try_except_else.
  by destruct (Hexc exc eq_refl) as [Hcl|Hcl]; rewrite Hcl.
Qed.

(** ** Pool: decommissioning and aborting *)

Lemma drain_assigned_spec (uids : list string) c :
  (∀ uid, uid ∈ uids → is_Some (_input (state c.1) !! uid)) →
  let r := drain_assigned uids c in
  r.2 = Ok () ∧
  unassigned (state r.1.1) = unassigned (state c.1) ++ uids ∧
  Worker.assigned r.1.2 = Worker.assigned c.2 ∖ list_to_set uids ∧
  ongoing (state r.1.1) = ongoing (state c.1) ∧
  _results (state r.1.1) = _results (state c.1) ∧
  task_assign_cnt (state r.1.1) = task_assign_cnt (state c.1).
Proof using Type.
  clear str_task str_pool.
  revert c. induction uids as [|uid uids IH]; intros [p worker] Hin.
  { simpl. split_and!; try done; [by rewrite app_nil_r|set_solver]. }
  simpl. destruct (Hin uid) as [tk Htk]; [apply list_elem_of_here|].
  simpl in Htk. rewrite Htk.
  match goal with
  | |- context [drain_assigned uids ?c'] =>
      destruct (IH c') as (Hok & Hun & Has & Hon & Hres & Hcnt)
  end.
  { intros u Hu. apply Hin. by apply list_elem_of_further. }
  simpl in *. rewrite Hok, Hun, Has, Hon, Hres, Hcnt.
  split_and!; try done; [by rewrite <-app_assoc|set_solver].
Qed.

Lemma drain_assigned_missing (uids : list string) c :
  (∃ uid, uid ∈ uids ∧ _input (state c.1) !! uid = None) →
  ∃ exc, (drain_assigned uids c).2 = Raise exc ∧ exc_class exc = KeyError.
Proof using Type.
  clear str_task str_pool.
  revert c. induction uids as [|uid uids IH]; intros [p worker];
    [by intros (? & ?%elem_of_nil & _)|].
  intros (u & Hu & Hnone). simpl in *.
  destruct (_input (state p) !! uid) eqn:Hin; [|by eexists].
  apply IH. exists u. split; [|done].
  apply elem_of_cons in Hu as [->|Hu]; [congruence|done].
Qed.

(** Decommissioning a worker whose assigned uids were all submitted hands
    every one of them back to the tail of [unassigned] (each once, in the
    order the set yields them), leaves the worker with nothing assigned and
    an inactive transport, and writes neither results nor counts.  If one
    of the uids was never submitted, the log line about it raises
    [KeyError] and the worker is not aborted. *)
Theorem Pool_deco_worker_drains c :
  let r := _deco_worker c in
  ((∀ uid, uid ∈ Worker.assigned c.2 → is_Some (_input (state c.1) !! uid)) →
   r.2 = Ok () ∧
   Worker.assigned r.1.2 = ∅ ∧
   Transport.active (Worker.transport r.1.2) = false ∧
   (∃ order, order ≡ₚ elements (Worker.assigned c.2) ∧
      unassigned (state r.1.1) = unassigned (state c.1) ++ order) ∧
   ongoing (state r.1.1) = ongoing (state c.1) ∧
   _results (state r.1.1) = _results (state c.1) ∧
   task_assign_cnt (state r.1.1) = task_assign_cnt (state c.1)) ∧
  ((∃ uid, uid ∈ Worker.assigned c.2 ∧ _input (state c.1) !! uid = None) →
   (∃ exc, r.2 = Raise exc ∧ exc_class exc = KeyError) ∧
   Worker.active r.1.2 = Worker.active c.2 ∧
   Worker.transport r.1.2 = Worker.transport c.2).
Proof using Type.
  clear str_task str_pool.
  simpl. unfold _deco_worker. split.
  - intros Hin.
    destruct (drain_assigned_spec (elements (Worker.assigned c.2)) c)
      as (Hok & Hun & Has & Hon & Hres & Hcnt).
    { intros uid Huid. apply Hin. by apply elem_of_elements. }
    destruct (drain_assigned _ c) as [[p' worker'] out]. simpl in *.
    subst out. simpl. split_and!; try done; [|by eexists].
    rewrite Has. apply set_eq. intros x.
    rewrite elem_of_difference, elem_of_list_to_set, elem_of_elements.
    set_solver.
  - intros (uid & Huid & Hnone).
    destruct (drain_assigned_missing (elements (Worker.assigned c.2)) c)
      as (exc & Hexc & Hclass).
    { exists uid. split; [by apply elem_of_elements|done]. }
    destruct (drain_assigned_worker (elements (Worker.assigned c.2)) c)
      as [(_ & Htr & _ & _ & Hact) _].
    destruct (drain_assigned _ c) as [[p' worker'] out]. simpl in *.
    subst out. simpl. split_and!; [by eexists|done|done].
Qed.

Local Abbreviation discard_pending := (Pool.discard_pending str_pool).

Lemma discard_pending_spec (uids : list string) p :
  (∀ uid, uid ∈ uids → is_Some (_input (state p) !! uid)) →
  let r := discard_pending uids p in
  r.2 = Ok () ∧
  ongoing (state r.1) = match uids with [] => ongoing (state p) | _ => [] end ∧
  (∀ uid, uid ∈ uids →
     ∃ tk reason,
       _input (state p) !! uid = Some tk ∧
       _results (state r.1) !! uid
         = Some (mkTaskResult tk None false (Some reason))) ∧
  (∀ uid, uid ∉ uids →
     _results (state r.1) !! uid = _results (state p) !! uid) ∧
  unassigned (state r.1) = unassigned (state p) ∧
  task_assign_cnt (state r.1) = task_assign_cnt (state p) ∧
  _workers (state r.1) = _workers (state p) ∧
  active (state r.1) = active (state p).
Proof.
  revert p. induction uids as [|uid uids IH]; intros p Hin.
  { simpl. split_and!; try done. by intros ? ?%elem_of_nil. }
  simpl. destruct (Hin uid) as [tk Htk]; [apply list_elem_of_here|].
  rewrite Htk.
  match goal with
  | |- context [discard_pending uids ?q] =>
      destruct (IH q) as (Hok & Hon & Hres & Hother & Hun & Hcnt & Hws & Ha)
  end.
  { intros u Hu. simpl. apply Hin. by apply list_elem_of_further. }
  simpl in *. split_and!; try done.
  - rewrite Hon. by destruct uids.
  - intros u Hu. destruct (decide (u ∈ uids)) as [Hin'|Hout].
    + by apply Hres.
    + apply elem_of_cons in Hu as [->|?]; [|done].
      rewrite (Hother uid Hout), lookup_insert_eq. by eexists _, _.
  - intros u Hu. apply not_elem_of_cons in Hu as [Hne Hu].
    by rewrite (Hother u Hu), lookup_insert_ne.
Qed.

(** Aborting a pool whose ongoing uids were all submitted succeeds: every
    worker is aborted and left with an inactive transport; every uid that
    was ongoing gets a failing result without value for the task submitted
    under it, results of other uids are untouched, and [ongoing] ends
    empty.  The queue of unassigned uids is not cleared. *)
Theorem Pool_abort_discards_pending p :
  (∀ uid, uid ∈ ongoing (state p) → is_Some (_input (state p) !! uid)) →
  let r := Pool.abort str_pool p in
  r.2 = Ok () ∧
  ongoing (state r.1) = [] ∧
  (∀ uid, uid ∈ ongoing (state p) →
     ∃ tk reason,
       _input (state p) !! uid = Some tk ∧
       _results (state r.1) !! uid
         = Some (mkTaskResult tk None false (Some reason))) ∧
  (∀ uid, uid ∉ ongoing (state p) →
     _results (state r.1) !! uid = _results (state p) !! uid) ∧
  unassigned (state r.1) = unassigned (state p) ∧
  _workers (state r.1) = Worker.abort <$> _workers (state p) ∧
  (∀ w wk, _workers (state r.1) !! w = Some wk →
     Transport.active (Worker.transport wk) = false).
Proof.
  intros Hin. simpl. unfold Pool.abort, Pool._discard_pending_tasks. simpl.
  match goal with
  | |- context [discard_pending ?l ?q] =>
      destruct (discard_pending_spec l q)
        as (Hok & Hon & Hres & Hother & Hun & Hcnt & Hws & Ha); [done|]
  end.
  simpl in *. rewrite Hws.
  split_and!; try done.
  - rewrite Hon. by destruct (ongoing (state p)).
  - intros w wk Hwk.
    apply (lookup_fmap_Some (M := gmap string)) in Hwk as (wk0 & <- & _).
    done.
Qed.

(** ** Pool: the order of dispatch *)

(** The dispatch loop is first-in first-out.  When the first [k] uids of
    the queue are distinct, submitted and have been assigned fewer times
    than the limit (a uid without count has been assigned zero times), [k]
    turns of the loop batch the tasks submitted under exactly these uids,
    in queue order, take them off the head of the queue, add them to the
    worker's assigned set, and raise the count of each by one, leaving
    every other count, [ongoing] and the results as they were. *)
Theorem Pool_pull_loop_fifo (k : nat) tasks p worker :
  let head := take k (unassigned (state p)) in
  let assigned_times uid := default 0 (task_assign_cnt (state p) !! uid) in
  NoDup head →
  (∀ uid, uid ∈ head →
     is_Some (_input (state p) !! uid) ∧
     assigned_times uid < task_retries_limit (state p)) →
  let r := pull_loop k tasks (p, worker) in
  ∃ batch,
    r.2 = Ok (tasks ++ batch) ∧
    Forall2 (λ uid tk, _input (state p) !! uid = Some tk) head batch ∧
    unassigned (state r.1.1) = drop k (unassigned (state p)) ∧
    Worker.assigned r.1.2 = list_to_set head ∪ Worker.assigned worker ∧
    (∀ uid, task_assign_cnt (state r.1.1) !! uid =
              if decide (uid ∈ head) then Some (assigned_times uid + 1)
              else task_assign_cnt (state p) !! uid) ∧
    ongoing (state r.1.1) = ongoing (state p) ∧
    _results (state r.1.1) = _results (state p).
Proof.
  simpl. revert tasks p worker.
  induction k as [|k IH]; intros tasks p worker Hnd Hhead.
  { exists []. simpl. rewrite app_nil_r, drop_0.
    split_and!; try done; try (by constructor); try set_solver;
      try (intros uid; by rewrite decide_False by apply not_elem_of_nil). }
  destruct (unassigned (state p)) as [|uid rest] eqn:Hun.
  { exists []. simpl. rewrite Hun. simpl. rewrite app_nil_r.
    split_and!; try done; try (by constructor); try set_solver;
      try (intros uid; by rewrite decide_False by apply not_elem_of_nil). }
  simpl in Hnd, Hhead. apply NoDup_cons in Hnd as [Hfresh Hnd].
  destruct (Hhead uid) as [[tk Htk] Hlt]; [apply list_elem_of_here|].
  set (c0 := default 0 (task_assign_cnt (state p) !! uid)) in *.
  set (p2 := upd (λ s, set_task_assign_cnt
                         (<[uid := c0 + 1]> (task_assign_cnt s)) s)
               (upd (set_unassigned rest) p)).
  set (w2 := Worker.set_assigned ({[uid]} ∪ Worker.assigned worker) worker).
  assert (∃ p2',
            pull_loop (S k) tasks (p, worker)
              = pull_loop k (tasks ++ [tk]) (p2', w2) ∧
            unassigned (state p2') = rest ∧
            _input (state p2') = _input (state p) ∧
            ongoing (state p2') = ongoing (state p) ∧
            _results (state p2') = _results (state p) ∧
            task_retries_limit (state p2') = task_retries_limit (state p) ∧
            ∀ u, task_assign_cnt (state p2') !! u =
                   if decide (u = uid) then Some (c0 + 1)
                   else task_assign_cnt (state p) !! u)
    as (p2' & -> & Hun2 & Hin2 & Hon2 & Hres2 & Hlim2 & Hcnt2).
  { simpl. rewrite Hun. simpl. subst c0.
    destruct (task_assign_cnt (state p) !! uid) as [c|] eqn:Hc; simpl in *.
    - rewrite Hc. rewrite decide_False by lia. simpl. rewrite Htk.
      eexists. split; [reflexivity|]. simpl. split_and!; try done.
      intros u. case_decide as Hu; [subst u; apply lookup_insert_eq|].
      by rewrite lookup_insert_ne.
    - rewrite lookup_insert_eq. rewrite decide_False by lia. simpl.
      rewrite Htk. eexists. split; [reflexivity|]. simpl.
      split_and!; try done.
      intros u. case_decide as Hu; [subst u; apply lookup_insert_eq|].
      by rewrite !lookup_insert_ne. }
  destruct (IH (tasks ++ [tk]) p2' w2) as
    (batch & Hok & Hbatch & Hdrop & Has & Hcnt & Hon & Hres).
  { by rewrite Hun2. }
  { intros u Hu. rewrite Hun2 in Hu. rewrite Hin2, Hlim2, Hcnt2.
    rewrite decide_False by (intros ->; done).
    apply Hhead. by apply list_elem_of_further. }
  exists (tk :: batch). rewrite Hok, <-app_assoc. simpl.
  rewrite Hun2 in *. rewrite Hin2 in Hbatch.
  split_and!; try done.
  - by constructor.
  - rewrite Has. subst w2. simpl. set_solver.
  - intros u. rewrite Hcnt, Hcnt2.
    destruct (decide (u = uid)) as [->|Hne].
    + rewrite decide_False by done. rewrite decide_True; [done|].
      apply list_elem_of_here.
    + destruct (decide (u ∈ take k rest)) as [Hu|Hu].
      * rewrite decide_True by (by apply list_elem_of_further). done.
      * rewrite decide_False; [done|].
        intros [?|?]%elem_of_cons; done.
  - congruence.
  - congruence.
Qed.

Lemma remove_subseteq `{EqDecision A} (x y : A) (l r : list A) :
  Py.remove x l = Some r → y ∈ r → y ∈ l.
Proof.
  revert r. induction l as [|z l IH]; intros r; simpl; [done|].
  destruct (decide (x = z)) as [->|].
  - intros [= <-] ?. by apply list_elem_of_further.
  - destruct (Py.remove x l) eqn:Hr; [|done].
    intros [= <-] [->|?]%elem_of_cons; [apply list_elem_of_here|].
    apply list_elem_of_further. by eapply IH.
Qed.

(** The retry cap.  When the first [k] uids of the queue are distinct,
    submitted, ongoing and have been assigned as often as the limit allows
    (or more), [k] turns of the dispatch loop discard every one of them:
    each gets a failing result without value for its task and leaves
    [ongoing]; nothing is batched, the worker is left as it is, and no
    count is raised (a uid without count gets the count 0). *)
Theorem Pool_pull_loop_discards_exhausted (k : nat) tasks p worker :
  let head := take k (unassigned (state p)) in
  let assigned_times uid := default 0 (task_assign_cnt (state p) !! uid) in
  NoDup head →
  (∀ uid, uid ∈ head →
     is_Some (_input (state p) !! uid) ∧ uid ∈ ongoing (state p) ∧
     task_retries_limit (state p) <= assigned_times uid) →
  let r := pull_loop k tasks (p, worker) in
  r.2 = Ok tasks ∧ r.1.2 = worker ∧
  unassigned (state r.1.1) = drop k (unassigned (state p)) ∧
  (∀ uid, uid ∈ head →
     ∃ tk reason,
       _input (state p) !! uid = Some tk ∧
       _results (state r.1.1) !! uid
         = Some (mkTaskResult tk None false (Some reason))) ∧
  (∀ uid, uid ∉ head →
     _results (state r.1.1) !! uid = _results (state p) !! uid) ∧
  (∀ uid, task_assign_cnt (state r.1.1) !! uid =
            if decide (uid ∈ head) then Some (assigned_times uid)
            else task_assign_cnt (state p) !! uid) ∧
  (∀ uid, uid ∉ head →
     uid ∈ ongoing (state r.1.1) ↔ uid ∈ ongoing (state p)) ∧
  (length (ongoing (state r.1.1)) + length head
     = length (ongoing (state p)))%nat.
Proof.
  simpl. revert tasks p worker.
  induction k as [|k IH]; intros tasks p worker Hnd Hhead.
  { simpl. rewrite drop_0.
    split_and!; try done; try lia; try (by intros ? ?%elem_of_nil);
      try (intros uid; by rewrite decide_False by apply not_elem_of_nil). }
  destruct (unassigned (state p)) as [|uid rest] eqn:Hun.
  { simpl. rewrite Hun. simpl.
    split_and!; try done; try lia; try (by intros ? ?%elem_of_nil);
      try (intros uid; by rewrite decide_False by apply not_elem_of_nil). }
  simpl in Hnd, Hhead. apply NoDup_cons in Hnd as [Hfresh Hnd].
  destruct (Hhead uid) as ([tk Htk] & Hon & Hge); [apply list_elem_of_here|].
  destruct (remove_elem_of uid _ Hon) as [rest' Hrest'].
  set (c0 := default 0 (task_assign_cnt (state p) !! uid)) in *.
  assert (∃ p2 reason,
            pull_loop (S k) tasks (p, worker) = pull_loop k tasks (p2, worker) ∧
            unassigned (state p2) = rest ∧
            _input (state p2) = _input (state p) ∧
            ongoing (state p2) = rest' ∧
            _results (state p2)
              = <[uid := mkTaskResult tk None false (Some reason)]>
                  (_results (state p)) ∧
            task_retries_limit (state p2) = task_retries_limit (state p) ∧
            ∀ u, task_assign_cnt (state p2) !! u =
                   if decide (u = uid) then Some c0
                   else task_assign_cnt (state p) !! u)
    as (p2 & reason & -> & Hun2 & Hin2 & Hon2 & Hres2 & Hlim2 & Hcnt2).
  { simpl. rewrite Hun. simpl. subst c0. unfold Pool._discard_task.
    destruct (task_assign_cnt (state p) !! uid) as [c|] eqn:Hc; simpl in *.
    - rewrite Hc. rewrite decide_True by lia. simpl. rewrite Htk. simpl.
      rewrite Hrest'. eexists _, _. split; [reflexivity|]. simpl.
      split_and!; try done.
      intros u. case_decide as Hu; [by subst u|done].
    - rewrite lookup_insert_eq. rewrite decide_True by lia. simpl.
      rewrite Htk. simpl. rewrite Hrest'.
      eexists _, _. split; [reflexivity|]. simpl. split_and!; try done.
      intros u. case_decide as Hu; [subst u; apply lookup_insert_eq|].
      by rewrite lookup_insert_ne. }
  destruct (IH tasks p2 worker) as
    (Hok & Hw & Hdrop & Hres & Hother & Hcnt & Hmem & Hlen).
  { by rewrite Hun2. }
  { intros u Hu. rewrite Hun2 in Hu. rewrite Hin2, Hlim2, Hon2, Hcnt2.
    assert (u ≠ uid) as Hne by (intros ->; done).
    rewrite decide_False by done.
    destruct (Hhead u) as (? & ? & ?); [by apply list_elem_of_further|].
    split_and!; [done| |done]. by eapply remove_other. }
  rewrite Hun2 in *. rewrite Hin2 in Hres. rewrite Hon2 in Hmem, Hlen.
  split_and!; try done.
  - intros u [->|Hu]%elem_of_cons; [|by apply Hres].
    rewrite (Hother uid Hfresh), Hres2, lookup_insert_eq. by eexists _, _.
  - intros u [Hne Hu]%not_elem_of_cons.
    by rewrite (Hother u Hu), Hres2, lookup_insert_ne.
  - intros u. rewrite Hcnt, Hcnt2.
    destruct (decide (u = uid)) as [->|Hne].
    + rewrite decide_False by done. rewrite decide_True; [done|].
      apply list_elem_of_here.
    + destruct (decide (u ∈ take k rest)) as [Hu|Hu].
      * rewrite decide_True by (by apply list_elem_of_further). done.
      * rewrite decide_False; [done|].
        intros [?|?]%elem_of_cons; done.
  - intros u [Hne Hu]%not_elem_of_cons. rewrite (Hmem u Hu). split.
    + by apply (remove_subseteq uid).
    + intros ?. by eapply remove_other.
  - simpl. apply remove_Some_length in Hrest'. lia.
Qed.

(** ** Pool: only submitted uids are ever in play *)

(** A context stays within the submitted uids when the input and the
    environment are kept and every uid of the new queue, of the new
    [ongoing], of the new results and of the worker's new assigned set was
    there before or is a submitted one. *)
Lemma submitted_ctx_mono c c' :
  submitted_ctx c →
  _input (state c'.1) = _input (state c.1) →
  _workers (state c'.1) = _workers (state c.1) →
  (∀ uid, uid ∈ unassigned (state c'.1) →
     uid ∈ unassigned (state c.1) ∨ is_Some (_input (state c.1) !! uid)) →
  (∀ uid, uid ∈ ongoing (state c'.1) →
     uid ∈ ongoing (state c.1) ∨ is_Some (_input (state c.1) !! uid)) →
  (∀ uid, is_Some (_results (state c'.1) !! uid) →
     is_Some (_results (state c.1) !! uid)
     ∨ is_Some (_input (state c.1) !! uid)) →
  (∀ uid, uid ∈ Worker.assigned c'.2 →
     uid ∈ Worker.assigned c.2 ∨ is_Some (_input (state c.1) !! uid)) →
  submitted_ctx c'.
Proof.
  intros [(Hun & Hon & Hres & Henv) Has] Hin Hws Hun' Hon' Hres' Has'.
  unfold submitted_ctx, submitted_only. rewrite Hin, Hws.
  split_and!.
  - intros uid [?|?]%Hun'; auto.
  - intros uid [?|?]%Hon'; auto.
  - intros uid [?|?]%Hres'; auto.
  - done.
  - intros uid [?|?]%Has'; auto.
Qed.

Lemma pull_loop_submitted (k : nat) tasks c :
  submitted_ctx c → submitted_ctx (pull_loop k tasks c).1.
Proof.
  revert tasks c. induction k as [|k IH]; intros tasks [p worker] Hc; [done|].
  simpl. destruct (unassigned (state p)) as [|uid rest] eqn:Hun; [done|].
  simpl.
  match goal with
  | |- context [task_assign_cnt (state ?q) !! uid] =>
      match q with
      | upd _ _ => fail 1
      | _ => set (p1 := q)
      end
  end.
  assert (submitted_ctx (p1, worker) ∧
          _input (state p1) = _input (state p)) as [Hc1 Hin1].
  { subst p1. destruct (task_assign_cnt (state p) !! uid); simpl;
      (split; [|done]);
      apply (submitted_ctx_mono (p, worker)); try done; simpl;
      try (by left);
      intros u Hu; left; rewrite Hun; by apply list_elem_of_further. }
  clearbody p1.
  destruct (task_assign_cnt (state p1) !! uid) as [cnt|]; [|done].
  case_decide.
  - destruct (_input (state p1) !! uid) as [tk|] eqn:Htk; [|done].
    unfold Pool._discard_task. rewrite Htk. simpl.
    destruct (Py.remove uid (ongoing (state p1))) as [rest'|] eqn:Hrm.
    + apply IH. apply (submitted_ctx_mono (p1, worker)); try done; simpl.
      * by left.
      * intros u Hu. left. by eapply remove_subseteq.
      * intros u. destruct (decide (uid = u)) as [<-|];
          [by right|rewrite lookup_insert_ne by done; by left].
      * by left.
    + simpl. apply (submitted_ctx_mono (p1, worker)); try done; simpl;
        try (by left).
      intros u. destruct (decide (uid = u)) as [<-|];
        [by right|rewrite lookup_insert_ne by done; by left].
  - destruct (_input (state p1) !! uid) as [tk|] eqn:Htk.
    + apply IH. apply (submitted_ctx_mono (p1, worker)); try done; simpl;
        try (by left).
      intros u [->%elem_of_singleton|?]%elem_of_union; [by right|by left].
    + simpl. apply (submitted_ctx_mono (p1, worker)); try done; simpl;
        by left.
Qed.

Lemma taskresult_step_submitted (now : Time) (r : TaskResult) c :
  submitted_ctx c → submitted_ctx (taskresult_step now r c).1.
Proof.
  intros Hc. pose proof Hc as [_ Has].
  apply (submitted_ctx_mono c); try done;
    destruct c as [[s f] worker];
    unfold taskresult_step, deassign, record_result; simpl in *;
    repeat case_match; simplify_eq; simpl; try done;
    intros u; try (by left).
  all: try (intros [?| ->%list_elem_of_singleton]%elem_of_app;
            [by left|right; by apply Has]).
  all: try (intros ?; left; by eapply remove_subseteq).
  all: try (destruct (decide (task_uid (task r) = u)) as [<-|];
            [right; by apply Has
            |rewrite lookup_insert_ne by done; by left]).
  all: intros [? _]%elem_of_difference; by left.
Qed.

Lemma taskresults_loop_submitted (now : Time) (results : list TaskResult) c :
  submitted_ctx c → submitted_ctx (taskresults_loop now results c).1.
Proof.
  revert c. induction results as [|r results IH]; intros c Hc; [done|].
  simpl. pose proof (taskresult_step_submitted now r c Hc) as Hs.
  destruct (taskresult_step now r c) as [c1 [[]|exc]]; [|done].
  by apply IH.
Qed.

Lemma drain_assigned_submitted (uids : list string) c :
  submitted_ctx c → submitted_ctx (drain_assigned uids c).1.
Proof.
  revert c. induction uids as [|uid uids IH]; intros [p worker] Hc; [done|].
  simpl. destruct (_input (state p) !! uid) eqn:Hin.
  - apply IH. apply (submitted_ctx_mono (p, worker)); try done; simpl;
      try (by left).
    + intros u [?| ->%list_elem_of_singleton]%elem_of_app;
        [by left|right; by rewrite Hin].
    + intros u [? _]%elem_of_difference. by left.
  - simpl. apply (submitted_ctx_mono (p, worker)); try done; simpl;
      try (by left).
    intros u [? _]%elem_of_difference. by left.
Qed.

Lemma submitted_ctx_worker p worker worker' :
  submitted_ctx (p, worker) →
  Worker.assigned worker' = Worker.assigned worker →
  submitted_ctx (p, worker').
Proof.
  intros Hc Has. apply (submitted_ctx_mono (p, worker)); try done;
    simpl; try (by left). intros u. rewrite Has. by left.
Qed.

Lemma route_submitted (now : Time) (b : Body) c :
  submitted_ctx c → submitted_ctx (route now b c).1.
Proof.
  destruct c as [p worker]. intros Hc. unfold Pool.route.
  destruct b; simpl; try (by eapply submitted_ctx_worker).
  - unfold Pool._handle_taskpull_request. simpl.
    case_decide; [|by eapply submitted_ctx_worker].
    pose proof (pull_loop_submitted (Z.to_nat n) [] (p, worker) Hc) as Hs.
    destruct (pull_loop (Z.to_nat n) [] (p, worker))
      as [[p' worker'] [[|tk batch]|exc]]; simpl in *;
      try done; by eapply submitted_ctx_worker.
  - unfold _handle_taskresults.
    pose proof (taskresults_loop_submitted now results (p, worker) Hc) as Hs.
    destruct (taskresults_loop now results (p, worker))
      as [[p' worker'] [[]|exc]]; simpl in *;
      try done; by eapply submitted_ctx_worker.
  - unfold _handle_setupfailed, _deco_worker. simpl.
    match goal with
    | |- context [drain_assigned ?l ?c'] =>
        pose proof (drain_assigned_submitted l c') as Hs;
        destruct (drain_assigned l c') as [[p' worker'] [[]|exc]]
    end; simpl in *.
    + eapply submitted_ctx_worker; [apply Hs|done].
      by eapply submitted_ctx_worker.
    + apply Hs. by eapply submitted_ctx_worker.
Qed.

Lemma submitted_only_mono p p' :
  submitted_only p →
  (∀ uid, is_Some (_input (state p) !! uid) →
          is_Some (_input (state p') !! uid)) →
  (∀ uid, uid ∈ unassigned (state p') →
     uid ∈ unassigned (state p) ∨ is_Some (_input (state p') !! uid)) →
  (∀ uid, uid ∈ ongoing (state p') →
     uid ∈ ongoing (state p) ∨ is_Some (_input (state p') !! uid)) →
  (∀ uid, is_Some (_results (state p') !! uid) →
     is_Some (_results (state p) !! uid)
     ∨ is_Some (_input (state p') !! uid)) →
  (∀ w wk' uid, _workers (state p') !! w = Some wk' →
     uid ∈ Worker.assigned wk' →
     ∃ w0 wk, _workers (state p) !! w0 = Some wk ∧
              uid ∈ Worker.assigned wk) →
  submitted_only p'.
Proof.
  intros (Hun & Hon & Hres & Henv) Hin Hun' Hon' Hres' Henv'.
  split_and!.
  - intros uid [?|?]%Hun'; auto.
  - intros uid [?|?]%Hon'; auto.
  - intros uid [?|?]%Hres'; auto.
  - intros w wk' uid Hw Hu.
    destruct (Henv' w wk' uid Hw Hu) as (w0 & wk & Hw0 & Hu0). eauto.
Qed.

Lemma store_submitted c : submitted_ctx c → submitted_only (store c).
Proof.
  destruct c as [p worker]. intros [(Hun & Hon & Hres & Henv) Has].
  split_and!; try done. simpl. unfold Environment in *. intros w wk uid.
  destruct (decide (Worker.index worker = w)) as [<-|Hne].
  - rewrite lookup_insert_eq. intros [= <-]. apply Has.
  - rewrite lookup_insert_ne by done. apply Henv.
Qed.

Lemma lookup_submitted p (w : string) worker :
  submitted_only p → _workers (state p) !! w = Some worker →
  submitted_ctx (p, worker).
Proof.
  intros Hp Hw. split; [done|]. intros uid Hu.
  destruct Hp as (_ & _ & _ & Henv). by eapply Henv.
Qed.

Lemma handle_request_submitted (now now' : Time) (request : Message) p :
  submitted_only p → submitted_only (handle_request now now' request p).1.
Proof.
  intros Hp. destruct (sender_metadata request) as [idx|rp] eqn:Hmeta.
  2:{ unfold Pool.handle_request. by rewrite Hmeta. }
  destruct (_workers (state p) !! idx) as [worker|] eqn:Hw.
  2:{ unfold Pool.handle_request. by rewrite Hmeta, Hw. }
  rewrite (handle_request_route _ _ _ _ _ _ Hmeta Hw).
  pose proof (lookup_submitted p idx worker Hp Hw) as Hc.
  destruct (negb (Worker.active worker)).
  { apply store_submitted. by eapply submitted_ctx_worker. }
  simpl. destruct (_ || _); simpl.
  { apply store_submitted. by eapply submitted_ctx_worker. }
  apply store_submitted, route_submitted. by eapply submitted_ctx_worker.
Qed.

(** What [accept] does to the environment: it rewrites at most the
    transport of workers that are there. *)
Lemma accept_env (env : Environment) (conn : RoundRobinConnManager.t)
    (w : string) (wk' : Worker.t) :
  (RoundRobinConnManager.accept env conn).1.2 !! w = Some wk' →
  ∃ wk tr, env !! w = Some wk ∧ wk' = Worker.set_transport tr wk.
Proof.
  unfold RoundRobinConnManager.accept, RoundRobinConnManager.try_accept.
  assert (∀ wk, env !! w = Some wk →
                ∃ wk0 tr, env !! w = Some wk0 ∧
                          wk = Worker.set_transport tr wk0) as Hsame.
  { intros wk Hwk. exists wk, (Worker.transport wk). split; [done|].
    by destruct wk. }
  destruct (RoundRobinConnManager._workers conn); [by apply Hsame|].
  destruct (RoundRobinConnManager.polled conn) as [w0|];
    [|by apply Hsame].
  destruct (env !! w0) as [wk0|] eqn:Hw0; [|by apply Hsame].
  destruct (Transport.accept (Worker.transport wk0)) as [[m tr]|];
    [|by apply Hsame].
  simpl. unfold Environment in *. destruct (decide (w0 = w)) as [<-|Hne].
  - rewrite lookup_insert_eq. intros [= <-]. by exists wk0, tr.
  - rewrite lookup_insert_ne by done. apply Hsame.
Qed.

Lemma loop_process_work_submitted (now now' : Time) (curr : Status) p :
  submitted_only p →
  submitted_only (_loop_process_work now now' curr p).1.
Proof.
  intros Hp. unfold Pool._loop_process_work. destruct curr; try done.
  pose proof (accept_env (_workers (state p)) (_conn (state p))) as Henv.
  destruct (RoundRobinConnManager.accept _ _) as [[msg env] conn].
  simpl in Henv.
  assert (submitted_only (upd (λ s, set_conn conn (set_workers env s)) p))
    as Hp'.
  { apply (submitted_only_mono p); try done; simpl; try (by left).
    intros w wk' uid Hw Hu.
    destruct (Henv w wk' Hw) as (wk & tr & Hwk & ->). by exists w, wk. }
  destruct msg as [msg|]; [|done].
  match goal with
  | |- context [Pool.handle_request _ _ ?a ?b ?m ?q] =>
      pose proof (handle_request_submitted a b m q Hp') as Hs;
      by destruct (Pool.handle_request _ _ a b m q) as [p' out]
  end.
Qed.

Lemma discard_pending_submitted (uids : list string) p :
  submitted_only p →
  (∀ uid, uid ∈ uids → uid ∈ ongoing (state p)) →
  submitted_only (discard_pending uids p).1.
Proof.
  revert p. induction uids as [|uid uids IH]; intros p Hp Hsub; [done|].
  simpl. destruct (_input (state p) !! uid) as [tk|] eqn:Htk; [|done].
  apply IH; [|done].
  apply (submitted_only_mono p); try done; simpl.
  - by left.
  - intros u Hu. left. apply Hsub. by apply list_elem_of_further.
  - intros u. destruct (decide (uid = u)) as [<-|];
      [by right|rewrite lookup_insert_ne by done; by left].
  - intros w wk' u ??. by exists w, wk'.
Qed.

Lemma internal_step_submitted p p' :
  Pool.internal_step str_task str_pool p p' →
  submitted_only p → submitted_only p'.
Proof.
  destruct 1 as [obj uid| | | |now now'|w wk msg Hw|w wk fuel Hw|w wk Hw];
    intros Hp.
  - destruct obj as [tk|ty]; [|done]. simpl.
    apply (submitted_only_mono p); try done; simpl.
    + intros u Hu. destruct (decide (uid = u)) as [<-|];
        [by rewrite lookup_insert_eq
        |by rewrite lookup_insert_ne by done].
    + intros u [?| ->%list_elem_of_singleton]%elem_of_app;
        [by left|right; by rewrite lookup_insert_eq].
    + intros u [?| ->%list_elem_of_singleton]%elem_of_app;
        [by left|right; by rewrite lookup_insert_eq].
    + by left.
    + intros w wk' u ??. by exists w, wk'.
  - unfold Pool.start. repeat case_match; simpl; done.
  - apply (submitted_only_mono p); try done; simpl; try (by left).
    intros w wk' u Hw Hu.
    apply (lookup_fmap_Some (M := gmap string)) in Hw as (wk & <- & Hwk).
    by exists w, wk.
  - unfold Pool.abort, Pool._discard_pending_tasks.
    apply discard_pending_submitted; [|done].
    apply (submitted_only_mono p); try done; simpl; try (by left).
    intros w wk' u Hw Hu.
    apply (lookup_fmap_Some (M := gmap string)) in Hw as (wk & <- & Hwk).
    by exists w, wk.
  - by apply loop_process_work_submitted.
  - apply store_submitted. eapply submitted_ctx_worker;
      [by eapply lookup_submitted|done].
  - apply store_submitted. eapply submitted_ctx_worker;
      [by eapply lookup_submitted|done].
  - apply store_submitted. unfold _deco_worker.
    pose proof (drain_assigned_submitted (elements (Worker.assigned wk))
                  (p, wk) (lookup_submitted p w wk Hp Hw)) as Hs.
    destruct (drain_assigned _ (p, wk)) as [[p1 wk1] [[]|exc]];
      simpl in *; [|done].
    by eapply submitted_ctx_worker.
Qed.

Lemma reachable_submitted p0 p :
  Pool.reachable str_task str_pool p0 p →
  submitted_only p0 → submitted_only p.
Proof.
  induction 1 as [p|p1 p2 p3 Hstep _ IH]; [done|]. intros Hp. apply IH.
  destruct Hstep as [p2 Hstep|argnames check].
  - by eapply internal_step_submitted.
  - unfold Pool.set_reschedule_check. by case_decide.
Qed.

Lemma init_submitted nm sz limit chain rp :
  submitted_only (Pool.init nm sz limit chain rp).
Proof.
  split_and!; simpl.
  - by intros ? ?%elem_of_nil.
  - by intros ? ?%elem_of_nil.
  - intros uid. rewrite lookup_empty. by intros [? ?].
  - intros w wk uid Hw Hu. unfold _add_workers in Hw.
    apply elem_of_list_to_map_2 in Hw.
    apply list_elem_of_fmap in Hw as (i & [= -> ->] & _).
    simpl in Hu. set_solver.
Qed.

(** ** Pool: the environment of workers is fixed *)

Lemma store_env c :
  env_keyed (_workers (state c.1)) →
  is_Some (_workers (state c.1) !! Worker.index c.2) →
  env_keyed (_workers (state (store c))) ∧
  dom (_workers (state (store c))) = dom (_workers (state c.1)).
Proof.
  destruct c as [p worker]. simpl. unfold env_keyed, Environment in *.
  intros Hkey Hin. split.
  - intros w wk. destruct (decide (Worker.index worker = w)) as [<-|Hne].
    + rewrite lookup_insert_eq. by intros [= <-].
    + rewrite lookup_insert_ne by done. apply Hkey.
  - by apply dom_insert_lookup_L.
Qed.

Lemma handle_request_env (now now' : Time) (request : Message) p :
  env_keyed (_workers (state p)) →
  let p' := (handle_request now now' request p).1 in
  env_keyed (_workers (state p')) ∧
  dom (_workers (state p')) = dom (_workers (state p)).
Proof.
  intros Hkey. simpl.
  destruct (sender_metadata request) as [idx|rp] eqn:Hmeta.
  2:{ unfold Pool.handle_request. by rewrite Hmeta. }
  destruct (_workers (state p) !! idx) as [worker|] eqn:Hw.
  2:{ unfold Pool.handle_request. by rewrite Hmeta, Hw. }
  rewrite (handle_request_route _ _ _ _ _ _ Hmeta Hw).
  pose proof (Hkey idx worker Hw) as Hidx.
  destruct (negb (Worker.active worker)).
  { cbn [fst snd]. apply (store_env (p, _)); [done|]. simpl.
    by rewrite Hidx, Hw. }
  cbv zeta. destruct (_ || _); cbn [fst snd].
  { apply (store_env (p, _)); [done|]. simpl. by rewrite Hidx, Hw. }
  match goal with
  | |- context [route ?t ?b ?c] =>
      pose proof (handlers_frame t b c) as (_ & _ & _ & Henv & _ & Hi & _);
      destruct (route t b c) as [[p1 w1] out]
  end.
  simpl in *. rewrite <-Henv. apply (store_env (p1, w1)); simpl.
  - by rewrite Henv.
  - by rewrite Henv, Hi, Hidx, Hw.
Qed.

Lemma accept_env_fixed (env : Environment) (conn : RoundRobinConnManager.t) :
  env_keyed env →
  let env' := (RoundRobinConnManager.accept env conn).1.2 in
  env_keyed env' ∧ dom env' = dom env.
Proof.
  intros Hkey. simpl. split.
  - intros w wk' Hw.
    destruct (accept_env env conn w wk' Hw) as (wk & tr & Hwk & ->).
    simpl. by apply Hkey.
  - unfold RoundRobinConnManager.accept, RoundRobinConnManager.try_accept.
    destruct (RoundRobinConnManager._workers conn); [done|].
    destruct (RoundRobinConnManager.polled conn) as [w0|]; [|done].
    destruct (env !! w0) as [wk0|] eqn:Hw0; [|done].
    destruct (Transport.accept (Worker.transport wk0)) as [[m tr]|];
      [|done].
    simpl. unfold Environment in *. by apply dom_insert_lookup_L.
Qed.

Lemma discard_pending_env (uids : list string) p :
  _workers (state (discard_pending uids p).1) = _workers (state p).
Proof.
  revert p. induction uids as [|uid uids IH]; intros p; [done|].
  simpl. destruct (_input (state p) !! uid); [|done]. by rewrite IH.
Qed.

Lemma fmap_env_fixed (f : Worker.t → Worker.t) (env : Environment) :
  (∀ wk, Worker.index (f wk) = Worker.index wk) →
  env_keyed env →
  env_keyed (f <$> env) ∧ dom (f <$> env) = dom env.
Proof.
  intros Hf Hkey. unfold env_keyed, Environment in *.
  split; [|apply dom_fmap_L].
  intros w wk' Hw.
  apply lookup_fmap_Some in Hw as (wk & <- & Hwk).
  rewrite Hf. by apply Hkey.
Qed.

Lemma internal_step_env p p' :
  Pool.internal_step str_task str_pool p p' →
  env_keyed (_workers (state p)) →
  env_keyed (_workers (state p')) ∧
  dom (_workers (state p')) = dom (_workers (state p)).
Proof.
  destruct 1 as [obj uid| | | |now now'|w wk msg Hw|w wk fuel Hw|w wk Hw];
    intros Hkey.
  - by destruct obj.
  - unfold Pool.start. by repeat case_match.
  - simpl. by apply fmap_env_fixed.
  - unfold Pool.abort, Pool._discard_pending_tasks.
    rewrite discard_pending_env. simpl. by apply fmap_env_fixed.
  - unfold Pool._loop_process_work. destruct (status (state p)); try done.
    pose proof (accept_env_fixed (_workers (state p)) (_conn (state p)) Hkey)
      as [Hkey' Hdom].
    destruct (RoundRobinConnManager.accept _ _) as [[msg env] conn].
    simpl in *. destruct msg as [msg|]; [|done].
    match goal with
    | |- context [Pool.handle_request _ _ ?a ?b ?m ?q] =>
        destruct (handle_request_env a b m q Hkey') as [Hk Hd];
        destruct (Pool.handle_request _ _ a b m q) as [p' out]
    end.
    simpl in *. split; [done|]. by rewrite Hd.
  - apply (store_env (p, _)); [done|]. simpl.
    by rewrite (Hkey w wk Hw), Hw.
  - apply (store_env (p, _)); [done|]. simpl.
    by rewrite (Hkey w wk Hw), Hw.
  - unfold _deco_worker.
    destruct (drain_assigned_handler_frame (elements (Worker.assigned wk))
                (p, wk)) as [(_ & _ & _ & Henv & _ & Hi & _) _].
    destruct (drain_assigned _ (p, wk)) as [[p1 wk1] [[]|exc]];
      cbn [fst snd] in *; rewrite <-Henv.
    + apply (store_env (p1, Worker.abort wk1)); simpl; [by rewrite Henv|].
      by rewrite Henv, Hi, (Hkey w wk Hw), Hw.
    + apply (store_env (p1, wk1)); simpl; [by rewrite Henv|].
      by rewrite Henv, Hi, (Hkey w wk Hw), Hw.
Qed.

Lemma reachable_env p0 p :
  Pool.reachable str_task str_pool p0 p →
  env_keyed (_workers (state p0)) →
  env_keyed (_workers (state p)) ∧
  dom (_workers (state p)) = dom (_workers (state p0)).
Proof.
  induction 1 as [p|p1 p2 p3 Hstep _ IH]; [done|]. intros Hkey.
  assert (env_keyed (_workers (state p2)) ∧
          dom (_workers (state p2)) = dom (_workers (state p1)))
    as [Hkey2 Hdom2].
  { destruct Hstep as [p2 Hstep|argnames check].
    - by apply internal_step_env.
    - unfold Pool.set_reschedule_check. by case_decide. }
  destruct (IH Hkey2) as [? ?]. split; [done|congruence].
Qed.

Lemma add_workers_lookup (sz : nat) (w : string) (wk : Worker.t) :
  _add_workers sz !! w = Some wk →
  wk = Worker.init w ∧ ∃ i : nat, (i < sz)%nat ∧ w = pretty i.
Proof.
  unfold _add_workers. intros Hw. apply elem_of_list_to_map_2 in Hw.
  apply list_elem_of_fmap in Hw as (i & [= -> ->] & Hi).
  apply elem_of_seq in Hi. split; [done|]. exists i. split; [lia|done].
Qed.

Lemma add_workers_dom (sz : nat) (w : string) :
  w ∈ dom (_add_workers sz) ↔ ∃ i : nat, (i < sz)%nat ∧ w = pretty i.
Proof.
  unfold _add_workers, Environment.
  rewrite dom_list_to_map_L, elem_of_list_to_set.
  rewrite <-list_fmap_compose, list_elem_of_fmap. simpl. split.
  - intros (i & -> & Hi). apply elem_of_seq in Hi. exists i.
    split; [lia|done].
  - intros (i & Hi & ->). exists i. split; [done|].
    apply elem_of_seq. lia.
Qed.

(** The pool never adds or drops a worker.  In every state reached from a
    pool built with [size] workers, the environment holds exactly the
    workers ["0"] to [str(size - 1)], each under its own index: a
    decommissioned, stopped or aborted worker stays where it is. *)
Theorem Pool_workers_fixed (nm : string) (sz : nat) (limit : Z)
    (chain : list (option string)) (rp : string) p :
  Pool.reachable str_task str_pool (Pool.init nm sz limit chain rp) p →
  (∀ w, is_Some (_workers (state p) !! w) ↔
        ∃ i : nat, (i < sz)%nat ∧ w = pretty i) ∧
  (∀ w wk, _workers (state p) !! w = Some wk → Worker.index wk = w).
Proof.
  intros Hreach. apply reachable_env in Hreach as [Hkey Hdom].
  - split; [|done]. intros w. unfold Environment in *.
    rewrite <-elem_of_dom, Hdom. apply add_workers_dom.
  - intros w wk [-> _]%add_workers_lookup. done.
Qed.

(** Nothing is in play that was not submitted.  In every state reached
    from a freshly built pool, each uid in the queue, in [ongoing], with a
    result, or assigned to a worker of the environment has a task in the
    input. *)
Theorem Pool_only_submitted_uids (nm : string) (sz : nat) (limit : Z)
    (chain : list (option string)) (rp : string) p :
  Pool.reachable str_task str_pool (Pool.init nm sz limit chain rp) p →
  (∀ uid, uid ∈ unassigned (state p) → is_Some (_input (state p) !! uid)) ∧
  (∀ uid, uid ∈ ongoing (state p) → is_Some (_input (state p) !! uid)) ∧
  (∀ uid, is_Some (_results (state p) !! uid) →
          is_Some (_input (state p) !! uid)) ∧
  (∀ w wk uid, _workers (state p) !! w = Some wk →
               uid ∈ Worker.assigned wk →
               is_Some (_input (state p) !! uid)).
Proof.
  intros Hreach. eapply reachable_submitted; [done|]. apply init_submitted.
Qed.

(** Consequently, in every state reached from a freshly built pool the
    clean-up paths do not trip over a missing task: aborting the pool
    succeeds and empties [ongoing], and decommissioning any worker of the
    environment succeeds and leaves it with nothing assigned. *)
Theorem Pool_reachable_cleanup_succeeds (nm : string) (sz : nat) (limit : Z)
    (chain : list (option string)) (rp : string) p :
  Pool.reachable str_task str_pool (Pool.init nm sz limit chain rp) p →
  ((Pool.abort str_pool p).2 = Ok () ∧
   ongoing (state (Pool.abort str_pool p).1) = []) ∧
  (∀ w wk, _workers (state p) !! w = Some wk →
     (_deco_worker (p, wk)).2 = Ok () ∧
     Worker.assigned (_deco_worker (p, wk)).1.2 = ∅).
Proof.
  intros Hreach.
  pose proof (reachable_submitted _ _ Hreach (init_submitted _ _ _ _ _))
    as (_ & Hon & _ & Henv).
  split.
  - unfold Pool.abort, Pool._discard_pending_tasks. simpl.
    match goal with
    | |- context [discard_pending ?l ?q] =>
        destruct (discard_pending_spec l q) as (Hok & Hon' & _); [done|]
    end.
    simpl in *. split; [done|]. rewrite Hon'.
    by destruct (ongoing (state p)).
  - intros w wk Hw. unfold _deco_worker.
    destruct (drain_assigned_spec (elements (Worker.assigned wk)) (p, wk))
      as (Hok & _ & Has & _).
    { intros uid Huid. apply (Henv w wk); [done|].
      by apply elem_of_elements. }
    destruct (drain_assigned _ (p, wk)) as [[p1 wk1] out]. simpl in *.
    subst out. simpl. split; [done|]. rewrite Has. apply set_eq. intros x.
    rewrite elem_of_difference, elem_of_list_to_set, elem_of_elements.
    set_solver.
Qed.

(** A worker that reports a failed setup is acknowledged and
    decommissioned in the same turn.  For an active worker of an active
    pool that is not stopping, whose assigned uids were all submitted, the
    SetupFailed request succeeds: the worker gets exactly one [Ack], ends
    with nothing assigned and an inactive transport, and every uid it held
    is back at the tail of the queue (each once), still ongoing and
    without a result, so that another worker can pull it. *)
Theorem Pool_setupfailed_requeues (now now' : Time) (request : Message) p
    (idx : string) worker (data : string) :
  sender_metadata request = WorkerMeta idx →
  body request = SetupFailed data →
  _workers (state p) !! idx = Some worker →
  Worker.index worker = idx →
  Worker.active worker = true →
  active (state p) = true →
  status (state p) ≠ STOPPING →
  (∀ uid, uid ∈ Worker.assigned worker → is_Some (_input (state p) !! uid)) →
  let r := handle_request now now' request p in
  r.2 = Ok () ∧
  (∃ worker',
     _workers (state r.1) = <[idx := worker']> (_workers (state p)) ∧
     Worker.assigned worker' = ∅ ∧
     Transport.active (Worker.transport worker') = false ∧
     Transport.responses (Worker.transport worker')
       = Transport.responses (Worker.transport worker)
           ++ [make (_metadata p) (Ack None)] ∧
     Transport.requests (Worker.transport worker')
       = Transport.requests (Worker.transport worker)) ∧
  (∃ order, order ≡ₚ elements (Worker.assigned worker) ∧
     unassigned (state r.1) = unassigned (state p) ++ order) ∧
  ongoing (state r.1) = ongoing (state p) ∧
  _results (state r.1) = _results (state p) ∧
  task_assign_cnt (state r.1) = task_assign_cnt (state p).
Proof.
  intros Hmeta Hbody Hw Hidx Hact Hpact Hstatus Hin. simpl.
  rewrite (handle_request_route now now' request p idx worker Hmeta Hw).
  rewrite Hact, Hpact. simpl.
  rewrite bool_decide_eq_false_2 by done. rewrite Hbody. simpl.
  unfold Pool._handle_setupfailed, Pool._deco_worker. simpl.
  set (w1 := Worker.respond _ _).
  destruct (drain_assigned_spec (elements (Worker.assigned w1)) (p, w1))
    as (Hok & Hun & Has & Hon & Hres & Hcnt).
  { intros uid Huid. apply Hin. by apply elem_of_elements in Huid. }
  destruct (drain_assigned_worker (elements (Worker.assigned w1)) (p, w1))
    as [(Hi & Htr & _) _].
  destruct (drain_assigned_handler_frame (elements (Worker.assigned w1))
              (p, w1)) as [(_ & _ & _ & Hws & _) _].
  destruct (drain_assigned _ (p, w1)) as [[p' worker'] out]. simpl in *.
  subst out. simpl. rewrite Hi, Hidx, Hws.
  split_and!; try done.
  - exists (Worker.abort worker'). split_and!; [done| |done|..].
    + simpl. rewrite Has. apply set_eq. intros x.
      rewrite elem_of_difference, elem_of_list_to_set, elem_of_elements.
      set_solver.
    + simpl. by rewrite Htr.
    + simpl. by rewrite Htr.
  - by eexists.
Qed.


End HandlerFacts.

(** ** Connection manager: the roster *)

(** [register] accepts a worker only on a started manager that does not
    have it yet, appends it to the roster and leaves the cursor alone;
    otherwise it raises [RuntimeError].  A roster without duplicates stays
    without duplicates. *)
Theorem RoundRobin_register_keeps_roster_distinct
    (c : RoundRobinConnManager.t) (w : string) :
  NoDup (RoundRobinConnManager._workers c) →
  match RoundRobinConnManager.register c w with
  | Ok c' =>
      RoundRobinConnManager.status c = STARTED ∧
      w ∉ RoundRobinConnManager._workers c ∧
      RoundRobinConnManager._workers c'
        = RoundRobinConnManager._workers c ++ [w] ∧
      NoDup (RoundRobinConnManager._workers c') ∧
      RoundRobinConnManager._current c' = RoundRobinConnManager._current c ∧
      RoundRobinConnManager.status c' = STARTED
  | Raise exc =>
      exc_class exc = RuntimeError ∧
      (RoundRobinConnManager.status c ≠ STARTED
       ∨ w ∈ RoundRobinConnManager._workers c)
  end.
Proof.
  intros Hnd. unfold RoundRobinConnManager.register.
  case_decide as Hst; [by split; [|left]|].
  case_decide as Hin; [by split; [|right]|].
  simpl. split_and!; try done.
  apply NoDup_app. split_and!; [done| |apply NoDup_singleton].
  intros x Hx ->%list_elem_of_singleton. done.
Qed.

Lemma register_all_spec (ws : list string) (c : RoundRobinConnManager.t) :
  RoundRobinConnManager.status c = STARTED →
  NoDup (RoundRobinConnManager._workers c ++ ws) →
  Pool.register_all ws c
    = (RoundRobinConnManager.set_workers
         (RoundRobinConnManager._workers c ++ ws) c, Ok ()).
Proof.
  revert c. induction ws as [|w ws IH]; intros c Hst Hnd.
  { simpl. rewrite app_nil_r. by destruct c. }
  simpl. unfold RoundRobinConnManager.register.
  rewrite decide_False by (by intros ?).
  apply NoDup_app in Hnd as (Hnd1 & Hfresh & Hnd2).
  rewrite decide_False.
  2:{ intros Hin. apply (Hfresh w Hin), list_elem_of_here. }
  rewrite IH; simpl; [by rewrite <-app_assoc|done|].
  rewrite <-app_assoc. simpl. apply NoDup_app. by split_and!.
Qed.

Lemma worker_keys_NoDup (p : Pool.t) : NoDup (Pool.worker_keys p).
Proof.
  unfold Pool.worker_keys. apply (NoDup_fmap_2 _), NoDup_seq.
Qed.

(** Starting a pool whose connection manager has an empty roster starts
    the manager and registers the workers ["0"] to [str(size - 1)] in this
    order, each exactly once, with the cursor and the queue of the pool
    untouched.  Starting it a second time, without a stop in between,
    raises [RuntimeError] at the first worker, which is registered
    already. *)
Theorem Pool_start_registers_each_worker (p : Pool.t) :
  RoundRobinConnManager._workers (Pool._conn (Pool.state p)) = [] →
  let r := Pool.start p in
  RoundRobinConnManager.status (Pool._conn (Pool.state r.1)) = STARTED ∧
  RoundRobinConnManager._workers (Pool._conn (Pool.state r.1))
    = (λ i : nat, pretty i) <$> seq 0 (Pool.size (Pool.state p)) ∧
  NoDup (RoundRobinConnManager._workers (Pool._conn (Pool.state r.1))) ∧
  RoundRobinConnManager._current (Pool._conn (Pool.state r.1))
    = RoundRobinConnManager._current (Pool._conn (Pool.state p)) ∧
  Pool.unassigned (Pool.state r.1) = Pool.unassigned (Pool.state p) ∧
  ((0 < Pool.size (Pool.state p))%nat →
   ∃ exc, (Pool.start r.1).2 = Raise exc ∧ exc_class exc = RuntimeError).
Proof.
  intros Hroster.
  assert (Pool.register_all (Pool.worker_keys p)
            (RoundRobinConnManager.starting (Pool._conn (Pool.state p)))
          = (RoundRobinConnManager.set_workers (Pool.worker_keys p)
               (RoundRobinConnManager.starting
                  (Pool._conn (Pool.state p))), Ok ())) as Hreg.
  { rewrite register_all_spec; simpl; rewrite ?Hroster; simpl;
      [done..|apply worker_keys_NoDup]. }
  simpl. unfold Pool.start. rewrite Hreg. simpl.
  split_and!; try done; [apply (worker_keys_NoDup p)|].
  intros Hsz. unfold Pool.worker_keys. simpl.
  destruct (Pool.size (Pool.state p)) as [|n]; [lia|]. simpl.
  unfold RoundRobinConnManager.register. simpl. by eexists.
Qed.

(** Stopping the pool empties the roster of the connection manager and
    leaves every worker with an inactive transport and otherwise as it was;
    from then on [accept] returns [None] and moves nothing, not even the
    cursor, and a worker's [receive] returns no message, whatever is
    pending. *)
Theorem Pool_stop_ends_dispatch (fuel : nat) (p : Pool.t) :
  let p' := Pool.stop p in
  RoundRobinConnManager._workers (Pool._conn (Pool.state p')) = [] ∧
  Pool._workers (Pool.state p')
    = Pool.stop_worker <$> Pool._workers (Pool.state p) ∧
  (∀ w wk, Pool._workers (Pool.state p') !! w = Some wk →
     ∃ wk0, Pool._workers (Pool.state p) !! w = Some wk0 ∧
            Worker.assigned wk = Worker.assigned wk0 ∧
            Transport.requests (Worker.transport wk)
              = Transport.requests (Worker.transport wk0) ∧
            Transport.responses (Worker.transport wk)
              = Transport.responses (Worker.transport wk0) ∧
            Transport.receive (S fuel) (Worker.transport wk)
              = (Transport.NoMessage, Worker.transport wk)) ∧
  RoundRobinConnManager.accept (Pool._workers (Pool.state p'))
    (Pool._conn (Pool.state p'))
    = (None, Pool._workers (Pool.state p'), Pool._conn (Pool.state p')) ∧
  Pool.unassigned (Pool.state p') = Pool.unassigned (Pool.state p) ∧
  Pool.ongoing (Pool.state p') = Pool.ongoing (Pool.state p) ∧
  Pool._results (Pool.state p') = Pool._results (Pool.state p).
Proof.
  simpl. split_and!; try done.
  intros w wk Hwk.
  apply (lookup_fmap_Some (M := gmap string)) in Hwk as (wk0 & <- & Hwk0).
  exists wk0. by split_and!.
Qed.

(** ** Connection manager: fairness over any number of calls *)

Section Fairness.

Import RoundRobinConnManager.

Implicit Types (env : Environment) (c : RoundRobinConnManager.t).

Lemma accept_trace_app (a b : nat) env env' c :
  _workers c ≠ [] →
  accept_trace (a + b) env c =
    accept_trace a env c
      ++ accept_trace b env' (set_current (_current c + Z.of_nat a) c).
Proof.
  intros Hne. rewrite !accept_trace_lookup by done. simpl.
  rewrite seq_app, fmap_app. f_equal. simpl.
  assert (seq a b = Nat.add a <$> seq 0 b) as ->
    by (rewrite fmap_add_seq; f_equal; lia).
  rewrite <-list_fmap_compose.
  apply list_fmap_ext. intros _ i _. simpl. do 2 f_equal. f_equal. lia.
Qed.

Lemma accept_trace_take (r : nat) env c :
  _workers c ≠ [] → (r ≤ length (_workers c))%nat →
  accept_trace r env c = take r (accept_trace (length (_workers c)) env c).
Proof.
  intros Hne Hr. rewrite !accept_trace_lookup by done.
  rewrite <-fmap_take, take_seq. do 2 f_equal. lia.
Qed.

Lemma count_Some_absent (ws : list string) (w : string) :
  w ∉ ws → filter (λ x, x = Some w) (Some <$> ws) = [].
Proof.
  induction ws as [|v ws IH]; [done|].
  intros [Hne Hout]%not_elem_of_cons. rewrite fmap_cons.
  rewrite filter_cons_False by congruence. by apply IH.
Qed.

Lemma count_Some_NoDup (ws : list string) (w : string) :
  NoDup ws → w ∈ ws →
  length (filter (λ x, x = Some w) (Some <$> ws)) = 1%nat.
Proof.
  induction ws as [|v ws IH]; [by intros _ ?%elem_of_nil|].
  intros [Hfresh Hnd]%NoDup_cons Hin. rewrite fmap_cons.
  destruct (decide (v = w)) as [->|Hne].
  - rewrite filter_cons_True by done. simpl.
    by rewrite count_Some_absent.
  - rewrite filter_cons_False by congruence. apply IH; [done|].
    apply elem_of_cons in Hin as [?|?]; [congruence|done].
Qed.

(** A full round polls each worker of a duplicate-free roster once. *)
Lemma accept_trace_round env c (w : string) :
  NoDup (_workers c) → w ∈ _workers c →
  length (filter (λ x, x = Some w)
            (accept_trace (length (_workers c)) env c)) = 1%nat.
Proof.
  intros Hnd Hin.
  assert (_workers c ≠ []) as Hne by (intros Heq; rewrite Heq in Hin;
                                       by apply elem_of_nil in Hin).
  rewrite accept_trace_rotate by done.
  apply count_Some_NoDup.
  - by rewrite rotate_Permutation.
  - by apply elem_of_rotate.
Qed.

Lemma accept_trace_rounds (q r : nat) env c (w : string) :
  NoDup (_workers c) → w ∈ _workers c →
  (r ≤ length (_workers c))%nat →
  (q ≤ length (filter (λ x, x = Some w)
                 (accept_trace (q * length (_workers c) + r) env c))
     ≤ q + 1)%nat.
Proof.
  intros Hnd Hin Hr.
  assert (_workers c ≠ []) as Hne by (intros Heq; rewrite Heq in Hin;
                                       by apply elem_of_nil in Hin).
  revert c Hnd Hin Hr Hne. induction q as [|q IH]; intros c Hnd Hin Hr Hne.
  - simpl. rewrite accept_trace_take by done.
    pose proof (accept_trace_round env c w Hnd Hin) as Hround.
    rewrite <-(take_drop r (accept_trace (length (_workers c)) env c))
      in Hround.
    rewrite filter_app, length_app in Hround. lia.
  - replace (S q * length (_workers c) + r)%nat
      with (length (_workers c) + (q * length (_workers c) + r))%nat by lia.
    rewrite (accept_trace_app _ _ env env) by done.
    rewrite filter_app, length_app.
    rewrite accept_trace_round by done.
    specialize (IH (set_current
                      (_current c + Z.of_nat (length (_workers c))) c)).
    simpl in IH. specialize (IH Hnd Hin Hr Hne). lia.
Qed.

(** Round-robin fairness.  With a duplicate-free roster of [n] workers,
    over any [k] calls of [accept] in a row each worker is polled
    [k / n] or [k / n + 1] times, whatever the requests that are pending:
    no two workers' poll counts differ by more than one. *)
Theorem RoundRobin_accept_fair (k : nat) env c (w : string) :
  NoDup (_workers c) → w ∈ _workers c →
  let n := length (_workers c) in
  let polls :=
    length (filter (λ x, x = Some w) (accept_trace k env c)) in
  (k `div` n ≤ polls ≤ k `div` n + 1)%nat.
Proof.
  intros Hnd Hin n polls. subst polls.
  assert (n ≠ 0)%nat as Hn.
  { subst n. destruct (_workers c); [by apply elem_of_nil in Hin|done]. }
  pose proof (Nat.div_mod k n Hn) as Hk.
  pose proof (Nat.mod_upper_bound k n Hn) as Hr.
  assert (k `mod` n ≤ length (_workers c))%nat as Hle by (fold n; lia).
  pose proof (accept_trace_rounds (k `div` n) (k `mod` n) env c w
                Hnd Hin Hle) as Hrounds.
  fold n in Hrounds.
  replace (k `div` n * n + k `mod` n)%nat with k in Hrounds by lia.
  exact Hrounds.
Qed.

End Fairness.

(** ** Instances on the example run *)

Lemma Pool_handle_request_answers_once_witness :
  sender_metadata Scenario.pull_one = WorkerMeta "0" ∧
  Pool._workers (Pool.state (Scenario.started 3)) !! "0"
    = Some Scenario.worker_0 ∧
  ∃ worker' m,
    Pool._workers
      (Pool.state
         (Pool.handle_request Scenario.str_task Scenario.str_pool 1 1
            Scenario.pull_one (Scenario.started 3)).1) !! "0"
      = Some worker' ∧
    Transport.responses (Worker.transport worker') = [m] ∧
    sender_metadata m = Pool._metadata (Scenario.started 3).
Proof.
  assert (sender_metadata Scenario.pull_one = WorkerMeta "0") as Hs
    by reflexivity.
  assert (Pool._workers (Pool.state (Scenario.started 3)) !! "0"
            = Some Scenario.worker_0) as Hw by (vm_compute; reflexivity).
  split_and!; [exact Hs|exact Hw|].
  destruct (Pool_handle_request_answers_once Scenario.str_task
              Scenario.str_pool 1 1 Scenario.pull_one (Scenario.started 3)
              "0" Scenario.worker_0 Hs Hw eq_refl)
    as (worker' & Hws & _ & _ & Hok & _).
  destruct Hok as (m & Hm & Hmeta); [vm_compute; reflexivity|].
  exists worker', m. split_and!; [|exact Hm|exact Hmeta].
  rewrite Hws. apply lookup_insert_eq.
Defined.

Lemma Pool_handle_request_refuses_witness :
  Pool.status (Pool.state (Pool.stop (Scenario.started 3))) = STOPPING ∧
  (Pool.handle_request Scenario.str_task Scenario.str_pool 1 1
     Scenario.pull_one (Pool.stop (Scenario.started 3))).2 = Ok () ∧
  Pool.unassigned
    (Pool.state
       (Pool.handle_request Scenario.str_task Scenario.str_pool 1 1
          Scenario.pull_one (Pool.stop (Scenario.started 3))).1) = ["a"].
Proof.
  assert (Pool.status (Pool.state (Pool.stop (Scenario.started 3)))
            = STOPPING) as Hst by reflexivity.
  assert (Pool._workers (Pool.state (Pool.stop (Scenario.started 3))) !! "0"
            = Some (Pool.stop_worker Scenario.worker_0)) as Hw
    by (vm_compute; reflexivity).
  destruct (Pool_handle_request_refuses Scenario.str_task Scenario.str_pool
              1 1 Scenario.pull_one (Pool.stop (Scenario.started 3)) "0"
              (Pool.stop_worker Scenario.worker_0) eq_refl Hw eq_refl
              (or_intror (or_intror Hst)))
    as (Hok & Hun & _).
  split_and!; [exact Hst|exact Hok|].
  rewrite Hun. vm_compute. reflexivity.
Defined.

Lemma Pool_handle_request_marks_alive_witness :
  Worker.active Scenario.worker_0 = true ∧
  ∃ worker',
    Pool._workers
      (Pool.state
         (Pool.handle_request Scenario.str_task Scenario.str_pool 5 6
            Scenario.pull_one (Scenario.started 3)).1) !! "0"
      = Some worker' ∧
    Worker.last_heartbeat worker' = Some 5.
Proof.
  assert (Pool._workers (Pool.state (Scenario.started 3)) !! "0"
            = Some Scenario.worker_0) as Hw by (vm_compute; reflexivity).
  split; [reflexivity|].
  exact (Pool_handle_request_marks_alive Scenario.str_task Scenario.str_pool
           5 6 Scenario.pull_one (Scenario.started 3) "0" Scenario.worker_0
           eq_refl Hw eq_refl eq_refl).
Defined.

Lemma Pool_deco_worker_drains_witness :
  (Pool._deco_worker (Scenario.two_submitted, Scenario.worker_busy)).2
    = Ok () ∧
  Worker.assigned
    (Pool._deco_worker (Scenario.two_submitted, Scenario.worker_busy)).1.2
    = ∅.
Proof.
  destruct (Pool_deco_worker_drains
              (Scenario.two_submitted, Scenario.worker_busy)) as [Hall _].
  destruct Hall as (Hok & Hempty & _); [|exact (conj Hok Hempty)].
  intros uid Huid. simpl in Huid.
  apply elem_of_union in Huid as [Huid|Huid].
  - apply elem_of_singleton in Huid as ->. vm_compute. by eexists.
  - apply elem_of_union in Huid as [Huid|Huid].
    + apply elem_of_singleton in Huid as ->. vm_compute. by eexists.
    + by apply elem_of_empty in Huid.
Defined.

Lemma Pool_abort_discards_pending_witness :
  Pool.ongoing (Pool.state Scenario.two_submitted) = ["a"; "b"] ∧
  (Pool.abort Scenario.str_pool Scenario.two_submitted).2 = Ok () ∧
  Pool.ongoing
    (Pool.state (Pool.abort Scenario.str_pool Scenario.two_submitted).1)
    = [] ∧
  Pool.unassigned
    (Pool.state (Pool.abort Scenario.str_pool Scenario.two_submitted).1)
    = ["a"; "b"].
Proof.
  assert (Pool.ongoing (Pool.state Scenario.two_submitted) = ["a"; "b"])
    as Hon by (vm_compute; reflexivity).
  destruct (Pool_abort_discards_pending Scenario.str_pool
              Scenario.two_submitted)
    as (Hok & Hempty & _ & _ & Hun & _).
  { intros uid Huid. rewrite Hon in Huid.
    apply elem_of_cons in Huid as [->|Huid];
      [vm_compute; by eexists|].
    apply list_elem_of_singleton in Huid as ->. vm_compute. by eexists. }
  split_and!; [exact Hon|exact Hok|exact Hempty|].
  rewrite Hun. vm_compute. reflexivity.
Defined.

Lemma Pool_pull_loop_fifo_witness :
  take 2 (Pool.unassigned (Pool.state Scenario.two_submitted)) = ["a"; "b"] ∧
  (Pool.pull_loop Scenario.str_task Scenario.str_pool 2 []
     (Scenario.two_submitted, Scenario.worker_0)).2
    = Ok [Scenario.task_a; Scenario.task_b].
Proof.
  assert (take 2 (Pool.unassigned (Pool.state Scenario.two_submitted))
            = ["a"; "b"]) as Hhead by (vm_compute; reflexivity).
  split; [exact Hhead|].
  destruct (Pool_pull_loop_fifo Scenario.str_task Scenario.str_pool 2 []
              Scenario.two_submitted Scenario.worker_0)
    as (batch & Hok & Hbatch & _).
  { rewrite Hhead. apply (bool_decide_unpack _). vm_compute. exact I. }
  { intros uid Huid. rewrite Hhead in Huid.
    apply elem_of_cons in Huid as [->|Huid];
      [split; [vm_compute; by eexists|vm_compute; reflexivity]|].
    apply list_elem_of_singleton in Huid as ->.
    split; [vm_compute; by eexists|vm_compute; reflexivity]. }
  rewrite Hok. rewrite Hhead in Hbatch.
  apply Forall2_cons_inv_l in Hbatch as (ta & rest & Ha & Hrest & ->).
  apply Forall2_cons_inv_l in Hrest as (tb & rest' & Hb & Hnil & ->).
  apply Forall2_nil_inv_l in Hnil as ->.
  assert (Some ta = Some Scenario.task_a) as [= ->]
    by (rewrite <-Ha; vm_compute; reflexivity).
  assert (Some tb = Some Scenario.task_b) as [= ->]
    by (rewrite <-Hb; vm_compute; reflexivity).
  reflexivity.
Defined.

Lemma Pool_pull_loop_discards_exhausted_witness :
  take 1 (Pool.unassigned (Pool.state (Scenario.submitted 0))) = ["a"] ∧
  (Pool.pull_loop Scenario.str_task Scenario.str_pool 1 []
     (Scenario.submitted 0, Scenario.worker_0)).2 = Ok [] ∧
  Pool.ongoing
    (Pool.state
       (Pool.pull_loop Scenario.str_task Scenario.str_pool 1 []
          (Scenario.submitted 0, Scenario.worker_0)).1.1) = [].
Proof.
  assert (take 1 (Pool.unassigned (Pool.state (Scenario.submitted 0)))
            = ["a"]) as Hhead by (vm_compute; reflexivity).
  split; [exact Hhead|].
  destruct (Pool_pull_loop_discards_exhausted Scenario.str_task
              Scenario.str_pool 1 [] (Scenario.submitted 0)
              Scenario.worker_0)
    as (Hok & _ & _ & _ & _ & _ & _ & Hlen).
  { rewrite Hhead. apply (bool_decide_unpack _). vm_compute. exact I. }
  { intros uid Huid. rewrite Hhead in Huid.
    apply list_elem_of_singleton in Huid as ->.
    split_and!; [vm_compute; by eexists| |vm_compute; by intros [=]].
    apply list_elem_of_here. }
  split; [exact Hok|].
  rewrite Hhead in Hlen.
  apply length_zero_iff_nil.
  change (length (Pool.ongoing (Pool.state (Scenario.submitted 0))))
    with 1%nat in Hlen.
  cbn [length] in Hlen. lia.
Defined.

Lemma Pool_workers_fixed_witness :
  Pool.reachable Scenario.str_task Scenario.str_pool
    (Pool.init "pool" 1 3 [] "runpath") (Scenario.dispatched 3) ∧
  (∀ w, is_Some (Pool._workers (Pool.state (Scenario.dispatched 3)) !! w) ↔
        ∃ i : nat, (i < 1)%nat ∧ w = pretty i) ∧
  (∀ w wk, Pool._workers (Pool.state (Scenario.dispatched 3)) !! w = Some wk →
           Worker.index wk = w).
Proof.
  pose proof (scenario_reachable 3) as Hreach.
  split; [exact Hreach|].
  exact (Pool_workers_fixed Scenario.str_task Scenario.str_pool
           "pool" 1 3 [] "runpath" (Scenario.dispatched 3) Hreach).
Defined.

Lemma Pool_only_submitted_uids_witness :
  Pool.reachable Scenario.str_task Scenario.str_pool
    (Pool.init "pool" 1 3 [] "runpath") (Scenario.dispatched 3) ∧
  ∀ w wk uid,
    Pool._workers (Pool.state (Scenario.dispatched 3)) !! w = Some wk →
    uid ∈ Worker.assigned wk →
    is_Some (Pool._input (Pool.state (Scenario.dispatched 3)) !! uid).
Proof.
  pose proof (scenario_reachable 3) as Hreach.
  split; [exact Hreach|].
  exact (proj2 (proj2 (proj2
           (Pool_only_submitted_uids Scenario.str_task Scenario.str_pool
              "pool" 1 3 [] "runpath" (Scenario.dispatched 3) Hreach)))).
Defined.

Lemma Pool_reachable_cleanup_succeeds_witness :
  Pool.reachable Scenario.str_task Scenario.str_pool
    (Pool.init "pool" 1 3 [] "runpath") (Scenario.dispatched 3) ∧
  (Pool.abort Scenario.str_pool (Scenario.dispatched 3)).2 = Ok () ∧
  Pool.ongoing
    (Pool.state (Pool.abort Scenario.str_pool (Scenario.dispatched 3)).1)
    = [].
Proof.
  pose proof (scenario_reachable 3) as Hreach.
  split; [exact Hreach|].
  exact (proj1
           (Pool_reachable_cleanup_succeeds Scenario.str_task
              Scenario.str_pool "pool" 1 3 [] "runpath"
              (Scenario.dispatched 3) Hreach)).
Defined.

Lemma RoundRobin_register_keeps_roster_distinct_witness :
  NoDup (RoundRobinConnManager._workers Scenario.roster) ∧
  (∃ c', RoundRobinConnManager.register Scenario.roster "3" = Ok c' ∧
         RoundRobinConnManager._workers c' = ["0"; "1"; "2"; "3"] ∧
         NoDup (RoundRobinConnManager._workers c')) ∧
  (∃ exc, RoundRobinConnManager.register Scenario.roster "1" = Raise exc ∧
          exc_class exc = RuntimeError).
Proof.
  assert (NoDup (RoundRobinConnManager._workers Scenario.roster)) as Hnd
    by (apply (bool_decide_unpack _); vm_compute; exact I).
  split; [exact Hnd|]. split.
  - pose proof (RoundRobin_register_keeps_roster_distinct
                  Scenario.roster "3" Hnd) as Hreg.
    destruct (RoundRobinConnManager.register Scenario.roster "3")
      as [c'|exc] eqn:Heq; [|by vm_compute in Heq].
    destruct Hreg as (_ & _ & Hws & Hnd' & _).
    exists c'. split_and!; [reflexivity|exact Hws|exact Hnd'].
  - pose proof (RoundRobin_register_keeps_roster_distinct
                  Scenario.roster "1" Hnd) as Hreg.
    destruct (RoundRobinConnManager.register Scenario.roster "1")
      as [c'|exc] eqn:Heq; [by vm_compute in Heq|].
    exists exc. split; [reflexivity|exact (proj1 Hreg)].
Defined.

Lemma Pool_start_registers_each_worker_witness :
  RoundRobinConnManager._workers (Pool._conn (Pool.state (Scenario.submitted 3)))
    = [] ∧
  RoundRobinConnManager._workers
    (Pool._conn (Pool.state (Pool.start (Scenario.submitted 3)).1)) = ["0"] ∧
  ∃ exc, (Pool.start (Pool.start (Scenario.submitted 3)).1).2 = Raise exc ∧
         exc_class exc = RuntimeError.
Proof.
  assert (RoundRobinConnManager._workers
            (Pool._conn (Pool.state (Scenario.submitted 3))) = []) as Hempty
    by reflexivity.
  destruct (Pool_start_registers_each_worker (Scenario.submitted 3) Hempty)
    as (_ & Hws & _ & _ & _ & Hagain).
  split_and!; [exact Hempty| |].
  - rewrite Hws. vm_compute. reflexivity.
  - destruct Hagain as (exc & Hexc & Hclass); [simpl; lia|].
    by exists exc.
Defined.

Lemma RoundRobin_accept_fair_witness :
  NoDup (RoundRobinConnManager._workers Scenario.roster) ∧
  "1" ∈ RoundRobinConnManager._workers Scenario.roster ∧
  (2 ≤ length (filter (λ x, x = Some "1")
                 (RoundRobinConnManager.accept_trace 7
                    (Pool._add_workers 3) Scenario.roster)) ≤ 3)%nat.
Proof.
  assert (NoDup (RoundRobinConnManager._workers Scenario.roster)) as Hnd
    by (apply (bool_decide_unpack _); vm_compute; exact I).
  assert ("1" ∈ RoundRobinConnManager._workers Scenario.roster) as Hin
    by (apply list_elem_of_further, list_elem_of_here).
  split_and!; [exact Hnd|exact Hin|..];
    apply (RoundRobin_accept_fair 7 (Pool._add_workers 3) Scenario.roster
             "1" Hnd Hin).
Defined.

Lemma Pool_setupfailed_requeues_witness :
  Pool._workers (Pool.state Scenario.holding_a) !! "0"
    = Some (Worker.set_assigned {["a"]} Scenario.worker_0) ∧
  Pool.status (Pool.state Scenario.holding_a) ≠ STOPPING ∧
  (Pool.handle_request Scenario.str_task Scenario.str_pool 1 1
     Scenario.setup_failed Scenario.holding_a).2 = Ok () ∧
  Pool.ongoing
    (Pool.state
       (Pool.handle_request Scenario.str_task Scenario.str_pool 1 1
          Scenario.setup_failed Scenario.holding_a).1) = ["a"].
Proof.
  assert (Pool._workers (Pool.state Scenario.holding_a) !! "0"
            = Some (Worker.set_assigned {["a"]} Scenario.worker_0)) as Hw
    by (vm_compute; reflexivity).
  assert (Pool.status (Pool.state Scenario.holding_a) ≠ STOPPING) as Hst
    by (vm_compute; intros [=]).
  destruct (Pool_setupfailed_requeues Scenario.str_task Scenario.str_pool
              1 1 Scenario.setup_failed Scenario.holding_a "0"
              (Worker.set_assigned {["a"]} Scenario.worker_0) "setup error"
              eq_refl eq_refl Hw eq_refl eq_refl eq_refl Hst)
    as (Hok & _ & _ & Hon & _).
  { intros uid Huid. simpl in Huid.
    apply elem_of_singleton in Huid as ->. vm_compute. by eexists. }
  split_and!; [exact Hw|exact Hst|exact Hok|].
  rewrite Hon. vm_compute. reflexivity.
Defined.
